(** * The Markdown renderer of the editor (src/renderer/markdown.js)

    A shallow embedding of [escapeHtml], [renderMath], [replaceInlineMath],
    [parseInline] and [convertMarkdown], and the properties of the rendering
    pipeline that the specification states about them.

    JavaScript strings are sequences of UTF-16 code units; they are modelled
    as lists of code units ([N]).  The external KaTeX renderer is a section
    variable: a function that either returns HTML or throws. *)

From Stdlib Require Import Strings.String Strings.Ascii Numbers.DecimalString.
From Stdlib Require Import List NArith Bool Arith Lia.
From Stdlib Require Import ZArith.
Import ListNotations.

Open Scope N_scope.

(** ** Strings *)

Definition codeunit := N.
Definition jsstr := list codeunit.

(** ASCII literals of the source, as code units. *)
Definition str (s : string) : jsstr :=
  map N_of_ascii (list_ascii_of_string s).
Arguments str s%_string.

Definition quot : jsstr := [34].   (* the double quote character *)
Definition nl : jsstr := [10].     (* "\n" *)
Definition cr : jsstr := [13].     (* "\r" *)

Definition LF : codeunit := 10.
Definition CR : codeunit := 13.
Definition DOLLAR : codeunit := 36.
Definition BACKSLASH : codeunit := 92.
Definition BACKTICK : codeunit := 96.

(** ECMAScript WhiteSpace and LineTerminator code points: what
    [String.prototype.trim] strips and what [\s] matches. *)
Definition isWhiteSpace (c : codeunit) : bool :=
  (c =? 9) || (c =? 10) || (c =? 11) || (c =? 12) || (c =? 13) || (c =? 32)
  || (c =? 160) || (c =? 5760) || ((8192 <=? c) && (c <=? 8202))
  || (c =? 8232) || (c =? 8233) || (c =? 8239) || (c =? 8287)
  || (c =? 12288) || (c =? 65279).

(** LineTerminator: what [.] refuses. *)
Definition isLineTerminator (c : codeunit) : bool :=
  (c =? 10) || (c =? 13) || (c =? 8232) || (c =? 8233).

Definition isDigit (c : codeunit) : bool := (48 <=? c) && (c <=? 57).

Fixpoint trimStart (s : jsstr) : jsstr :=
  match s with
  | [] => []
  | c :: s' => if isWhiteSpace c then trimStart s' else s
  end.

Fixpoint trimEnd (s : jsstr) : jsstr :=
  match s with
  | [] => []
  | c :: s' =>
      match trimEnd s' with
      | [] => if isWhiteSpace c then [] else [c]
      | t => c :: t
      end
  end.

Definition trim (s : jsstr) : jsstr := trimEnd (trimStart s).

Definition isEmpty (s : jsstr) : bool :=
  match s with [] => true | _ => false end.

Fixpoint startsWith (p s : jsstr) : bool :=
  match p, s with
  | [], _ => true
  | a :: p', b :: s' => (a =? b) && startsWith p' s'
  | _ :: _, [] => false
  end.

Definition endsWith (p s : jsstr) : bool := startsWith (rev p) (rev s).

Fixpoint jsstr_eqb (a b : jsstr) : bool :=
  match a, b with
  | [], [] => true
  | x :: a', y :: b' => (x =? y) && jsstr_eqb a' b'
  | _, _ => false
  end.

(** [s.slice(a)] for [a >= 0]. *)
Definition sliceFrom (a : nat) (s : jsstr) : jsstr := skipn a s.

(** [s.slice(a, -b)] for [a, b >= 0]: from index [a] up to [length - b]. *)
Definition sliceBetween (a b : nat) (s : jsstr) : jsstr :=
  firstn ((length s - b) - a) (skipn a s).

(** [Array.prototype.join]. *)
Fixpoint join (sep : jsstr) (l : list jsstr) : jsstr :=
  match l with
  | [] => []
  | [x] => x
  | x :: l' => x ++ sep ++ join sep l'
  end.

(** [s.split('\n')]: always at least one piece. *)
Fixpoint splitLines (s : jsstr) : list jsstr :=
  match s with
  | [] => [[]]
  | c :: s' =>
      if c =? LF then [] :: splitLines s'
      else match splitLines s' with
           | l :: ls => (c :: l) :: ls
           | [] => [[c]]
           end
  end.

(** Number to decimal string, as a template literal prints it. *)
Definition natToString (n : nat) : jsstr :=
  str (NilZero.string_of_uint (Nat.to_uint n)).

(** ** Regular expressions

    The regular expressions of the source are sequences of single
    characters, character classes under a greedy quantifier, one
    lookbehind and the end anchor.  A pattern is a list of atoms, matched
    with backtracking in the order a backtracking engine tries: a greedy
    quantifier takes the longest run first and gives characters back one
    by one. *)

Inductive atom : Type :=
| One (f : codeunit -> bool)
    (* one code unit of a class; a literal [c] is [One (N.eqb c)] *)
| Rep (f : codeunit -> bool) (lo : nat) (hi : option nat) (cap : bool)
    (* a class under a greedy quantifier [{lo,hi}]; [cap]: a capture group *)
| NotBehind (c : codeunit)
    (* the negative lookbehind [(?<!c)] *)
| Eos.
    (* [$], without the multiline flag *)

Definition pattern := list atom.

Definition lit (c : codeunit) : atom := One (N.eqb c).
Definition notc (c : codeunit) : codeunit -> bool := fun x => negb (x =? c).

Fixpoint spanLen (f : codeunit -> bool) (s : jsstr) : nat :=
  match s with
  | c :: s' => if f c then S (spanLen f s') else 0%nat
  | [] => 0%nat
  end.

Definition greedyMax (f : codeunit -> bool) (hi : option nat) (s : jsstr) : nat :=
  match hi with
  | Some m => Nat.min m (spanLen f s)
  | None => spanLen f s
  end.

(** The code unit before the current position, after [l] was consumed. *)
Definition lastUnit (prev : option codeunit) (l : jsstr) : option codeunit :=
  fold_left (fun _ c => Some c) l prev.

(** Try the counts [k], [k-1], ..., [lo] in that order. *)
Fixpoint backtrack {A : Type} (try : nat -> option A) (lo k : nat) : option A :=
  if (k <? lo)%nat then None
  else match try k with
       | Some r => Some r
       | None =>
           match k with
           | O => None
           | S k' => backtrack try lo k'
           end
       end.

(** Match [p] at the start of [s]; [prev] is the code unit before [s] in
    the whole input, if any.  Returns the captures in group order and the
    input left after the match. *)
Fixpoint pmatch (p : pattern) (prev : option codeunit) (s : jsstr)
  {struct p} : option (list jsstr * jsstr) :=
  match p with
  | [] => Some ([], s)
  | One f :: p' =>
      match s with
      | c :: s' => if f c then pmatch p' (Some c) s' else None
      | [] => None
      end
  | Rep f lo hi cap :: p' =>
      backtrack
        (fun k =>
           match pmatch p' (lastUnit prev (firstn k s)) (skipn k s) with
           | Some (caps, rest) =>
               Some (if cap then firstn k s :: caps else caps, rest)
           | None => None
           end)
        lo (greedyMax f hi s)
  | NotBehind c :: p' =>
      match prev with
      | Some d => if d =? c then None else pmatch p' prev s
      | None => pmatch p' prev s
      end
  | Eos :: p' =>
      match s with
      | [] => pmatch p' prev []
      | _ :: _ => None
      end
  end.

(** Replacement strings: literal text and [$n] group references. *)
Inductive tpart : Type :=
| TLit (l : jsstr)
| TGrp (i : nat).

Definition template := list tpart.

Definition subst (t : template) (caps : list jsstr) : jsstr :=
  flat_map (fun part =>
              match part with
              | TLit l => l
              | TGrp i => nth (i - 1) caps []
              end) t.

(** [s.replace(/p/g, t)]: scan from the left; after a match the scan
    resumes at its end ([skip] counts the matched code units still to pass);
    an empty match is followed by one copied code unit. *)
Fixpoint replaceAllFrom (p : pattern) (t : template)
  (prev : option codeunit) (skip : nat) (s : jsstr) {struct s} : jsstr :=
  match s with
  | [] =>
      match skip with
      | O => match pmatch p prev [] with
             | Some (caps, _) => subst t caps
             | None => []
             end
      | S _ => []
      end
  | c :: s' =>
      match skip with
      | S k => replaceAllFrom p t (Some c) k s'
      | O =>
          match pmatch p prev s with
          | Some (caps, rest) =>
              match (length s - length rest)%nat with
              | O => subst t caps ++ c :: replaceAllFrom p t (Some c) 0 s'
              | S k => subst t caps ++ replaceAllFrom p t (Some c) k s'
              end
          | None => c :: replaceAllFrom p t (Some c) 0 s'
          end
      end
  end.

Definition replaceAll (p : pattern) (t : template) (s : jsstr) : jsstr :=
  replaceAllFrom p t None 0 s.

(** [s.replace(/p/, t)] without the global flag: the leftmost match only. *)
Fixpoint replaceFirstFrom (p : pattern) (t : template)
  (prev : option codeunit) (s : jsstr) {struct s} : jsstr :=
  match pmatch p prev s with
  | Some (caps, rest) => subst t caps ++ rest
  | None =>
      match s with
      | [] => []
      | c :: s' => c :: replaceFirstFrom p t (Some c) s'
      end
  end.

Definition replaceFirst (p : pattern) (t : template) (s : jsstr) : jsstr :=
  replaceFirstFrom p t None s.

(** A pattern that begins with [^]: tried at the start of the input only. *)
Definition matchStart (p : pattern) (s : jsstr) : option (list jsstr * jsstr) :=
  pmatch p None s.

Definition testStart (p : pattern) (s : jsstr) : bool :=
  match matchStart p s with Some _ => true | None => false end.

(** ** escapeHtml *)

Definition ch (a : ascii) : codeunit := N_of_ascii a.
Arguments ch a%_char.

Definition escapeHtml (value : jsstr) : jsstr :=
  let v1 := replaceAll [lit (ch "&")] [TLit (str "&amp;")] value in
  let v2 := replaceAll [lit (ch "<")] [TLit (str "&lt;")] v1 in
  let v3 := replaceAll [lit (ch ">")] [TLit (str "&gt;")] v2 in
  let v4 := replaceAll [lit 34] [TLit (str "&quot;")] v3 in  (* 34: the double quote *)
  replaceAll [lit (ch "'")] [TLit (str "&#39;")] v4.

(** What the five replacements of [escapeHtml] do to one code unit
    ([escapeHtml_flat_map] below). *)
Definition isHtmlSpecial (c : codeunit) : bool :=
  (c =? ch "&") || (c =? ch "<") || (c =? ch ">") || (c =? 34) || (c =? ch "'").

Definition escapeUnit (c : codeunit) : jsstr :=
  if c =? ch "&" then str "&amp;"
  else if c =? ch "<" then str "&lt;"
  else if c =? ch ">" then str "&gt;"
  else if c =? 34 then str "&quot;"
  else if c =? ch "'" then str "&#39;"
  else [c].

(** ** Completions of a call: a returned value or a thrown exception *)

Inductive completion (A : Type) : Type :=
| Normal (v : A)
| Throw (error : jsstr).
Arguments Normal {A} v.
Arguments Throw {A} error.

(** [try { return body } catch (error) { return handler(error) }] *)
Definition tryCatch {A : Type} (body : completion A)
  (handler : jsstr -> completion A) : completion A :=
  match body with
  | Normal v => Normal v
  | Throw error => handler error
  end.

(** The string a call evaluates to at its call site.  [renderMath] never
    throws ([renderMath_returns] below), so the second case is never
    reached from it. *)
Definition returned (c : completion jsstr) : jsstr :=
  match c with
  | Normal v => v
  | Throw _ => []
  end.

(** ** The block scanner's state (the [let] variables of convertMarkdown) *)

Record state : Type := mkState {
  output : list jsstr;
  inBullet : bool;
  inOrdered : bool;
  inBlockquote : bool;
  inCode : bool;
  inMathBlock : bool;
  codeLanguage : jsstr;
  codeBuffer : list jsstr;
  mathBuffer : list jsstr
}.

Definition initialState : state :=
  mkState [] false false false false false [] [] [].

Definition push (x : jsstr) (s : state) : state :=
  mkState (output s ++ [x]) (inBullet s) (inOrdered s) (inBlockquote s)
    (inCode s) (inMathBlock s) (codeLanguage s) (codeBuffer s) (mathBuffer s).

Definition setInBullet (b : bool) (s : state) : state :=
  mkState (output s) b (inOrdered s) (inBlockquote s)
    (inCode s) (inMathBlock s) (codeLanguage s) (codeBuffer s) (mathBuffer s).

Definition setInOrdered (b : bool) (s : state) : state :=
  mkState (output s) (inBullet s) b (inBlockquote s)
    (inCode s) (inMathBlock s) (codeLanguage s) (codeBuffer s) (mathBuffer s).

Definition setInBlockquote (b : bool) (s : state) : state :=
  mkState (output s) (inBullet s) (inOrdered s) b
    (inCode s) (inMathBlock s) (codeLanguage s) (codeBuffer s) (mathBuffer s).

Definition setCode (b : bool) (language : jsstr) (buffer : list jsstr)
  (s : state) : state :=
  mkState (output s) (inBullet s) (inOrdered s) (inBlockquote s)
    b (inMathBlock s) language buffer (mathBuffer s).

Definition setMath (b : bool) (buffer : list jsstr) (s : state) : state :=
  mkState (output s) (inBullet s) (inOrdered s) (inBlockquote s)
    (inCode s) b (codeLanguage s) (codeBuffer s) buffer.

(** ** Patterns of the source

    Each pattern is preceded by the regular expression it embeds; there a
    space separates a star from a closing parenthesis that follows it. *)

(* "/\r\n?/g" *)
Definition reNewline : pattern := [lit CR; Rep (N.eqb LF) 0 (Some 1%nat) false].

(* "/\!\[([^\]]* )]\(([^)]+)\)/g" *)
Definition reImage : pattern :=
  [lit (ch "!"); lit (ch "["); Rep (notc (ch "]")) 0 None true; lit (ch "]");
   lit (ch "("); Rep (notc (ch ")")) 1 None true; lit (ch ")")].
(* '<img alt="$1" src="$2" />' *)
Definition tImage : template :=
  [TLit (str "<img alt=" ++ quot); TGrp 1; TLit (quot ++ str " src=" ++ quot);
   TGrp 2; TLit (quot ++ str " />")].

(* "/\[([^\]]+)\]\(([^)]+)\)/g" *)
Definition reLink : pattern :=
  [lit (ch "["); Rep (notc (ch "]")) 1 None true; lit (ch "]");
   lit (ch "("); Rep (notc (ch ")")) 1 None true; lit (ch ")")].
(* '<a href="$2" target="_blank" rel="noreferrer">$1</a>' *)
Definition tLink : template :=
  [TLit (str "<a href=" ++ quot); TGrp 2;
   TLit (quot ++ str " target=" ++ quot ++ str "_blank" ++ quot
         ++ str " rel=" ++ quot ++ str "noreferrer" ++ quot ++ str ">");
   TGrp 1; TLit (str "</a>")].

(* "/\*\*([^\*]+)\*\*/g" *)
Definition reBoldStar : pattern :=
  [lit (ch "*"); lit (ch "*"); Rep (notc (ch "*")) 1 None true;
   lit (ch "*"); lit (ch "*")].
(* "/__([^_]+)__/g" *)
Definition reBoldUnder : pattern :=
  [lit (ch "_"); lit (ch "_"); Rep (notc (ch "_")) 1 None true;
   lit (ch "_"); lit (ch "_")].
Definition tStrong : template :=
  [TLit (str "<strong>"); TGrp 1; TLit (str "</strong>")].

(* "/(?<!\* )\*([^\*]+)\*/g" *)
Definition reEmStar : pattern :=
  [NotBehind (ch "*"); lit (ch "*"); Rep (notc (ch "*")) 1 None true;
   lit (ch "*")].
(* "/_([^_]+)_/g" *)
Definition reEmUnder : pattern :=
  [lit (ch "_"); Rep (notc (ch "_")) 1 None true; lit (ch "_")].
Definition tEm : template := [TLit (str "<em>"); TGrp 1; TLit (str "</em>")].

(* "/~~([^~]+)~~/g" *)
Definition reDel : pattern :=
  [lit (ch "~"); lit (ch "~"); Rep (notc (ch "~")) 1 None true;
   lit (ch "~"); lit (ch "~")].
Definition tDel : template := [TLit (str "<del>"); TGrp 1; TLit (str "</del>")].

(* "/`([^`]+)`/g" *)
Definition reCode : pattern :=
  [lit BACKTICK; Rep (notc BACKTICK) 1 None true; lit BACKTICK].
Definition tCode : template :=
  [TLit (str "<code>"); TGrp 1; TLit (str "</code>")].

(* "/\$\s*$/" *)
Definition reDollarEnd : pattern :=
  [lit DOLLAR; Rep isWhiteSpace 0 None false; Eos].
(* "/\$\$\s*$/" *)
Definition reDollarDollarEnd : pattern :=
  [lit DOLLAR; lit DOLLAR; Rep isWhiteSpace 0 None false; Eos].

(* "/^(#{1,6})\s+(.* )$/" *)
Definition reHeading : pattern :=
  [Rep (N.eqb (ch "#")) 1 (Some 6%nat) true; Rep isWhiteSpace 1 None false;
   Rep (fun c => negb (isLineTerminator c)) 0 None true; Eos].

(* "/^(-{3,}|_{3,}|\*{3,})$/": the three alternatives, tried in order *)
Definition reRuleOf (c : codeunit) : pattern := [Rep (N.eqb c) 3 None true; Eos].
Definition testRule (s : jsstr) : bool :=
  testStart (reRuleOf (ch "-")) s || testStart (reRuleOf (ch "_")) s
  || testStart (reRuleOf (ch "*")) s.

(* "/^>\s?/" *)
Definition reQuote : pattern :=
  [lit (ch ">"); Rep isWhiteSpace 0 (Some 1%nat) false].
(* "/^\d+\.\s+/" *)
Definition reOrdered : pattern :=
  [Rep isDigit 1 None false; lit (ch "."); Rep isWhiteSpace 1 None false].
(* "/^[-*+]\s+/" *)
Definition reBullet : pattern :=
  [One (fun c => (c =? ch "-") || (c =? ch "*") || (c =? ch "+"));
   Rep isWhiteSpace 1 None false].

(** [s.replace(/^p/, '')]: what is left after the match at the start. *)
Definition stripStart (p : pattern) (s : jsstr) : jsstr :=
  match matchStart p s with
  | Some (_, rest) => rest
  | None => s
  end.

Definition FENCE : jsstr := [BACKTICK; BACKTICK; BACKTICK].
Definition DD : jsstr := [DOLLAR; DOLLAR].


(** ** The renderer, over an arbitrary KaTeX *)

Section Renderer.

(** [katex.renderToString(expression, { displayMode, ... })]: the HTML, or
    the exception it throws. *)
Variable katex : jsstr -> bool -> completion jsstr.

Definition mathError (trimmed : jsstr) : jsstr :=
  str "<span class=" ++ quot ++ str "math-error" ++ quot ++ str ">"
  ++ escapeHtml trimmed ++ str "</span>".

Definition renderMath (expression : jsstr) (displayMode : bool)
  : completion jsstr :=
  let trimmed := trim expression in
  if isEmpty trimmed then Normal []
  else tryCatch (katex trimmed displayMode)
         (fun error => Normal (mathError trimmed)).

(** The loop of replaceInlineMath, from the current index on: [text] is
    what is left to scan. *)
Fixpoint replaceInlineMathFrom (text result buffer : jsstr) (inMath : bool)
  {struct text} : jsstr :=
  match text with
  | [] => if inMath then result ++ [DOLLAR] ++ buffer else result
  | char :: rest =>
      let otherwise :=
        if char =? DOLLAR then
          if inMath then
            if isEmpty (trim buffer)
            then replaceInlineMathFrom rest
                   (result ++ [DOLLAR] ++ buffer ++ [DOLLAR]) [] false
            else replaceInlineMathFrom rest
                   (result ++ returned (renderMath buffer false)) [] false
          else replaceInlineMathFrom rest result [] true
        else if inMath
             then replaceInlineMathFrom rest result (buffer ++ [char]) inMath
             else replaceInlineMathFrom rest (result ++ [char]) buffer inMath
      in
      match rest with
      | nextChar :: rest' =>
          if (char =? BACKSLASH) && (nextChar =? DOLLAR)
          then replaceInlineMathFrom rest' (result ++ [DOLLAR]) buffer inMath
          else otherwise
      | [] => otherwise
      end
  end.

Definition replaceInlineMath (text : jsstr) : jsstr :=
  replaceInlineMathFrom text [] [] false.

(** The chain of replacements of parseInline, on the text after the math
    pass. *)
Definition inlineMarkup (withMath : jsstr) : jsstr :=
  replaceAll reCode tCode
    (replaceAll reDel tDel
       (replaceAll reEmUnder tEm
          (replaceAll reEmStar tEm
             (replaceAll reBoldUnder tStrong
                (replaceAll reBoldStar tStrong
                   (replaceAll reLink tLink
                      (replaceAll reImage tImage withMath))))))).

Definition parseInline (value : jsstr) : jsstr :=
  let escaped := escapeHtml value in
  let withMath := replaceInlineMath escaped in
  inlineMarkup withMath.

Definition closeLists (s : state) : state :=
  let s1 := if inBullet s then setInBullet false (push (str "</ul>") s) else s in
  if inOrdered s1 then setInOrdered false (push (str "</ol>") s1) else s1.

Definition closeBlockquote (s : state) : state :=
  if inBlockquote s
  then setInBlockquote false (push (str "</blockquote>") s)
  else s.

Definition codeBlockHtml (language : jsstr) (buffer : list jsstr) : jsstr :=
  let codeHtml := escapeHtml (join nl buffer) in
  let className :=
    if isEmpty language then []
    else str " class=" ++ quot ++ str "language-" ++ language ++ quot in
  str "<pre><code" ++ className ++ str ">" ++ codeHtml ++ str "</code></pre>".

Definition flushCodeBlock (s : state) : state :=
  if negb (inCode s) then s
  else setCode false [] []
         (push (codeBlockHtml (codeLanguage s) (codeBuffer s)) s).

Definition flushMathBlock (s : state) : state :=
  if negb (inMathBlock s) then s
  else
    let expression := trim (join nl (mathBuffer s)) in
    let s1 := if isEmpty expression then s
              else push (returned (renderMath expression true)) s in
    setMath false [] s1.

Definition headingHtml (level : nat) (text : jsstr) : jsstr :=
  str "<h" ++ natToString level ++ str ">" ++ parseInline text
  ++ str "</h" ++ natToString level ++ str ">".

Definition paragraphHtml (text : jsstr) : jsstr :=
  str "<p>" ++ parseInline text ++ str "</p>".

Definition itemHtml (text : jsstr) : jsstr :=
  str "<li>" ++ parseInline text ++ str "</li>".

(** The body of [lines.forEach((line) => ...)]. *)
Definition processLine (s : state) (line : jsstr) : state :=
  let trimmed := trim line in
  if startsWith FENCE trimmed then
    if inCode s then flushCodeBlock s
    else
      let s1 := flushMathBlock (closeBlockquote (closeLists s)) in
      setCode true (trim (sliceFrom 3 trimmed)) (codeBuffer s1) s1
  else if inCode s then
    setCode (inCode s) (codeLanguage s) (codeBuffer s ++ [line]) s
  else if startsWith DD trimmed then
    let s1 := flushCodeBlock (closeBlockquote (closeLists s)) in
    if inMathBlock s1 then
      let withoutStart :=
        trim (replaceFirst reDollarEnd [TLit []] (sliceFrom 2 trimmed)) in
      let s2 := if isEmpty withoutStart then s1
                else setMath (inMathBlock s1) (mathBuffer s1 ++ [withoutStart]) s1 in
      if jsstr_eqb trimmed DD || endsWith DD trimmed
      then flushMathBlock s2
      else s2
    else if jsstr_eqb trimmed DD then setMath true [] s1
    else if endsWith DD trimmed then
      let expression := trim (sliceBetween 2 2 trimmed) in
      if isEmpty expression then s1
      else push (returned (renderMath expression true)) s1
    else
      let initial := trim (sliceFrom 2 trimmed) in
      setMath true (if isEmpty initial then [] else [initial]) s1
  else if inMathBlock s then
    if endsWith DD trimmed then
      let withoutEnd := trimEnd (replaceFirst reDollarDollarEnd [TLit []] line) in
      let s1 := if isEmpty (trim withoutEnd) then s
                else setMath (inMathBlock s) (mathBuffer s ++ [trimEnd withoutEnd]) s in
      flushMathBlock s1
    else setMath (inMathBlock s) (mathBuffer s ++ [line]) s
  else if isEmpty trimmed then
    flushMathBlock (flushCodeBlock (closeBlockquote (closeLists s)))
  else
    match matchStart reHeading trimmed with
    | Some (headingMatch, _) =>
        let level := length (nth 0 headingMatch []) in
        push (headingHtml level (nth 1 headingMatch []))
          (closeBlockquote (closeLists s))
    | None =>
        if testRule trimmed then
          push (str "<hr />") (closeBlockquote (closeLists s))
        else if testStart reQuote trimmed then
          let s1 := closeLists s in
          let quoteContent := stripStart reQuote trimmed in
          let s2 := if negb (inBlockquote s1)
                    then setInBlockquote true (push (str "<blockquote>") s1)
                    else s1 in
          push (paragraphHtml quoteContent) s2
        else if testStart reOrdered trimmed then
          let s1 := if negb (inOrdered s)
                    then setInOrdered true
                           (push (str "<ol>") (closeBlockquote (closeLists s)))
                    else s in
          let content := stripStart reOrdered trimmed in
          push (itemHtml content) s1
        else if testStart reBullet trimmed then
          let s1 := if negb (inBullet s)
                    then setInBullet true
                           (push (str "<ul>") (closeBlockquote (closeLists s)))
                    else s in
          let content := stripStart reBullet trimmed in
          push (itemHtml content) s1
        else
          push (paragraphHtml trimmed) (closeBlockquote (closeLists s))
    end.

(** The four calls after the loop. *)
Definition finish (s : state) : state :=
  closeBlockquote (closeLists (flushMathBlock (flushCodeBlock s))).

Definition scanLines (lines : list jsstr) : state :=
  fold_left processLine lines initialState.

Definition convertLines (lines : list jsstr) : jsstr :=
  join nl (output (finish (scanLines lines))).

Definition convertMarkdown (raw : jsstr) : jsstr :=
  let lines := splitLines (replaceAll reNewline [TLit nl] raw) in
  convertLines lines.

End Renderer.

(** [String.prototype.includes]. *)
Fixpoint includes (needle s : jsstr) : bool :=
  startsWith needle s ||
  match s with
  | [] => false
  | _ :: s' => includes needle s'
  end.

(** Number of (possibly overlapping) occurrences of [needle] in [s]. *)
Fixpoint occurrences (needle s : jsstr) : nat :=
  ((if startsWith needle s then 1 else 0) +
   match s with
   | [] => 0
   | _ :: s' => occurrences needle s'
   end)%nat.

(** A line whose trimmed text starts with three backticks. *)
Definition isFenceLine (line : jsstr) : bool := startsWith FENCE (trim line).

(** Plain text: code units with no meaning for the inline pass or for
    line splitting, on a line that, trimmed, is not empty and does not
    begin like a heading, a rule, a list item or a quote. *)
Definition isInlineSpecial (c : codeunit) : bool :=
  isHtmlSpecial c || (c =? DOLLAR) || (c =? ch "[") || (c =? ch "*")
  || (c =? ch "_") || (c =? ch "~") || (c =? BACKTICK).

Definition isPlainUnit (c : codeunit) : bool :=
  negb (isInlineSpecial c) && negb (c =? LF) && negb (c =? CR).

Definition startsBlock (c : codeunit) : bool :=
  (c =? ch "#") || (c =? ch "-") || (c =? ch "+") || isDigit c.

Definition isPlainLine (line : jsstr) : bool :=
  forallb isPlainUnit line
  && match trim line with
     | [] => false
     | c :: _ => negb (startsBlock c)
     end.


(** ** List tags in the output

    The four list tags, the number of fragments of an output sequence that
    are a given tag, and a scan that detects the start of a list tag: it
    fails on [<u], [<o], [</u] and [</o], and ends in [Text] when the text
    does not end in [<] or [</]. *)
Definition UL : jsstr := str "<ul>".
Definition UL_END : jsstr := str "</ul>".
Definition OL : jsstr := str "<ol>".
Definition OL_END : jsstr := str "</ol>".

Definition isListTag (x : jsstr) : bool :=
  jsstr_eqb x UL || jsstr_eqb x UL_END || jsstr_eqb x OL || jsstr_eqb x OL_END.

Fixpoint countFragments (tag : jsstr) (fragments : list jsstr) : nat :=
  match fragments with
  | [] => 0
  | x :: rest =>
      ((if jsstr_eqb x tag then 1 else 0) + countFragments tag rest)%nat
  end.

Inductive tagState : Type := Text | Lt | LtSlash.

Definition tagStep (q : tagState) (c : codeunit) : option tagState :=
  if c =? ch "<" then Some Lt
  else match q with
       | Text => Some Text
       | Lt =>
           if (c =? ch "u") || (c =? ch "o") then None
           else if c =? ch "/" then Some LtSlash else Some Text
       | LtSlash =>
           if (c =? ch "u") || (c =? ch "o") then None else Some Text
       end.

Fixpoint tagScan (q : tagState) (s : jsstr) : option tagState :=
  match s with
  | [] => Some q
  | c :: s' =>
      match tagStep q c with
      | Some q' => tagScan q' s'
      | None => None
      end
  end.

(** No [<u], [<o], [</u], [</o] in [s]. *)
Definition listTagFree (s : jsstr) : bool :=
  match tagScan Text s with Some _ => true | None => false end.

(** The same, and [s] does not end in [<] or [</]. *)
Definition listTagFreeClosed (s : jsstr) : bool :=
  match tagScan Text s with Some Text => true | _ => false end.

(** The info string of a fence line holds no start of a list tag. *)
Definition fenceInfoOk (line : jsstr) : bool :=
  negb (isFenceLine line) || listTagFree (trim (sliceFrom 3 (trim line))).

(** The lines and the output fragments of a document:
    [convertMarkdown raw] is the fragments joined by newlines. *)
Definition documentLines (raw : jsstr) : list jsstr :=
  splitLines (replaceAll reNewline [TLit nl] raw).

Definition documentFragments (katex : jsstr -> bool -> completion jsstr)
  (raw : jsstr) : list jsstr :=
  output (finish katex (scanLines katex (documentLines raw))).

(** ** Notions used by the proofs about list tags *)

(** Text that brings the scan back to [Text] from every state. *)
Definition resetting (l : jsstr) : Prop := forall q, tagScan q l = Some Text.

(** [x] is a piece of [s]. *)
Definition isInfix (x s : jsstr) : Prop := exists a b, s = a ++ x ++ b.

(** Every piece of [s] survives the scan from [Text]. *)
Definition infixSafe (s : jsstr) : Prop :=
  forall x, isInfix x s -> exists q, tagScan Text x = Some q.

(** Captures that survive the scan from [Text]. *)
Definition piecesSafe (caps : list jsstr) : Prop :=
  Forall (fun x => exists q, tagScan Text x = Some q) caps.

(** Replacement strings of the source: literal, group, literal, ...,
    literal, every literal resetting the tag scan. *)
Inductive groupsThenLiterals : template -> Prop :=
| gtl_nil : groupsThenLiterals []
| gtl_cons (i : nat) (l : jsstr) (t : template) :
    resetting l -> groupsThenLiterals t ->
    groupsThenLiterals (TGrp i :: TLit l :: t).

Definition templateResets (t : template) : Prop :=
  exists l t', t = TLit l :: t' /\ resetting l /\ groupsThenLiterals t'.

(** One, for an open list. *)
Definition openCount (b : bool) : nat := if b then 1%nat else 0%nat.

(** Occurrences of a tag, summed over the fragments. *)
Fixpoint totalOccurrences (tag : jsstr) (fragments : list jsstr) : nat :=
  match fragments with
  | [] => 0
  | x :: rest => (occurrences tag x + totalOccurrences tag rest)%nat
  end.

Definition isListTagText (tag : jsstr) : Prop :=
  tag = UL \/ tag = UL_END \/ tag = OL \/ tag = OL_END.

(** The invariant of the scan.  [F]: what is known of the fragments that
    are not list tags; [G]: what is known of the language of the open code
    block. *)
Definition fragmentOk (F : jsstr -> Prop) (x : jsstr) : Prop :=
  isListTag x = true \/ F x.

Definition listsBalanced (F G : jsstr -> Prop) (s : state) : Prop :=
  countFragments UL (output s)
  = (countFragments UL_END (output s) + openCount (inBullet s))%nat
  /\ countFragments OL (output s)
     = (countFragments OL_END (output s) + openCount (inOrdered s))%nat
  /\ Forall (fragmentOk F) (output s)
  /\ G (codeLanguage s).

(** * Further definitions *)


(** What [raw.replace(/\r\n?/g, '\n')] computes
    ([replaceAll_newlines] below). *)
Fixpoint normalizeNewlines (s : jsstr) : jsstr :=
  match s with
  | [] => []
  | c :: s' =>
      if CR =? c then
        LF :: match s' with
              | d :: s'' => if LF =? d then normalizeNewlines s''
                            else normalizeNewlines s'
              | [] => []
              end
      else c :: normalizeNewlines s'
  end.

(** Lines: texts without a line break. *)
Definition noLineBreak (line : jsstr) : Prop :=
  forall x, In x line -> x <> CR /\ x <> LF.

(** The number of open blocks, and what the scanner keeps true of its
    state: at most one block is open, and the buffers of a closed block
    are empty. *)
Definition openBlocks (s : state) : nat :=
  (openCount (inBullet s) + openCount (inOrdered s)
   + openCount (inBlockquote s) + openCount (inCode s)
   + openCount (inMathBlock s))%nat.

Definition scannerConsistent (s : state) : Prop :=
  (openBlocks s <= 1)%nat
  /\ (inCode s = false -> codeLanguage s = [] /\ codeBuffer s = [])
  /\ (inMathBlock s = false -> mathBuffer s = []).

(** Pushing several fragments, and a scanner with nothing open. *)
Definition pushAll (fragments : list jsstr) (s : state) : state :=
  fold_left (fun st x => push x st) fragments s.

Definition nothingOpen (s : state) : Prop :=
  inBullet s = false /\ inOrdered s = false /\ inBlockquote s = false
  /\ inCode s = false /\ inMathBlock s = false.

(** The characters the inline pass gives a meaning to. *)
Definition isMarker (c : codeunit) : bool :=
  (c =? DOLLAR) || (c =? ch "[") || (c =? ch "*") || (c =? ch "_")
  || (c =? ch "~") || (c =? BACKTICK).

(** Text in which the inline pass finds nothing to do. *)
Definition isPlainText (s : jsstr) : bool :=
  forallb (fun c => negb (isInlineSpecial c)) s.

(** ** Helpers of the editor window (App.jsx) *)

(** A parameter that may hold a string, [null] or [undefined]. *)
Definition truthy (value : option jsstr) : bool :=
  match value with
  | Some (_ :: _) => true
  | _ => false
  end.

Definition SLASH : codeunit := ch "/".

(* "/\\/g" *)
Definition reBackslash : pattern := [lit BACKSLASH].

(** What the replacement does to one code unit. *)
Definition toSlash (c : codeunit) : codeunit :=
  if c =? BACKSLASH then SLASH else c.

Definition isSeparator (c : codeunit) : bool := (c =? SLASH) || (c =? BACKSLASH).

Definition normalizePath (value : option jsstr) : jsstr :=
  match value with
  | Some s => if truthy value then replaceAll reBackslash [TLit [SLASH]] s else []
  | None => []
  end.

(** [String.prototype.lastIndexOf] for a one-unit search string: the last
    index of [c], or -1. *)
Fixpoint lastIndexOfFrom (c : codeunit) (s : jsstr) (i found : Z) : Z :=
  match s with
  | [] => found
  | x :: s' => lastIndexOfFrom c s' (i + 1)%Z (if x =? c then i else found)
  end.

Definition lastIndexOf (c : codeunit) (s : jsstr) : Z :=
  lastIndexOfFrom c s 0%Z (-1)%Z.

Definition dirname (value : option jsstr) : jsstr :=
  let normalized := normalizePath value in
  let index := lastIndexOf SLASH normalized in
  if (index <=? 0)%Z then
    (if isEmpty normalized then [] else normalized)
  else firstn (Z.to_nat index) normalized.

Definition UNTITLED_DOCUMENT_KEY : jsstr := str "__untitled__".

Definition getDocumentKey (filePath : option jsstr) : jsstr :=
  let normalized := normalizePath filePath in
  if isEmpty normalized then UNTITLED_DOCUMENT_KEY else normalized.

Definition formatTagLabel (tag : jsstr) : jsstr :=
  if negb (startsWith (str "#") tag) then str "#" ++ tag else tag.

(** [String.prototype.split] with a regular expression: the scan looks for
    a separator at each index; [piece] holds the code units since the end
    of the last separator, [skip] counts the units of a matched separator
    still to pass.  An empty match right after a separator moves on by one
    unit; captures are spliced in after each piece. *)
Fixpoint splitFrom (p : pattern) (prev : option codeunit) (skip : nat)
  (piece s : jsstr) {struct s} : list jsstr :=
  match s with
  | [] => [piece]
  | c :: s' =>
      match skip with
      | S k => splitFrom p (Some c) k [] s'
      | O =>
          match pmatch p prev s with
          | Some (caps, rest) =>
              match (length s - length rest)%nat with
              | O => if isEmpty piece
                     then splitFrom p (Some c) 0 [c] s'
                     else piece :: caps ++ splitFrom p (Some c) 0 [c] s'
              | S k => piece :: caps ++ splitFrom p (Some c) k [] s'
              end
          | None => splitFrom p (Some c) 0 (piece ++ [c]) s'
          end
      end
  end.

Definition splitRe (p : pattern) (s : jsstr) : list jsstr :=
  match s with
  | [] => match pmatch p None [] with Some _ => [] | None => [[]] end
  | _ :: _ => splitFrom p None 0 [] s
  end.

(* "/\s+/" *)
Definition reSpaces : pattern := [Rep isWhiteSpace 1 None false].

(** The [characters] and [words] fields of [computeStats]; the [reading]
    field, a floating-point division formatted by [toFixed], is not
    modelled. *)
Definition computeStats_characters (value : jsstr) : nat := length value.

Definition computeStats_words (value : jsstr) : nat :=
  if isEmpty (trim value) then 0%nat
  else length (splitRe reSpaces (trim value)).

(** The number of places where a word starts: a code unit that is not
    white space, at the start of the text or after white space. *)
Fixpoint wordStarts (inWord : bool) (s : jsstr) : nat :=
  match s with
  | [] => 0%nat
  | c :: s' =>
      if isWhiteSpace c then wordStarts false s'
      else ((if inWord then 0 else 1) + wordStarts true s')%nat
  end.

(** The number of runs of white space. *)
Fixpoint spaceRuns (inRun : bool) (s : jsstr) : nat :=
  match s with
  | [] => 0%nat
  | c :: s' =>
      if isWhiteSpace c then ((if inRun then 0 else 1) + spaceRuns true s')%nat
      else spaceRuns false s'
  end.

(** The lists are closed and the output continues [before]. *)
Definition listsClosedAfter (before : list jsstr) (s : state) : Prop :=
  (exists rest, output s = before ++ rest)
  /\ inBullet s = false /\ inOrdered s = false.

(** A single line of text for the paragraph branch: it holds no marker of
    the inline pass and no line break, it is not blank, and the heading,
    rule, quote and list-item tests of the scanner fail on it. *)
Definition isParagraphLine (line : jsstr) : bool :=
  forallb (fun c => negb (isMarker c) && negb (c =? LF) && negb (c =? CR)) line
  && negb (isEmpty (trim line))
  && match matchStart reHeading (trim line) with
     | Some _ => false
     | None => true
     end
  && negb (testRule (trim line))
  && negb (testStart reQuote (trim line))
  && negb (testStart reOrdered (trim line))
  && negb (testStart reBullet (trim line)).

(** * Properties *)

(** ** The embedding on sample documents *)

Example render_blocks (katex : jsstr -> bool -> completion jsstr) :
  convertLines katex
    [str "> q"; str "> r"; str "1. a"; str "2. b"; str "* c"; str "---";
     str "text"]
  = join nl
      [str "<blockquote>"; str "<p>q</p>"; str "<p>r</p>"; str "</blockquote>";
       str "<ol>"; str "<li>a</li>"; str "<li>b</li>"; str "</ol>";
       str "<ul>"; str "<li>c</li>"; str "</ul>"; str "<hr />";
       str "<p>text</p>"].
Proof. vm_compute. reflexivity. Qed.

Example render_line_endings (katex : jsstr -> bool -> completion jsstr) :
  convertMarkdown katex (str "a" ++ cr ++ nl ++ str "b" ++ cr ++ str "c")
  = str "<p>a</p>" ++ nl ++ str "<p>b</p>" ++ nl ++ str "<p>c</p>".
Proof. vm_compute. reflexivity. Qed.

Example render_inline_markup (katex : jsstr -> bool -> completion jsstr) :
  parseInline katex (str "**b** *i* __B__ _I_ ~~d~~ `c` ![x](y) [t](u)")
  = str "<strong>b</strong> <em>i</em> <strong>B</strong> <em>I</em> "
    ++ str "<del>d</del> <code>c</code> <img alt=" ++ quot ++ str "x" ++ quot
    ++ str " src=" ++ quot ++ str "y" ++ quot ++ str " /> <a href=" ++ quot
    ++ str "u" ++ quot ++ str " target=" ++ quot ++ str "_blank" ++ quot
    ++ str " rel=" ++ quot ++ str "noreferrer" ++ quot ++ str ">t</a>".
Proof. vm_compute. reflexivity. Qed.

Example render_inline_math :
  convertMarkdown (fun e d => Normal (str "<m>" ++ e ++ str "</m>")) (str "$a+b$")
  = str "<p><m>a+b</m></p>"
  /\ convertMarkdown (fun e d => Throw (str "ParseError")) (str "$a+b$")
     = str "<p><span class=" ++ quot ++ str "math-error" ++ quot
       ++ str ">a+b</span></p>"
  /\ convertMarkdown (fun e d => Normal (str "<m>" ++ e ++ str "</m>"))
       (str "\$5 and $ $ ok")
     = str "<p>$5 and $ $ ok</p>".
Proof. repeat split; vm_compute; reflexivity. Qed.

Example render_display_math :
  convertMarkdown
    (fun e d => Normal ((if d then str "<M>" else str "<m>") ++ e ++ str "</>"))
    (str "$$x^2$$")
  = str "<M>x^2</>".
Proof. vm_compute. reflexivity. Qed.

(** ** The scanner inside a fenced code block *)

Section CodeBlocks.

Variable katex : jsstr -> bool -> completion jsstr.

Lemma processLine_in_code (s : state) (line : jsstr) :
  inCode s = true -> isFenceLine line = false ->
  processLine katex s line
  = setCode true (codeLanguage s) (codeBuffer s ++ [line]) s.
Proof.
  intros Hin Hfence. unfold processLine, isFenceLine in *.
  rewrite Hfence, Hin. reflexivity.
Qed.

Lemma processLine_closing_fence (s : state) (line : jsstr) :
  inCode s = true -> isFenceLine line = true ->
  processLine katex s line
  = setCode false [] []
      (push (codeBlockHtml (codeLanguage s) (codeBuffer s)) s).
Proof.
  intros Hin Hfence. unfold processLine, isFenceLine in *.
  rewrite Hfence, Hin. unfold flushCodeBlock. rewrite Hin. reflexivity.
Qed.

Lemma scan_code_lines (body : list jsstr) :
  forall s,
    inCode s = true ->
    Forall (fun l => isFenceLine l = false) body ->
    fold_left (processLine katex) body s
    = setCode true (codeLanguage s) (codeBuffer s ++ body) s.
Proof.
  induction body as [|l body IH]; intros s Hin Hall.
  - simpl. rewrite app_nil_r. destruct s; simpl in *; subst; reflexivity.
  - inversion Hall as [|? ? Hl Hbody]; subst. simpl.
    rewrite processLine_in_code by assumption.
    rewrite IH by (auto; destruct s; reflexivity).
    destruct s; simpl. rewrite <- app_assoc. reflexivity.
Qed.

Lemma processLine_opening_fence (line : jsstr) :
  isFenceLine line = true ->
  processLine katex initialState line
  = setCode true (trim (sliceFrom 3 (trim line))) [] initialState.
Proof.
  intros Hfence. unfold processLine, isFenceLine in *.
  rewrite Hfence. reflexivity.
Qed.

Lemma fold_left_snoc {A B : Type} (f : A -> B -> A) (l : list B) (x : B) (a : A) :
  fold_left f (l ++ [x]) a = f (fold_left f l a) x.
Proof. rewrite fold_left_app. reflexivity. Qed.

Lemma scan_open_code_block (opening : jsstr) (body : list jsstr) :
  isFenceLine opening = true ->
  Forall (fun l => isFenceLine l = false) body ->
  scanLines katex (opening :: body)
  = setCode true (trim (sliceFrom 3 (trim opening))) body initialState.
Proof.
  intros Hopen Hbody. unfold scanLines. simpl fold_left.
  rewrite processLine_opening_fence by assumption.
  rewrite scan_code_lines by (auto; reflexivity). reflexivity.
Qed.

Lemma convertLines_closed_code_block (opening closing : jsstr) (body : list jsstr) :
  isFenceLine opening = true ->
  isFenceLine closing = true ->
  Forall (fun l => isFenceLine l = false) body ->
  convertLines katex (opening :: body ++ [closing])
  = codeBlockHtml (trim (sliceFrom 3 (trim opening))) body.
Proof.
  intros Hopen Hclose Hbody. unfold convertLines, scanLines.
  change (opening :: body ++ [closing]) with ((opening :: body) ++ [closing]).
  rewrite fold_left_snoc.
  fold (scanLines katex (opening :: body)).
  rewrite scan_open_code_block by assumption.
  rewrite processLine_closing_fence by (auto; reflexivity).
  reflexivity.
Qed.

Lemma convertLines_unterminated_code_block (opening : jsstr) (body : list jsstr) :
  isFenceLine opening = true ->
  Forall (fun l => isFenceLine l = false) body ->
  convertLines katex (opening :: body)
  = codeBlockHtml (trim (sliceFrom 3 (trim opening))) body.
Proof.
  intros Hopen Hbody. unfold convertLines.
  rewrite scan_open_code_block by assumption. reflexivity.
Qed.

End CodeBlocks.

(** ** End of input *)

Lemma output_finish (katex : jsstr -> bool -> completion jsstr) (s : state) :
  output (finish katex s)
  = output s
    ++ (if inCode s then [codeBlockHtml (codeLanguage s) (codeBuffer s)] else [])
    ++ (if inMathBlock s
        then if isEmpty (trim (join nl (mathBuffer s))) then []
             else [returned (renderMath katex (trim (join nl (mathBuffer s))) true)]
        else [])
    ++ (if inBullet s then [str "</ul>"] else [])
    ++ (if inOrdered s then [str "</ol>"] else [])
    ++ (if inBlockquote s then [str "</blockquote>"] else []).
Proof.
  destruct s as [out b o q c m lang cbuf mbuf].
  destruct b, o, q, c, m;
    cbv [finish flushCodeBlock flushMathBlock closeLists closeBlockquote
         push setCode setMath setInBullet setInOrdered setInBlockquote
         inCode inMathBlock inBullet inOrdered inBlockquote output codeLanguage
         codeBuffer mathBuffer negb];
    try destruct (isEmpty (trim (join nl mbuf)));
    cbv [inCode inMathBlock inBullet inOrdered inBlockquote output codeLanguage
         codeBuffer mathBuffer negb];
    rewrite <- ?app_assoc; rewrite ?app_nil_r; reflexivity.
Qed.

(** C4: after the last line the open code block is flushed, then the open
    math block, then the open list is closed, then the open blockquote, in
    that order; a fence that is never closed still renders its lines:
    the document [```js / let x = 1;] gives the [language-js] block. *)
Theorem end_of_input_flushes_in_order (katex : jsstr -> bool -> completion jsstr) :
  (forall raw,
      convertMarkdown katex raw
      = join nl (output (closeBlockquote (closeLists (flushMathBlock katex
                  (flushCodeBlock
                     (scanLines katex
                        (splitLines (replaceAll reNewline [TLit nl] raw)))))))))
  /\ (forall s,
         output (closeBlockquote (closeLists (flushMathBlock katex (flushCodeBlock s))))
         = output s
           ++ (if inCode s
               then [codeBlockHtml (codeLanguage s) (codeBuffer s)] else [])
           ++ (if inMathBlock s
               then if isEmpty (trim (join nl (mathBuffer s))) then []
                    else [returned (renderMath katex
                                      (trim (join nl (mathBuffer s))) true)]
               else [])
           ++ (if inBullet s then [str "</ul>"] else [])
           ++ (if inOrdered s then [str "</ol>"] else [])
           ++ (if inBlockquote s then [str "</blockquote>"] else []))
  /\ (forall opening body,
         isFenceLine opening = true ->
         Forall (fun l => isFenceLine l = false) body ->
         convertLines katex (opening :: body)
         = codeBlockHtml (trim (sliceFrom 3 (trim opening))) body)
  /\ convertMarkdown katex (str "```js" ++ nl ++ str "let x = 1;")
     = str "<pre><code class=" ++ quot ++ str "language-js" ++ quot
       ++ str ">let x = 1;</code></pre>".
Proof.
  split; [|split; [|split]].
  - intros raw. reflexivity.
  - intros s. apply (output_finish katex s).
  - intros opening body. apply convertLines_unterminated_code_block.
  - vm_compute. reflexivity.
Qed.

Lemma end_of_input_flushes_in_order_witness :
  convertLines (fun _ _ => Throw []) [str "  ```py"; str "x < 1"; str ""; str "# y"]
  = codeBlockHtml (str "py") [str "x < 1"; str ""; str "# y"].
Proof.
  apply (proj1 (proj2 (proj2 (end_of_input_flushes_in_order (fun _ _ => Throw []))))
           (str "  ```py") [str "x < 1"; str ""; str "# y"]);
    [reflexivity | repeat constructor].
Defined.

(** ** The empty document *)

(** C9: the empty document renders as the empty string. *)
Theorem convertMarkdown_empty (katex : jsstr -> bool -> completion jsstr) :
  convertMarkdown katex [] = [].
Proof. reflexivity. Qed.

(** ** The math rendering bridge *)

Lemma renderMath_returns (katex : jsstr -> bool -> completion jsstr)
  (expression : jsstr) (displayMode : bool) :
  renderMath katex expression displayMode
  = Normal (returned (renderMath katex expression displayMode)).
Proof.
  unfold renderMath. destruct (isEmpty (trim expression)); [reflexivity|].
  destruct (katex (trim expression) displayMode); reflexivity.
Qed.

(** C1, as the code has it: [renderMath] returns a string for every
    expression and flag and never throws; when KaTeX throws, the string is
    the [math-error] span around the HTML-escaped expression with its
    surrounding white space trimmed (the expression as passed to KaTeX);
    when KaTeX returns, the string is KaTeX's; a blank expression gives the
    empty string. *)
Theorem renderMath_degrades_to_error_marker
  (katex : jsstr -> bool -> completion jsstr)
  (expression : jsstr) (displayMode : bool) :
  (exists html, renderMath katex expression displayMode = Normal html)
  /\ (forall error,
         trim expression <> [] ->
         katex (trim expression) displayMode = Throw error ->
         renderMath katex expression displayMode
         = Normal (str "<span class=" ++ quot ++ str "math-error" ++ quot
                   ++ str ">" ++ escapeHtml (trim expression) ++ str "</span>"))
  /\ (forall html,
         trim expression <> [] ->
         katex (trim expression) displayMode = Normal html ->
         renderMath katex expression displayMode = Normal html)
  /\ (trim expression = [] ->
      renderMath katex expression displayMode = Normal []).
Proof.
  split; [|split; [|split]].
  - eexists. apply renderMath_returns.
  - intros error Hne Hthrow. unfold renderMath.
    destruct (trim expression); [congruence|].
    simpl isEmpty. cbv iota. rewrite Hthrow. reflexivity.
  - intros html Hne Hret. unfold renderMath.
    destruct (trim expression); [congruence|].
    simpl isEmpty. cbv iota. rewrite Hret. reflexivity.
  - intros He. unfold renderMath. rewrite He. reflexivity.
Qed.

Lemma renderMath_degrades_to_error_marker_witness :
  renderMath (fun _ _ => Throw (str "ParseError")) (str " a<b ") true
  = Normal (str "<span class=" ++ quot ++ str "math-error" ++ quot
            ++ str ">" ++ str "a&lt;b" ++ str "</span>")
  /\ renderMath (fun e _ => Normal (str "<span>" ++ e ++ str "</span>"))
       (str " x ") false
     = Normal (str "<span>x</span>")
  /\ renderMath (fun _ _ => Throw (str "ParseError")) (str "  ") false
     = Normal [].
Proof.
  split; [|split].
  - apply (proj1 (proj2 (renderMath_degrades_to_error_marker
                           (fun _ _ => Throw (str "ParseError"))
                           (str " a<b ") true)) (str "ParseError"));
      [vm_compute; discriminate | reflexivity].
  - apply (proj1 (proj2 (proj2 (renderMath_degrades_to_error_marker
                                  (fun e _ => Normal (str "<span>" ++ e ++ str "</span>"))
                                  (str " x ") false))) (str "<span>x</span>"));
      [vm_compute; discriminate | reflexivity].
  - apply (proj2 (proj2 (proj2 (renderMath_degrades_to_error_marker
                                  (fun _ _ => Throw (str "ParseError"))
                                  (str "  ") false)))).
    reflexivity.
Defined.

(** C1 as stated fails: the marker holds the trimmed expression, so for
    the expression [" x"] it does not contain the escaped original. *)
Lemma renderMath_marker_omits_outer_space :
  renderMath (fun _ _ => Throw (str "ParseError")) (str " x") false
  = Normal (str "<span class=" ++ quot ++ str "math-error" ++ quot
            ++ str ">x</span>")
  /\ includes (escapeHtml (str " x"))
       (str "<span class=" ++ quot ++ str "math-error" ++ quot
        ++ str ">x</span>") = false.
Proof. split; vm_compute; reflexivity. Qed.

(** ** A [$$] line inside an open math block *)

(** C6 fails on the code: inside an open math block the line [$$x$$] loses
    only one of its two closing dollars (the pattern removes [\$\s*$], not
    [\$\$\s*$]), so the expression given to the renderer is [x$]; the
    closing line [x$$], which takes the other path, loses both. *)
Theorem math_block_closing_line_keeps_a_dollar
  (katex : jsstr -> bool -> completion jsstr) :
  processLine katex (setMath true [] initialState) (str "$$x$$")
  = push (returned (renderMath katex (str "x$") true)) initialState
  /\ convertMarkdown katex (str "$$" ++ nl ++ str "$$x$$")
     = returned (renderMath katex (str "x$") true)
  /\ processLine katex (setMath true [] initialState) (str "x$$")
     = push (returned (renderMath katex (str "x") true)) initialState.
Proof. split; [|split]; vm_compute; reflexivity. Qed.

(** ** The inline replacement chain *)

(** C7 fails on the code: the anchors written for two links on one line
    hold [target="_blank"] each, and the later underscore-emphasis
    replacement matches from one [_blank] to the next. *)
Theorem link_anchor_is_rewritten_by_underscore_emphasis
  (katex : jsstr -> bool -> completion jsstr) :
  replaceAll reLink tLink (str "[a](b) [c](d)")
  = str "<a href=" ++ quot ++ str "b" ++ quot ++ str " target=" ++ quot
    ++ str "_blank" ++ quot ++ str " rel=" ++ quot ++ str "noreferrer" ++ quot
    ++ str ">a</a> <a href=" ++ quot ++ str "d" ++ quot ++ str " target=" ++ quot
    ++ str "_blank" ++ quot ++ str " rel=" ++ quot ++ str "noreferrer" ++ quot
    ++ str ">c</a>"
  /\ parseInline katex (str "[a](b) [c](d)")
     = str "<a href=" ++ quot ++ str "b" ++ quot ++ str " target=" ++ quot
       ++ str "<em>blank" ++ quot ++ str " rel=" ++ quot ++ str "noreferrer" ++ quot
       ++ str ">a</a> <a href=" ++ quot ++ str "d" ++ quot ++ str " target=" ++ quot
       ++ str "</em>blank" ++ quot ++ str " rel=" ++ quot ++ str "noreferrer" ++ quot
       ++ str ">c</a>"
  /\ includes (str "target=" ++ quot ++ str "_blank" ++ quot)
       (parseInline katex (str "[a](b) [c](d)")) = false.
Proof. split; [|split]; vm_compute; reflexivity. Qed.

(** ** The pattern matcher *)

Lemma backtrack_none {A : Type} (try : nat -> option A) (lo : nat) :
  forall k, (forall j, (lo <= j <= k)%nat -> try j = None) ->
            backtrack try lo k = None.
Proof.
  induction k as [|k IH]; intros Hall; simpl.
  - destruct (0 <? lo)%nat eqn:E; [reflexivity|].
    apply Nat.ltb_ge in E. rewrite Hall by lia. reflexivity.
  - destruct (S k <? lo)%nat eqn:E; [reflexivity|].
    apply Nat.ltb_ge in E. rewrite Hall by lia.
    apply IH. intros j Hj. apply Hall. lia.
Qed.

Lemma backtrack_first {A : Type} (try : nat -> option A) (lo k : nat) (r : A) :
  (lo <= k)%nat -> try k = Some r -> backtrack try lo k = Some r.
Proof.
  intros Hlo Htry. destruct k; simpl.
  - replace (0 <? lo)%nat with false by (symmetry; apply Nat.ltb_ge; lia).
    rewrite Htry. reflexivity.
  - replace (S k <? lo)%nat with false by (symmetry; apply Nat.ltb_ge; lia).
    rewrite Htry. reflexivity.
Qed.

Lemma backtrack_some {A : Type} (try : nat -> option A) (lo : nat) (r : A) :
  forall k, backtrack try lo k = Some r ->
            exists j, (lo <= j <= k)%nat /\ try j = Some r.
Proof.
  induction k as [|k IH]; simpl; intros H.
  - destruct (0 <? lo)%nat eqn:E; [discriminate|]. apply Nat.ltb_ge in E.
    destruct (try 0%nat) eqn:T; [|discriminate].
    exists 0%nat. split; [lia | congruence].
  - destruct (S k <? lo)%nat eqn:E; [discriminate|]. apply Nat.ltb_ge in E.
    destruct (try (S k)) eqn:T.
    + exists (S k). split; [lia | congruence].
    + destruct (IH H) as [j [Hj Hr]]. exists j. split; [lia | assumption].
Qed.

Lemma In_skipn {A : Type} (x : A) (k : nat) (l : list A) :
  In x (skipn k l) -> In x l.
Proof.
  revert l. induction k as [|k IH]; intros l H; [exact H|].
  destruct l as [|a l]; [exact H|]. right. apply IH. exact H.
Qed.

(** A pattern with an atom that no code unit of the input satisfies does
    not match. *)
Lemma pmatch_needs_unit (f : codeunit -> bool) (p : pattern) :
  In (One f) p ->
  forall prev s, (forall x, In x s -> f x = false) -> pmatch p prev s = None.
Proof.
  induction p as [|a p IH]; intros Hin prev s Hs; [contradiction|].
  destruct Hin as [Heq | Hin].
  - subst a. simpl. destruct s as [|c s]; [reflexivity|].
    rewrite (Hs c) by (left; reflexivity). reflexivity.
  - destruct a as [g | g lo hi cap | c | ]; simpl.
    + destruct s as [|c s]; [reflexivity|].
      destruct (g c); [|reflexivity].
      apply IH; [assumption|]. intros x Hx. apply Hs. right. exact Hx.
    + apply backtrack_none. intros j _.
      rewrite IH; [reflexivity | assumption |].
      intros x Hx. apply Hs. eapply In_skipn. exact Hx.
    + destruct prev as [d|]; [destruct (d =? c); [reflexivity|]|];
        apply IH; assumption.
    + destruct s; [|reflexivity]. apply IH; assumption.
Qed.

Lemma replaceAllFrom_no_match (p : pattern) (t : template) :
  forall s prev,
    (forall prev' s', (forall x, In x s' -> In x s) -> pmatch p prev' s' = None) ->
    replaceAllFrom p t prev 0 s = s.
Proof.
  induction s as [|c s IH]; intros prev Hno; simpl.
  - rewrite Hno by (intros x Hx; exact Hx). reflexivity.
  - rewrite Hno by (intros x Hx; exact Hx). f_equal.
    apply IH. intros prev' s' Hs'. apply Hno.
    intros x Hx. right. apply Hs'. exact Hx.
Qed.

Lemma replaceAll_absent_unit (f : codeunit -> bool) (p : pattern) (t : template)
  (s : jsstr) :
  In (One f) p -> (forall x, In x s -> f x = false) -> replaceAll p t s = s.
Proof.
  intros Hin Hs. apply replaceAllFrom_no_match.
  intros prev' s' Hs'. apply (pmatch_needs_unit f); [assumption|].
  intros x Hx. apply Hs. apply Hs'. exact Hx.
Qed.

Lemma replaceAllFrom_cons (p : pattern) (t : template) (prev : option codeunit)
  (c : codeunit) (s : jsstr) :
  replaceAllFrom p t prev 0 (c :: s)
  = match pmatch p prev (c :: s) with
    | Some (caps, rest) =>
        match (length (c :: s) - length rest)%nat with
        | O => subst t caps ++ c :: replaceAllFrom p t (Some c) 0 s
        | S k => subst t caps ++ replaceAllFrom p t (Some c) k s
        end
    | None => c :: replaceAllFrom p t (Some c) 0 s
    end.
Proof. reflexivity. Qed.

(** A one-character pattern with a literal replacement works character by
    character. *)
Lemma replaceAllFrom_single (c : codeunit) (r : jsstr) :
  forall s prev,
    replaceAllFrom [lit c] [TLit r] prev 0 s
    = flat_map (fun x => if c =? x then r else [x]) s.
Proof.
  induction s as [|x s IH]; intros prev; [reflexivity|].
  rewrite replaceAllFrom_cons. cbn [pmatch lit flat_map].
  destruct (c =? x).
  - replace (length (x :: s) - length s)%nat with 1%nat by (cbn [length]; lia).
    rewrite IH. cbn [subst flat_map]. rewrite app_nil_r. reflexivity.
  - rewrite IH. reflexivity.
Qed.

(** ** escapeHtml, character by character *)

Lemma flat_map_flat_map {A B C : Type} (f : A -> list B) (g : B -> list C)
  (l : list A) :
  flat_map g (flat_map f l) = flat_map (fun x => flat_map g (f x)) l.
Proof.
  induction l as [|a l IH]; [reflexivity|].
  simpl. rewrite flat_map_app, IH. reflexivity.
Qed.

Lemma escapeHtml_flat_map (value : jsstr) :
  escapeHtml value = flat_map escapeUnit value.
Proof.
  unfold escapeHtml, replaceAll. cbv zeta.
  rewrite !replaceAllFrom_single.
  rewrite !flat_map_flat_map.
  apply flat_map_ext. intros x. unfold escapeUnit.
  destruct (N.eqb_spec x (ch "&")) as [-> | N1]; [reflexivity|].
  destruct (N.eqb_spec x (ch "<")) as [-> | N2]; [reflexivity|].
  destruct (N.eqb_spec x (ch ">")) as [-> | N3]; [reflexivity|].
  destruct (N.eqb_spec x 34) as [-> | N4]; [reflexivity|].
  destruct (N.eqb_spec x (ch "'")) as [-> | N5]; [reflexivity|].
  assert (H1 : (ch "&" =? x) = false) by (apply N.eqb_neq; congruence).
  assert (H2 : (ch "<" =? x) = false) by (apply N.eqb_neq; congruence).
  assert (H3 : (ch ">" =? x) = false) by (apply N.eqb_neq; congruence).
  assert (H4 : (34 =? x) = false) by (apply N.eqb_neq; congruence).
  assert (H5 : (ch "'" =? x) = false) by (apply N.eqb_neq; congruence).
  rewrite H1. cbn [flat_map app]. rewrite H2. cbn [flat_map app].
  rewrite H3. cbn [flat_map app]. rewrite H4. cbn [flat_map app].
  rewrite H5. reflexivity.
Qed.

Lemma escapeHtml_app (a b : jsstr) :
  escapeHtml (a ++ b) = escapeHtml a ++ escapeHtml b.
Proof. rewrite !escapeHtml_flat_map. apply flat_map_app. Qed.

Lemma escapeHtml_cons (c : codeunit) (s : jsstr) :
  escapeHtml (c :: s) = escapeUnit c ++ escapeHtml s.
Proof. rewrite !escapeHtml_flat_map. reflexivity. Qed.

Lemma escapeUnit_plain (c : codeunit) :
  isHtmlSpecial c = false -> escapeUnit c = [c].
Proof.
  unfold isHtmlSpecial, escapeUnit. intros H.
  repeat (apply orb_false_iff in H; destruct H as [H ?]).
  repeat match goal with E : (_ =? _) = false |- _ => rewrite E; clear E end.
  reflexivity.
Qed.

Lemma escapeHtml_plain (s : jsstr) :
  (forall x, In x s -> isHtmlSpecial x = false) -> escapeHtml s = s.
Proof.
  induction s as [|c s IH]; intros H; [reflexivity|].
  rewrite escapeHtml_cons, escapeUnit_plain by (apply H; left; reflexivity).
  simpl. f_equal. apply IH. intros x Hx. apply H. right. exact Hx.
Qed.

(** ** trim *)

Lemma In_trimStart (x : codeunit) (s : jsstr) : In x (trimStart s) -> In x s.
Proof.
  induction s as [|c s IH]; simpl; [auto|].
  destruct (isWhiteSpace c); [right; auto | auto].
Qed.

Lemma In_trimEnd (x : codeunit) (s : jsstr) : In x (trimEnd s) -> In x s.
Proof.
  induction s as [|c s IH]; simpl; [auto|].
  destruct (trimEnd s) as [|d t].
  - destruct (isWhiteSpace c); simpl; tauto.
  - intros [H | H]; [left; exact H | right; apply IH; exact H].
Qed.

Lemma In_trim (x : codeunit) (s : jsstr) : In x (trim s) -> In x s.
Proof. intros H. apply In_trimStart, In_trimEnd. exact H. Qed.

Lemma trimEnd_app (a b : jsstr) :
  trimEnd (a ++ b) = if isEmpty (trimEnd b) then trimEnd a else a ++ trimEnd b.
Proof.
  induction a as [|c a IH]; simpl.
  - destruct (trimEnd b); reflexivity.
  - rewrite IH. destruct (trimEnd b) as [|d t]; simpl; [reflexivity|].
    destruct (a ++ d :: t) eqn:E; [|reflexivity].
    destruct a; discriminate.
Qed.


Lemma escapeUnit_cases (c : codeunit) :
  (isHtmlSpecial c = false /\ escapeUnit c = [c])
  \/ In (escapeUnit c)
       [str "&amp;"; str "&lt;"; str "&gt;"; str "&quot;"; str "&#39;"].
Proof.
  unfold escapeUnit, isHtmlSpecial.
  destruct (c =? ch "&"); [right; simpl; tauto|].
  destruct (c =? ch "<"); [right; simpl; tauto|].
  destruct (c =? ch ">"); [right; simpl; tauto|].
  destruct (c =? 34); [right; simpl; tauto|].
  destruct (c =? ch "'"); [right; simpl; tauto|].
  left. split; reflexivity.
Qed.

Ltac escape_cases c :=
  destruct (escapeUnit_cases c) as [[? ->] | Hcases];
  [| simpl in Hcases;
     repeat (destruct Hcases as [<- | Hcases]); try contradiction ].



Lemma escapeUnit_nonempty (c : codeunit) : escapeUnit c <> [].
Proof. escape_cases c; discriminate. Qed.

Lemma escapeHtml_nil_inv (s : jsstr) : escapeHtml s = [] -> s = [].
Proof.
  destruct s as [|c s]; [reflexivity|]. rewrite escapeHtml_cons.
  intros H. destruct (escapeUnit c) eqn:E; [|discriminate].
  exfalso. exact (escapeUnit_nonempty c E).
Qed.





(** ** The inline math scan *)

Section InlineMath.

Variable katex : jsstr -> bool -> completion jsstr.

Lemma startsWith_unit (c d : codeunit) (l : jsstr) :
  startsWith [c] (d :: l) = (c =? d).
Proof. cbn [startsWith]. apply andb_true_r. Qed.

(** One turn of the loop. *)
Lemma replaceInlineMathFrom_cons (char : codeunit) (rest result buffer : jsstr)
  (inMath : bool) :
  replaceInlineMathFrom katex (char :: rest) result buffer inMath
  = if (char =? BACKSLASH) && startsWith [DOLLAR] rest
    then replaceInlineMathFrom katex (tl rest) (result ++ [DOLLAR]) buffer inMath
    else if char =? DOLLAR then
           if inMath then
             if isEmpty (trim buffer)
             then replaceInlineMathFrom katex rest
                    (result ++ [DOLLAR] ++ buffer ++ [DOLLAR]) [] false
             else replaceInlineMathFrom katex rest
                    (result ++ returned (renderMath katex buffer false)) [] false
           else replaceInlineMathFrom katex rest result [] true
         else if inMath
              then replaceInlineMathFrom katex rest result (buffer ++ [char]) inMath
              else replaceInlineMathFrom katex rest (result ++ [char]) buffer inMath.
Proof.
  destruct rest as [|nextChar rest'].
  - cbn [replaceInlineMathFrom startsWith]. rewrite andb_false_r. reflexivity.
  - rewrite startsWith_unit. cbn [replaceInlineMathFrom tl].
    rewrite (N.eqb_sym DOLLAR nextChar). reflexivity.
Qed.

(** Text without a dollar is copied: to the buffer inside math, to the
    result outside; the backslash that ends it must not escape the dollar
    that follows. *)
Lemma replaceInlineMathFrom_plain (text : jsstr) :
  forall follow result buffer inMath,
    (forall x, In x text -> x <> DOLLAR) ->
    ((last text 0 =? BACKSLASH) && startsWith [DOLLAR] follow) = false ->
    replaceInlineMathFrom katex (text ++ follow) result buffer inMath
    = replaceInlineMathFrom katex follow
        (if inMath then result else result ++ text)
        (if inMath then buffer ++ text else buffer) inMath.
Proof.
  induction text as [|c text IH]; intros follow result buffer inMath Hno Hesc.
  - simpl. rewrite !app_nil_r. destruct inMath; reflexivity.
  - change ((c :: text) ++ follow) with (c :: (text ++ follow)).
    rewrite replaceInlineMathFrom_cons.
    assert (Hc : (c =? DOLLAR) = false).
    { apply N.eqb_neq. apply Hno. left. reflexivity. }
    assert (Hfirst : ((c =? BACKSLASH) && startsWith [DOLLAR] (text ++ follow)) = false).
    { destruct text as [|d text'].
      - exact Hesc.
      - change ((d :: text') ++ follow) with (d :: (text' ++ follow)).
        rewrite startsWith_unit.
        replace (DOLLAR =? d) with false; [apply andb_false_r|].
        symmetry. apply N.eqb_neq. intros E. symmetry in E. revert E.
        apply Hno. right. left. reflexivity. }
    rewrite Hfirst, Hc.
    assert (Hno' : forall x, In x text -> x <> DOLLAR).
    { intros x Hx. apply Hno. right. exact Hx. }
    assert (Hesc' : ((last text 0 =? BACKSLASH) && startsWith [DOLLAR] follow) = false).
    { destruct text as [|d text']; [reflexivity|]. exact Hesc. }
    destruct inMath; rewrite IH by assumption;
      rewrite <- ?app_assoc; reflexivity.
Qed.

Lemma replaceInlineMath_no_dollar (text : jsstr) :
  (forall x, In x text -> x <> DOLLAR) -> replaceInlineMath katex text = text.
Proof.
  intros H. unfold replaceInlineMath.
  rewrite <- (app_nil_r text) at 1.
  rewrite replaceInlineMathFrom_plain; [reflexivity | assumption |].
  apply andb_false_r.
Qed.

(** What was already written stays in front. *)
Lemma replaceInlineMathFrom_result (n : nat) :
  forall text result buffer inMath,
    (length text <= n)%nat ->
    replaceInlineMathFrom katex text result buffer inMath
    = result ++ replaceInlineMathFrom katex text [] buffer inMath.
Proof.
  induction n as [|n IH]; intros text result buffer inMath Hlen.
  - destruct text; [|simpl in Hlen; lia].
    simpl. destruct inMath; [reflexivity | rewrite app_nil_r; reflexivity].
  - destruct text as [|c rest].
    + simpl. destruct inMath; [reflexivity | rewrite app_nil_r; reflexivity].
    + simpl in Hlen. rewrite !replaceInlineMathFrom_cons.
      assert (Htl : (length (tl rest) <= n)%nat).
      { destruct rest; simpl in *; lia. }
      assert (Hrest : (length rest <= n)%nat) by lia.
      destruct ((c =? BACKSLASH) && startsWith [DOLLAR] rest).
      { rewrite (IH (tl rest) (result ++ [DOLLAR])) by assumption.
        rewrite (IH (tl rest) ([] ++ [DOLLAR])) by assumption.
        rewrite <- app_assoc. reflexivity. }
      destruct (c =? DOLLAR).
      { destruct inMath.
        - destruct (isEmpty (trim buffer)).
          + rewrite (IH rest (result ++ _)) by assumption.
            rewrite (IH rest ([] ++ _)) by assumption.
            rewrite <- !app_assoc. reflexivity.
          + rewrite (IH rest (result ++ _)) by assumption.
            rewrite (IH rest ([] ++ _)) by assumption.
            rewrite <- !app_assoc. reflexivity.
        - apply IH. assumption. }
      destruct inMath.
      * apply IH. assumption.
      * rewrite (IH rest (result ++ [c])) by assumption.
        rewrite (IH rest ([] ++ [c])) by assumption.
        rewrite <- app_assoc. reflexivity.
Qed.

End InlineMath.

(** ** Plain text *)

Lemma pmatch_One_fails (f : codeunit -> bool) (p : pattern)
  (prev : option codeunit) (c : codeunit) (s : jsstr) :
  f c = false -> pmatch (One f :: p) prev (c :: s) = None.
Proof. intros H. cbn [pmatch]. rewrite H. reflexivity. Qed.

Lemma pmatch_Rep_fails (f : codeunit -> bool) (lo : nat) (hi : option nat)
  (cap : bool) (p : pattern) (prev : option codeunit) (c : codeunit) (s : jsstr) :
  f c = false -> (0 < lo)%nat ->
  pmatch (Rep f lo hi cap :: p) prev (c :: s) = None.
Proof.
  intros H Hlo. cbn [pmatch].
  replace (greedyMax f hi (c :: s)) with 0%nat.
  - cbn [backtrack]. replace (0 <? lo)%nat with true; [reflexivity|].
    symmetry. apply Nat.ltb_lt. exact Hlo.
  - unfold greedyMax. cbn [spanLen]. rewrite H.
    destruct hi; [rewrite Nat.min_0_r|]; reflexivity.
Qed.

Lemma splitLines_one (s : jsstr) :
  (forall x, In x s -> x <> LF) -> splitLines s = [s].
Proof.
  induction s as [|c s IH]; intros H; [reflexivity|].
  cbn [splitLines].
  replace (c =? LF) with false
    by (symmetry; apply N.eqb_neq; apply H; left; reflexivity).
  rewrite IH by (intros x Hx; apply H; right; exact Hx). reflexivity.
Qed.

Lemma eqb_false_sym (a b : N) : (a =? b) = false -> (b =? a) = false.
Proof. rewrite N.eqb_sym. auto. Qed.

Section PlainText.

Variable katex : jsstr -> bool -> completion jsstr.

Lemma parseInline_plain (s : jsstr) :
  (forall x, In x s -> isInlineSpecial x = false) -> parseInline katex s = s.
Proof.
  intros H.
  assert (Hx : forall x, In x s ->
             isHtmlSpecial x = false /\ x <> DOLLAR
             /\ (ch "[" =? x) = false /\ (ch "*" =? x) = false
             /\ (ch "_" =? x) = false /\ (ch "~" =? x) = false
             /\ (BACKTICK =? x) = false).
  { intros x Hin. specialize (H x Hin). unfold isInlineSpecial in H.
    do 6 (apply orb_false_iff in H; destruct H as [H ?]).
    repeat split; try (apply eqb_false_sym; assumption); try assumption.
    apply N.eqb_neq. assumption. }
  unfold parseInline. cbv zeta.
  rewrite escapeHtml_plain by (intros x Hin; apply (Hx x Hin)).
  rewrite replaceInlineMath_no_dollar by (intros x Hin; apply (Hx x Hin)).
  unfold inlineMarkup.
  rewrite (replaceAll_absent_unit (N.eqb (ch "[")) reImage)
    by (try (intros x Hin; apply (Hx x Hin)); simpl; auto).
  rewrite (replaceAll_absent_unit (N.eqb (ch "[")) reLink)
    by (try (intros x Hin; apply (Hx x Hin)); simpl; auto).
  rewrite (replaceAll_absent_unit (N.eqb (ch "*")) reBoldStar)
    by (try (intros x Hin; apply (Hx x Hin)); simpl; auto).
  rewrite (replaceAll_absent_unit (N.eqb (ch "_")) reBoldUnder)
    by (try (intros x Hin; apply (Hx x Hin)); simpl; auto).
  rewrite (replaceAll_absent_unit (N.eqb (ch "*")) reEmStar)
    by (try (intros x Hin; apply (Hx x Hin)); simpl; auto).
  rewrite (replaceAll_absent_unit (N.eqb (ch "_")) reEmUnder)
    by (try (intros x Hin; apply (Hx x Hin)); simpl; auto).
  rewrite (replaceAll_absent_unit (N.eqb (ch "~")) reDel)
    by (try (intros x Hin; apply (Hx x Hin)); simpl; auto).
  rewrite (replaceAll_absent_unit (N.eqb BACKTICK) reCode)
    by (try (intros x Hin; apply (Hx x Hin)); simpl; auto).
  reflexivity.
Qed.

(** A line that no block rule claims becomes a paragraph. *)
Lemma processLine_paragraph (s : state) (line : jsstr) (c : codeunit) (t : jsstr) :
  inCode s = false -> inMathBlock s = false ->
  trim line = c :: t ->
  c <> BACKTICK -> c <> DOLLAR -> c <> ch "-" -> c <> ch "_" -> c <> ch "*" ->
  c <> ch ">" -> c <> ch "+" -> isDigit c = false ->
  matchStart reHeading (c :: t) = None ->
  processLine katex s line
  = push (paragraphHtml katex (trim line)) (closeBlockquote (closeLists s)).
Proof.
  intros Hcode Hmath Htrim Hb Hd Hm Hu Hs Hq Hp Hdig Hhead.
  unfold processLine. cbv zeta. rewrite Htrim.
  assert (F1 : startsWith FENCE (c :: t) = false).
  { unfold FENCE. cbn [startsWith].
    replace (BACKTICK =? c) with false; [reflexivity|].
    symmetry. apply N.eqb_neq. congruence. }
  assert (F2 : startsWith DD (c :: t) = false).
  { unfold DD. cbn [startsWith].
    replace (DOLLAR =? c) with false; [reflexivity|].
    symmetry. apply N.eqb_neq. congruence. }
  rewrite F1, Hcode, F2, Hmath. cbn [isEmpty]. rewrite Hhead.
  assert (F3 : testRule (c :: t) = false).
  { unfold testRule, testStart, matchStart, reRuleOf.
    rewrite !pmatch_Rep_fails; try reflexivity; try lia;
      apply N.eqb_neq; congruence. }
  assert (F4 : testStart reQuote (c :: t) = false).
  { unfold testStart, matchStart, reQuote, lit.
    rewrite pmatch_One_fails; [reflexivity|]. apply N.eqb_neq. congruence. }
  assert (F5 : testStart reOrdered (c :: t) = false).
  { unfold testStart, matchStart, reOrdered.
    rewrite pmatch_Rep_fails; [reflexivity | assumption | lia]. }
  assert (F6 : testStart reBullet (c :: t) = false).
  { unfold testStart, matchStart, reBullet.
    rewrite pmatch_One_fails; [reflexivity|].
    rewrite !orb_false_iff. repeat split; apply N.eqb_neq; assumption. }
  rewrite F3, F4, F5, F6. reflexivity.
Qed.

Lemma isPlainLine_units (line : jsstr) :
  isPlainLine line = true ->
  forall x, In x line -> isInlineSpecial x = false /\ x <> LF /\ x <> CR.
Proof.
  unfold isPlainLine. intros H x Hin.
  apply andb_true_iff in H. destruct H as [H _].
  rewrite forallb_forall in H. specialize (H x Hin). unfold isPlainUnit in H.
  apply andb_true_iff in H. destruct H as [H H3].
  apply andb_true_iff in H. destruct H as [H1 H2].
  apply negb_true_iff in H1, H2, H3.
  repeat split; [assumption | |]; apply N.eqb_neq; assumption.
Qed.

Lemma convertMarkdown_plain_line (line : jsstr) :
  isPlainLine line = true ->
  convertMarkdown katex line = str "<p>" ++ trim line ++ str "</p>".
Proof.
  intros Hplain. pose proof (isPlainLine_units line Hplain) as Hunits.
  unfold convertMarkdown. cbv zeta.
  rewrite (replaceAll_absent_unit (N.eqb CR) reNewline);
    [| left; reflexivity
     | intros x Hin; apply eqb_false_sym, N.eqb_neq; apply (Hunits x Hin)].
  rewrite splitLines_one by (intros x Hin; apply (Hunits x Hin)).
  unfold convertLines, scanLines. cbn [fold_left].
  unfold isPlainLine in Hplain. apply andb_true_iff in Hplain.
  destruct Hplain as [_ Hfirst].
  destruct (trim line) as [|c t] eqn:Htrim; [discriminate|].
  apply negb_true_iff in Hfirst. unfold startsBlock in Hfirst.
  do 3 (apply orb_false_iff in Hfirst; destruct Hfirst as [Hfirst ?]).
  assert (Hc : isInlineSpecial c = false).
  { apply (Hunits c). apply In_trim. rewrite Htrim. left. reflexivity. }
  unfold isInlineSpecial, isHtmlSpecial in Hc.
  do 10 (apply orb_false_iff in Hc; destruct Hc as [Hc ?]).
  rewrite (processLine_paragraph initialState line c t);
    try reflexivity; try assumption; try (apply N.eqb_neq; assumption).
  - unfold paragraphHtml. rewrite Htrim.
    rewrite parseInline_plain.
    + reflexivity.
    + intros x Hin. apply (Hunits x). apply In_trim. rewrite Htrim. exact Hin.
  - unfold matchStart, reHeading. apply pmatch_Rep_fails; [|lia].
    apply eqb_false_sym. assumption.
Qed.

End PlainText.

(** C8 as stated fails: no newline follows the paragraph (and the blanks
    around the line are not kept). *)
Lemma plain_line_has_no_trailing_newline :
  isPlainLine (str "hello") = true
  /\ convertMarkdown (fun _ _ => Throw []) (str "hello") = str "<p>hello</p>"
  /\ convertMarkdown (fun _ _ => Throw []) (str "hello")
     <> str "<p>hello</p>" ++ nl
  /\ convertMarkdown (fun _ _ => Throw []) (str " hello ") = str "<p>hello</p>".
Proof.
  split; [|split; [|split]]; vm_compute;
    [reflexivity | reflexivity | discriminate | reflexivity].
Qed.

(** ** Headings *)

Lemma spanLen_app (f : codeunit -> bool) (a b : jsstr) :
  forallb f a = true -> spanLen f (a ++ b) = (length a + spanLen f b)%nat.
Proof.
  induction a as [|c a IH]; intros H; [reflexivity|].
  cbn [forallb] in H. apply andb_true_iff in H. destruct H as [Hc Ha].
  cbn [app spanLen length]. rewrite Hc, IH by assumption. reflexivity.
Qed.

Lemma firstn_length_app {A : Type} (a b : list A) : firstn (length a) (a ++ b) = a.
Proof. induction a as [|x a IH]; [reflexivity|]. simpl. rewrite IH. reflexivity. Qed.

Lemma skipn_length_app {A : Type} (a b : list A) : skipn (length a) (a ++ b) = b.
Proof. induction a as [|x a IH]; [reflexivity|]. simpl. exact IH. Qed.

(** A greedy class that takes the whole run [a] and lets the rest of the
    pattern match what follows succeeds without giving anything back. *)
Lemma pmatch_Rep_greedy (f : codeunit -> bool) (lo : nat) (hi : option nat)
  (cap : bool) (p : pattern) (prev : option codeunit) (a b : jsstr)
  (caps : list jsstr) (rest : jsstr) :
  forallb f a = true ->
  spanLen f b = 0%nat ->
  (lo <= length a)%nat ->
  match hi with Some m => (length a <= m)%nat | None => True end ->
  pmatch p (lastUnit prev a) b = Some (caps, rest) ->
  pmatch (Rep f lo hi cap :: p) prev (a ++ b)
  = Some (if cap then a :: caps else caps, rest).
Proof.
  intros Ha Hb Hlo Hhi Hp. cbn [pmatch].
  assert (Hmax : greedyMax f hi (a ++ b) = length a).
  { unfold greedyMax. rewrite spanLen_app, Hb, Nat.add_0_r by assumption.
    destruct hi; [apply Nat.min_r; assumption | reflexivity]. }
  rewrite Hmax. apply backtrack_first; [assumption|].
  rewrite firstn_length_app, skipn_length_app, Hp. reflexivity.
Qed.

Lemma whitespace_not_hash (w : codeunit) :
  isWhiteSpace w = true -> (ch "#" =? w) = false.
Proof.
  intros H. apply N.eqb_neq. intros E. subst w. discriminate.
Qed.

Lemma forallb_hashes (n : nat) : forallb (N.eqb (ch "#")) (repeat (ch "#") n) = true.
Proof.
  induction n as [|n IH]; [reflexivity|].
  cbn [repeat forallb]. rewrite IH, N.eqb_refl. reflexivity.
Qed.

Lemma matchStart_heading (n : nat) (w : codeunit) (ws : jsstr)
  (c : codeunit) (text : jsstr) :
  (1 <= n <= 6)%nat ->
  forallb isWhiteSpace (w :: ws) = true ->
  isWhiteSpace c = false ->
  forallb (fun x => negb (isLineTerminator x)) (c :: text) = true ->
  matchStart reHeading (repeat (ch "#") n ++ (w :: ws) ++ c :: text)
  = Some ([repeat (ch "#") n; c :: text], []).
Proof.
  intros Hn Hws Hc Htext. unfold matchStart, reHeading.
  apply (pmatch_Rep_greedy _ _ _ true).
  - apply forallb_hashes.
  - cbn [app spanLen]. cbn [forallb] in Hws.
    apply andb_true_iff in Hws. destruct Hws as [Hw _].
    rewrite (whitespace_not_hash w Hw). reflexivity.
  - rewrite repeat_length. lia.
  - rewrite repeat_length. lia.
  - apply (pmatch_Rep_greedy _ _ _ false).
    + assumption.
    + cbn [spanLen]. rewrite Hc. reflexivity.
    + simpl. lia.
    + exact I.
    + rewrite <- (app_nil_r (c :: text)) at 1.
      apply (pmatch_Rep_greedy _ _ _ true).
      * assumption.
      * reflexivity.
      * lia.
      * exact I.
      * reflexivity.
Qed.

Lemma pmatch_Rep_unfold (f : codeunit -> bool) (lo : nat) (hi : option nat)
  (cap : bool) (p : pattern) (prev : option codeunit) (s : jsstr) :
  pmatch (Rep f lo hi cap :: p) prev s
  = backtrack
      (fun k =>
         match pmatch p (lastUnit prev (firstn k s)) (skipn k s) with
         | Some (caps, rest) =>
             Some (if cap then firstn k s :: caps else caps, rest)
         | None => None
         end)
      lo (greedyMax f hi s).
Proof. reflexivity. Qed.

Lemma matchStart_heading_seven (rest : jsstr) :
  matchStart reHeading (repeat (ch "#") 7 ++ rest) = None.
Proof.
  unfold matchStart, reHeading. rewrite pmatch_Rep_unfold.
  apply backtrack_none. intros j Hj.
  assert (Hmax : greedyMax (N.eqb (ch "#")) (Some 6%nat)
                   (repeat (ch "#") 7 ++ rest) = 6%nat).
  { unfold greedyMax. rewrite spanLen_app by apply forallb_hashes.
    rewrite repeat_length. apply Nat.min_l. lia. }
  rewrite Hmax in Hj.
  cbn [repeat app].
  destruct j as [|[|[|[|[|[|[|j]]]]]]]; try lia;
    cbn [skipn firstn]; rewrite pmatch_Rep_fails; try reflexivity; lia.
Qed.

Lemma replaceAllFrom_keeps_hashes (p : pattern) (t : template) :
  (forall prev s, pmatch p prev (ch "#" :: s) = None) ->
  forall n prev text,
  exists prev',
    replaceAllFrom p t prev 0 (repeat (ch "#") n ++ text)
    = repeat (ch "#") n ++ replaceAllFrom p t prev' 0 text.
Proof.
  intros Hno. induction n as [|n IH]; intros prev text.
  - exists prev. reflexivity.
  - cbn [repeat app]. rewrite replaceAllFrom_cons, Hno.
    destruct (IH (Some (ch "#")) text) as [prev' E].
    exists prev'. rewrite E. reflexivity.
Qed.

Lemma replaceAll_keeps_hashes (p : pattern) (t : template) (n : nat) (text : jsstr) :
  (forall prev s, pmatch p prev (ch "#" :: s) = None) ->
  exists tail, replaceAll p t (repeat (ch "#") n ++ text) = repeat (ch "#") n ++ tail.
Proof.
  intros Hno. unfold replaceAll.
  destruct (replaceAllFrom_keeps_hashes p t Hno n None text) as [prev' E].
  rewrite E. eexists. reflexivity.
Qed.

Section Headings.

Variable katex : jsstr -> bool -> completion jsstr.

Lemma inlineMarkup_keeps_hashes (n : nat) (text : jsstr) :
  exists tail,
    inlineMarkup (repeat (ch "#") n ++ text) = repeat (ch "#") n ++ tail.
Proof.
  unfold inlineMarkup.
  destruct (replaceAll_keeps_hashes reImage tImage n text) as [t1 ->].
  { intros prev s. apply pmatch_One_fails. reflexivity. }
  destruct (replaceAll_keeps_hashes reLink tLink n t1) as [t2 ->].
  { intros prev s. apply pmatch_One_fails. reflexivity. }
  destruct (replaceAll_keeps_hashes reBoldStar tStrong n t2) as [t3 ->].
  { intros prev s. apply pmatch_One_fails. reflexivity. }
  destruct (replaceAll_keeps_hashes reBoldUnder tStrong n t3) as [t4 ->].
  { intros prev s. apply pmatch_One_fails. reflexivity. }
  destruct (replaceAll_keeps_hashes reEmStar tEm n t4) as [t5 ->].
  { intros prev s. unfold reEmStar. cbn [pmatch].
    destruct prev as [d|]; [destruct (d =? ch "*")|]; reflexivity. }
  destruct (replaceAll_keeps_hashes reEmUnder tEm n t5) as [t6 ->].
  { intros prev s. apply pmatch_One_fails. reflexivity. }
  destruct (replaceAll_keeps_hashes reDel tDel n t6) as [t7 ->].
  { intros prev s. apply pmatch_One_fails. reflexivity. }
  destruct (replaceAll_keeps_hashes reCode tCode n t7) as [t8 ->].
  { intros prev s. apply pmatch_One_fails. reflexivity. }
  exists t8. reflexivity.
Qed.

Lemma In_hashes (n : nat) (x : codeunit) : In x (repeat (ch "#") n) -> x = ch "#".
Proof. intros H. apply repeat_spec in H. exact H. Qed.

Lemma escapeHtml_hashes (n : nat) : escapeHtml (repeat (ch "#") n) = repeat (ch "#") n.
Proof.
  apply escapeHtml_plain. intros x Hx. apply In_hashes in Hx. subst x. reflexivity.
Qed.

Lemma last_hashes (n : nat) : (last (repeat (ch "#") n) 0 =? BACKSLASH) = false.
Proof.
  induction n as [|n IH]; [reflexivity|].
  destruct n as [|n]; [reflexivity|]. exact IH.
Qed.

Lemma parseInline_keeps_hashes (n : nat) (text : jsstr) :
  exists tail,
    parseInline katex (repeat (ch "#") n ++ text) = repeat (ch "#") n ++ tail.
Proof.
  unfold parseInline, replaceInlineMath. cbv zeta.
  rewrite escapeHtml_app, escapeHtml_hashes.
  rewrite replaceInlineMathFrom_plain.
  - rewrite (replaceInlineMathFrom_result katex (length (escapeHtml text)))
      by apply Nat.le_refl.
    cbn [app]. apply inlineMarkup_keeps_hashes.
  - intros x Hx. apply In_hashes in Hx. subst x. discriminate.
  - rewrite last_hashes. reflexivity.
Qed.

Lemma processLine_heading (s : state) (line : jsstr) (n : nat)
  (w : codeunit) (ws : jsstr) (c : codeunit) (text : jsstr) :
  inCode s = false -> inMathBlock s = false ->
  (1 <= n <= 6)%nat ->
  forallb isWhiteSpace (w :: ws) = true ->
  isWhiteSpace c = false ->
  forallb (fun x => negb (isLineTerminator x)) (c :: text) = true ->
  trim line = repeat (ch "#") n ++ (w :: ws) ++ c :: text ->
  processLine katex s line
  = push (headingHtml katex n (c :: text)) (closeBlockquote (closeLists s)).
Proof.
  intros Hcode Hmath Hn Hws Hc Htext Htrim.
  pose proof (matchStart_heading n w ws c text Hn Hws Hc Htext) as HM.
  unfold processLine. cbv zeta. rewrite Htrim, HM.
  destruct n as [|m]; [lia|].
  cbn [repeat app].
  replace (startsWith FENCE (ch "#" :: repeat (ch "#") m ++ w :: ws ++ c :: text))
    with false by reflexivity.
  replace (startsWith DD (ch "#" :: repeat (ch "#") m ++ w :: ws ++ c :: text))
    with false by reflexivity.
  rewrite Hcode, Hmath. cbn [isEmpty nth].
  change (ch "#" :: repeat (ch "#") m) with (repeat (ch "#") (S m)).
  rewrite repeat_length. reflexivity.
Qed.

Lemma processLine_seven_hashes (s : state) (line rest : jsstr) :
  inCode s = false -> inMathBlock s = false ->
  trim line = repeat (ch "#") 7 ++ rest ->
  processLine katex s line
  = push (paragraphHtml katex (trim line)) (closeBlockquote (closeLists s)).
Proof.
  intros Hcode Hmath Htrim.
  apply (processLine_paragraph katex s line (ch "#") (repeat (ch "#") 6 ++ rest));
    try assumption; try discriminate;
    try apply (matchStart_heading_seven rest); reflexivity.
Qed.

End Headings.

Lemma convertLines_single (katex : jsstr -> bool -> completion jsstr)
  (line html : jsstr) :
  processLine katex initialState line
  = push html (closeBlockquote (closeLists initialState)) ->
  convertLines katex [line] = html.
Proof.
  intros H. unfold convertLines, scanLines. cbn [fold_left]. rewrite H.
  reflexivity.
Qed.

(** C5: a line that, trimmed, is one to six [#], then white space, then
    text, gives [<hN>] around the inline rendering of the text, [N] being
    the number of [#] (in any scanner state outside code and math blocks,
    and as the whole output when the line is the document); with seven [#]
    the line is a paragraph that starts with the literal [#######]. *)
Theorem heading_level_is_hash_count (katex : jsstr -> bool -> completion jsstr) :
  (forall s line n w ws c text,
      inCode s = false -> inMathBlock s = false ->
      (1 <= n <= 6)%nat ->
      forallb isWhiteSpace (w :: ws) = true ->
      isWhiteSpace c = false ->
      forallb (fun x => negb (isLineTerminator x)) (c :: text) = true ->
      trim line = repeat (ch "#") n ++ (w :: ws) ++ c :: text ->
      processLine katex s line
      = push (str "<h" ++ natToString n ++ str ">"
              ++ parseInline katex (c :: text)
              ++ str "</h" ++ natToString n ++ str ">")
          (closeBlockquote (closeLists s))
      /\ (s = initialState ->
          convertLines katex [line]
          = str "<h" ++ natToString n ++ str ">"
            ++ parseInline katex (c :: text)
            ++ str "</h" ++ natToString n ++ str ">"))
  /\ (forall s line rest,
         inCode s = false -> inMathBlock s = false ->
         trim line = repeat (ch "#") 7 ++ rest ->
         exists tail,
           processLine katex s line
           = push (str "<p>" ++ str "#######" ++ tail ++ str "</p>")
               (closeBlockquote (closeLists s))
           /\ (s = initialState ->
               convertLines katex [line]
               = str "<p>" ++ str "#######" ++ tail ++ str "</p>"))
  /\ map natToString [1; 2; 3; 4; 5; 6]%nat
     = [str "1"; str "2"; str "3"; str "4"; str "5"; str "6"].
Proof.
  split; [|split].
  - intros s line n w ws c text Hcode Hmath Hn Hws Hc Htext Htrim.
    pose proof (processLine_heading katex s line n w ws c text
                  Hcode Hmath Hn Hws Hc Htext Htrim) as H.
    split; [exact H|].
    intros ->. apply convertLines_single. exact H.
  - intros s line rest Hcode Hmath Htrim.
    pose proof (processLine_seven_hashes katex s line rest Hcode Hmath Htrim) as H.
    destruct (parseInline_keeps_hashes katex 7 rest) as [tail Htail].
    exists tail.
    assert (E : paragraphHtml katex (trim line)
                = str "<p>" ++ str "#######" ++ tail ++ str "</p>").
    { unfold paragraphHtml. rewrite Htrim, Htail.
      rewrite <- app_assoc. reflexivity. }
    rewrite E in H. split; [exact H|].
    intros ->. apply convertLines_single. exact H.
  - reflexivity.
Qed.

Lemma heading_level_is_hash_count_witness :
  convertLines (fun _ _ => Throw []) [str "  ### Title & more "]
  = str "<h3>Title &amp; more</h3>"
  /\ exists tail,
       convertLines (fun _ _ => Throw []) [str "####### seven"]
       = str "<p>" ++ str "#######" ++ tail ++ str "</p>".
Proof.
  split.
  - apply (proj1 (heading_level_is_hash_count (fun _ _ => Throw []))
             initialState (str "  ### Title & more ") 3%nat 32 []
             (ch "T") (str "itle & more"));
      try reflexivity. lia.
  - destruct (proj1 (proj2 (heading_level_is_hash_count (fun _ _ => Throw [])))
                initialState (str "####### seven") (str " seven"))
      as [tail [_ H]]; try reflexivity.
    exists tail. apply H. reflexivity.
Defined.

(** ** What the math renderer receives *)

Lemma trimEnd_idempotent (s : jsstr) : trimEnd (trimEnd s) = trimEnd s.
Proof.
  induction s as [|c s IH]; [reflexivity|].
  cbn [trimEnd]. destruct (trimEnd s) as [|d t] eqn:E.
  - destruct (isWhiteSpace c) eqn:W; [reflexivity|].
    cbn [trimEnd]. rewrite W. reflexivity.
  - change (trimEnd (c :: d :: t))
      with (match trimEnd (d :: t) with
            | [] => if isWhiteSpace c then [] else [c]
            | x :: u => c :: x :: u
            end).
    rewrite IH. reflexivity.
Qed.

Lemma trimStart_head (s : jsstr) :
  trimStart s = [] \/ exists c t, trimStart s = c :: t /\ isWhiteSpace c = false.
Proof.
  induction s as [|c s IH]; [left; reflexivity|].
  cbn [trimStart]. destruct (isWhiteSpace c) eqn:W; [exact IH|].
  right. exists c, s. split; [reflexivity | exact W].
Qed.

Lemma trimEnd_head (c : codeunit) (s : jsstr) :
  isWhiteSpace c = false -> exists t, trimEnd (c :: s) = c :: t.
Proof.
  intros W. cbn [trimEnd]. destruct (trimEnd s) as [|d t].
  - rewrite W. exists []. reflexivity.
  - exists (d :: t). reflexivity.
Qed.

Lemma trim_idempotent (s : jsstr) : trim (trim s) = trim s.
Proof.
  unfold trim. destruct (trimStart_head s) as [E | [c [t [E W]]]]; rewrite E.
  - reflexivity.
  - destruct (trimEnd_head c t W) as [u Hu].
    rewrite Hu. cbn [trimStart]. rewrite W.
    rewrite <- Hu. apply trimEnd_idempotent.
Qed.






Section MathArguments.

Variable katex : jsstr -> bool -> completion jsstr.



(** What [renderMath] passes on. *)
Lemma returned_renderMath (expression : jsstr) (displayMode : bool) :
  trim expression <> [] ->
  returned (renderMath katex expression displayMode)
  = match katex (trim expression) displayMode with
    | Normal html => html
    | Throw _ => mathError (trim expression)
    end.
Proof.
  intros H. unfold renderMath. destruct (trim expression) as [|c t]; [contradiction|].
  cbn [isEmpty]. unfold tryCatch, returned.
  destruct (katex (c :: t) displayMode); reflexivity.
Qed.



Lemma closeLists_closed (s : state) :
  inBullet s = false -> inOrdered s = false -> closeLists s = s.
Proof. intros H1 H2. unfold closeLists. rewrite H1, H2. reflexivity. Qed.


Lemma flushCodeBlock_closed (s : state) :
  inCode s = false -> flushCodeBlock s = s.
Proof. intros H. unfold flushCodeBlock. rewrite H. reflexivity. Qed.



End MathArguments.

(** ** Scanning for list tags *)

Lemma tagScan_app (a b : jsstr) :
  forall q,
    tagScan q (a ++ b)
    = match tagScan q a with
      | Some q' => tagScan q' b
      | None => None
      end.
Proof.
  induction a as [|c a IH]; intros q; [reflexivity|].
  cbn [app tagScan]. destruct (tagStep q c); [apply IH | reflexivity].
Qed.

(** [Text] is the state that knows least: what survives from any state
    survives from [Text]. *)
Lemma tagScan_from_Text (s : jsstr) :
  forall q q', tagScan q s = Some q' -> exists q'', tagScan Text s = Some q''.
Proof.
  induction s as [|c s IH]; intros q q' H; [eexists; reflexivity|].
  cbn [tagScan] in *. destruct (tagStep q c) as [q1|] eqn:E; [|discriminate].
  unfold tagStep in *. destruct (c =? ch "<").
  - injection E as <-. eexists. exact H.
  - eapply IH. exact H.
Qed.

Lemma tagScan_prefix (a b : jsstr) (q q' : tagState) :
  tagScan q (a ++ b) = Some q' -> exists q1, tagScan q a = Some q1.
Proof.
  rewrite tagScan_app. destruct (tagScan q a); [eexists; reflexivity | discriminate].
Qed.

Lemma tagScan_suffix (a b : jsstr) (q q' : tagState) :
  tagScan q (a ++ b) = Some q' -> exists q1, tagScan Text b = Some q1.
Proof.
  rewrite tagScan_app. destruct (tagScan q a) as [q1|]; [|discriminate].
  apply tagScan_from_Text.
Qed.

Lemma tagScan_infix (a b c : jsstr) (q q' : tagState) :
  tagScan q (a ++ b ++ c) = Some q' -> exists q1, tagScan Text b = Some q1.
Proof.
  intros H. apply tagScan_suffix in H. destruct H as [q1 H].
  apply tagScan_prefix in H. exact H.
Qed.

Lemma tagScan_no_lt (s : jsstr) :
  (forall x, In x s -> x <> ch "<") -> tagScan Text s = Some Text.
Proof.
  induction s as [|c s IH]; intros H; [reflexivity|].
  cbn [tagScan]. unfold tagStep.
  replace (c =? ch "<") with false
    by (symmetry; apply N.eqb_neq; apply H; left; reflexivity).
  apply IH. intros x Hx. apply H. right. exact Hx.
Qed.


Lemma resetting_app_safe (a x b : jsstr) (q q1 : tagState) :
  resetting a -> resetting b -> tagScan Text x = Some q1 ->
  tagScan q (a ++ x ++ b) = Some Text.
Proof.
  intros Ha Hb Hx. rewrite tagScan_app, Ha, tagScan_app, Hx. apply Hb.
Qed.

(** ** Replacements and list tags *)


Lemma isInfix_cons (x s : jsstr) (c : codeunit) : isInfix x s -> isInfix x (c :: s).
Proof. intros [a [b ->]]. exists (c :: a), b. reflexivity. Qed.

Lemma isInfix_skipn (x s : jsstr) (k : nat) : isInfix x (skipn k s) -> isInfix x s.
Proof.
  intros [a [b E]]. exists (firstn k s ++ a), b.
  rewrite <- app_assoc, <- E. symmetry. apply firstn_skipn.
Qed.

(** What a match captures and what it leaves are pieces of the input. *)
Lemma pmatch_pieces (p : pattern) :
  forall prev s caps rest,
    pmatch p prev s = Some (caps, rest) ->
    (exists m, s = m ++ rest) /\ Forall (fun x => isInfix x s) caps.
Proof.
  induction p as [|a p IH]; intros prev s caps rest H.
  - cbn [pmatch] in H. injection H as <- <-. split; [exists []; reflexivity | constructor].
  - destruct a as [f | f lo hi cap | c | ].
    + cbn [pmatch] in H. destruct s as [|c s']; [discriminate|].
      destruct (f c); [|discriminate].
      destruct (IH _ _ _ _ H) as [[m Hm] Hcaps]. split.
      * exists (c :: m). rewrite Hm at 1. reflexivity.
      * eapply Forall_impl; [|exact Hcaps]. intros x. apply isInfix_cons.
    + rewrite pmatch_Rep_unfold in H. apply backtrack_some in H.
      destruct H as [j [_ H]].
      destruct (pmatch p (lastUnit prev (firstn j s)) (skipn j s))
        as [[caps' rest']|] eqn:E; [|discriminate].
      injection H as <- <-.
      destruct (IH _ _ _ _ E) as [[m Hm] Hcaps]. split.
      * exists (firstn j s ++ m). rewrite <- app_assoc, <- Hm.
        symmetry. apply firstn_skipn.
      * assert (Hc : Forall (fun x => isInfix x s) caps').
        { eapply Forall_impl; [|exact Hcaps]. intros x. apply isInfix_skipn. }
        destruct cap; [|exact Hc]. constructor; [|exact Hc].
        exists [], (skipn j s). cbn [app]. symmetry. apply firstn_skipn.
    + cbn [pmatch] in H.
      destruct prev as [d|]; [destruct (d =? c); [discriminate|]|];
        apply (IH _ _ _ _ H).
    + cbn [pmatch] in H. destruct s; [|discriminate]. apply (IH _ _ _ _ H).
Qed.


Lemma nth_safe (caps : list jsstr) (i : nat) :
  piecesSafe caps -> exists q, tagScan Text (nth i caps []) = Some q.
Proof.
  intros H. revert i. induction H as [|x caps Hx _ IH]; intros i.
  - destruct i; exists Text; reflexivity.
  - destruct i; [exact Hx | apply IH].
Qed.

Lemma subst_tail_resets (t : template) (caps : list jsstr) :
  groupsThenLiterals t -> piecesSafe caps ->
  tagScan Text (subst t caps) = Some Text.
Proof.
  intros Ht Hcaps. induction Ht as [|i l t Hl _ IH]; [reflexivity|].
  unfold subst in *. cbn [flat_map].
  destruct (nth_safe caps (i - 1) Hcaps) as [q Hq].
  rewrite tagScan_app, Hq, tagScan_app, Hl. exact IH.
Qed.

Lemma subst_resets (t : template) (caps : list jsstr) (q : tagState) :
  templateResets t -> piecesSafe caps -> tagScan q (subst t caps) = Some Text.
Proof.
  intros [l [t' [-> [Hl Ht']]]] Hcaps. unfold subst. cbn [flat_map].
  rewrite tagScan_app, Hl. apply subst_tail_resets; assumption.
Qed.


Lemma infixSafe_of_scan (s : jsstr) (q q' : tagState) :
  tagScan q s = Some q' -> infixSafe s.
Proof. intros H x [a [b ->]]. eapply tagScan_infix. exact H. Qed.

Lemma infixSafe_tail (c : codeunit) (s : jsstr) : infixSafe (c :: s) -> infixSafe s.
Proof. intros H x Hx. apply H. apply isInfix_cons. exact Hx. Qed.

Lemma infixSafe_self (s : jsstr) : infixSafe s -> exists q, tagScan Text s = Some q.
Proof. intros H. apply H. exists [], []. rewrite app_nil_r. reflexivity. Qed.

Lemma infixSafe_caps (p : pattern) (prev : option codeunit) (s rest : jsstr)
  (caps : list jsstr) :
  infixSafe s -> pmatch p prev s = Some (caps, rest) -> piecesSafe caps.
Proof.
  intros Hs H. apply pmatch_pieces in H. destruct H as [_ H].
  eapply Forall_impl; [|exact H]. intros x Hx. apply Hs. exact Hx.
Qed.

Lemma tagScan_cons_inv (q q' : tagState) (c : codeunit) (s : jsstr) :
  tagScan q (c :: s) = Some q' ->
  exists q1, tagStep q c = Some q1 /\ tagScan q1 s = Some q'.
Proof.
  cbn [tagScan]. destruct (tagStep q c) as [q1|]; [|discriminate].
  intros H. exists q1. split; [reflexivity | exact H].
Qed.

Lemma replaceAllFrom_safe (p : pattern) (t : template) :
  templateResets t ->
  forall s prev skip q,
    infixSafe s ->
    (skip = 0%nat -> exists q', tagScan q s = Some q') ->
    (skip <> 0%nat -> q = Text) ->
    exists q', tagScan q (replaceAllFrom p t prev skip s) = Some q'.
Proof.
  intros Ht. induction s as [|c s IH]; intros prev skip q Hs H0 H1.
  - cbn [replaceAllFrom]. destruct skip; [|eexists; reflexivity].
    destruct (pmatch p prev []) as [[caps rest]|] eqn:E; [|eexists; reflexivity].
    exists Text. apply subst_resets; [assumption|].
    eapply infixSafe_caps; eassumption.
  - destruct skip as [|k].
    + rewrite replaceAllFrom_cons.
      destruct (pmatch p prev (c :: s)) as [[caps rest]|] eqn:E.
      * assert (Hcaps : piecesSafe caps) by (eapply infixSafe_caps; eassumption).
        destruct (infixSafe_self _ Hs) as [q0 Hq0].
        apply tagScan_cons_inv in Hq0. destruct Hq0 as [q1 [Hstep Hq1]].
        destruct (length (c :: s) - length rest)%nat as [|k].
        -- rewrite tagScan_app, (subst_resets t caps q Ht Hcaps).
           cbn [tagScan]. rewrite Hstep.
           apply IH; [eapply infixSafe_tail; eassumption | | congruence].
           intros _. eexists. exact Hq1.
        -- rewrite tagScan_app, (subst_resets t caps q Ht Hcaps).
           apply IH; [eapply infixSafe_tail; eassumption | | reflexivity].
           intros _. apply infixSafe_self. eapply infixSafe_tail. eassumption.
      * destruct (H0 eq_refl) as [q' Hq'].
        apply tagScan_cons_inv in Hq'. destruct Hq' as [q1 [Hstep Hq1]].
        cbn [tagScan]. rewrite Hstep.
        apply IH; [eapply infixSafe_tail; eassumption | | congruence].
        intros _. eexists. exact Hq1.
    + cbn [replaceAllFrom]. rewrite (H1 (Nat.neq_succ_0 k)).
      apply IH; [eapply infixSafe_tail; eassumption | | reflexivity].
      intros _. apply infixSafe_self. eapply infixSafe_tail. eassumption.
Qed.

Lemma replaceAll_safe (p : pattern) (t : template) (s : jsstr) (q : tagState) :
  templateResets t -> tagScan Text s = Some q ->
  exists q', tagScan Text (replaceAll p t s) = Some q'.
Proof.
  intros Ht Hs. unfold replaceAll. apply replaceAllFrom_safe.
  - assumption.
  - eapply infixSafe_of_scan. exact Hs.
  - intros _. eexists. exact Hs.
  - intros H. contradiction.
Qed.

Ltac prove_resetting :=
  let q := fresh "q" in intros q; destruct q; reflexivity.

Ltac prove_template :=
  eexists; eexists; split; [reflexivity|]; split; [prove_resetting|];
  repeat (first [apply gtl_nil | apply gtl_cons; [prove_resetting|]]).

Lemma tImage_resets : templateResets tImage.
Proof. prove_template. Qed.
Lemma tLink_resets : templateResets tLink.
Proof. prove_template. Qed.
Lemma tStrong_resets : templateResets tStrong.
Proof. prove_template. Qed.
Lemma tEm_resets : templateResets tEm.
Proof. prove_template. Qed.
Lemma tDel_resets : templateResets tDel.
Proof. prove_template. Qed.
Lemma tCode_resets : templateResets tCode.
Proof. prove_template. Qed.

Lemma inlineMarkup_safe (s : jsstr) (q : tagState) :
  tagScan Text s = Some q -> exists q', tagScan Text (inlineMarkup s) = Some q'.
Proof.
  intros H0. unfold inlineMarkup.
  destruct (replaceAll_safe reImage tImage _ _ tImage_resets H0) as [q1 H1].
  destruct (replaceAll_safe reLink tLink _ _ tLink_resets H1) as [q2 H2].
  destruct (replaceAll_safe reBoldStar tStrong _ _ tStrong_resets H2) as [q3 H3].
  destruct (replaceAll_safe reBoldUnder tStrong _ _ tStrong_resets H3) as [q4 H4].
  destruct (replaceAll_safe reEmStar tEm _ _ tEm_resets H4) as [q5 H5].
  destruct (replaceAll_safe reEmUnder tEm _ _ tEm_resets H5) as [q6 H6].
  destruct (replaceAll_safe reDel tDel _ _ tDel_resets H6) as [q7 H7].
  exact (replaceAll_safe reCode tCode _ _ tCode_resets H7).
Qed.

Lemma escapeUnit_no_lt (c x : codeunit) : In x (escapeUnit c) -> x <> ch "<".
Proof.
  destruct (escapeUnit_cases c) as [[Hc E] | Hcases].
  - rewrite E. intros [<- | []]. unfold isHtmlSpecial in Hc.
    do 4 (apply orb_false_iff in Hc; destruct Hc as [Hc ?]).
    apply N.eqb_neq. assumption.
  - simpl in Hcases.
    repeat (destruct Hcases as [<- | Hcases];
            [intros Hin; simpl in Hin;
             repeat (destruct Hin as [<- | Hin]; [discriminate|]); contradiction|]).
    contradiction.
Qed.

Lemma escapeHtml_no_lt (s : jsstr) (x : codeunit) :
  In x (escapeHtml s) -> x <> ch "<".
Proof.
  induction s as [|c s IH]; [intros []|].
  rewrite escapeHtml_cons. intros H. apply in_app_or in H.
  destruct H as [H | H]; [eapply escapeUnit_no_lt; exact H | apply IH; exact H].
Qed.

Lemma natToString_digits_uint (d : Decimal.uint) (x : codeunit) :
  In x (str (NilEmpty.string_of_uint d)) -> x <> ch "<".
Proof.
  induction d; cbn [NilEmpty.string_of_uint str list_ascii_of_string map];
    try (intros [<- | H]; [discriminate | apply IHd; exact H]).
  intros [].
Qed.

Lemma natToString_no_lt (n : nat) (x : codeunit) :
  In x (natToString n) -> x <> ch "<".
Proof.
  unfold natToString, NilZero.string_of_uint.
  destruct (Nat.to_uint n) eqn:E; try apply natToString_digits_uint.
  intros [<- | []]. discriminate.
Qed.

Section SafeFragments.

Variable katex : jsstr -> bool -> completion jsstr.

(** What KaTeX returns holds no start of a list tag and does not end in
    [<] or [</]. *)
Hypothesis katex_safe :
  forall expression displayMode html,
    katex expression displayMode = Normal html ->
    listTagFreeClosed html = true.

Lemma listTagFreeClosed_scan (s : jsstr) :
  listTagFreeClosed s = true -> tagScan Text s = Some Text.
Proof.
  unfold listTagFreeClosed. destruct (tagScan Text s) as [[| |]|]; congruence.
Qed.

Lemma mathError_safe (trimmed : jsstr) : tagScan Text (mathError trimmed) = Some Text.
Proof.
  change (mathError trimmed)
    with ((str "<span class=" ++ quot ++ str "math-error" ++ quot ++ str ">")
          ++ escapeHtml trimmed ++ str "</span>").
  apply (resetting_app_safe _ _ _ Text Text).
  - prove_resetting.
  - prove_resetting.
  - apply tagScan_no_lt. intros x. apply escapeHtml_no_lt.
Qed.

Lemma renderMath_safe (expression : jsstr) (displayMode : bool) :
  tagScan Text (returned (renderMath katex expression displayMode)) = Some Text.
Proof.
  unfold renderMath. destruct (isEmpty (trim expression)); [reflexivity|].
  destruct (katex (trim expression) displayMode) as [html|error] eqn:E.
  - apply listTagFreeClosed_scan. eapply katex_safe. exact E.
  - apply mathError_safe.
Qed.

Lemma tagScan_Text_app (a b : jsstr) :
  tagScan Text a = Some Text -> tagScan Text b = Some Text ->
  tagScan Text (a ++ b) = Some Text.
Proof. intros Ha Hb. rewrite tagScan_app, Ha. exact Hb. Qed.

Lemma replaceInlineMathFrom_safe (n : nat) :
  forall text result buffer inMath,
    (length text <= n)%nat ->
    (forall x, In x text -> x <> ch "<") ->
    (forall x, In x buffer -> x <> ch "<") ->
    tagScan Text result = Some Text ->
    tagScan Text (replaceInlineMathFrom katex text result buffer inMath)
    = Some Text.
Proof.
  induction n as [|n IH]; intros text result buffer inMath Hlen Htext Hbuf Hres.
  - destruct text; [|simpl in Hlen; lia]. cbn [replaceInlineMathFrom].
    destruct inMath; [|assumption].
    apply tagScan_Text_app; [assumption|]. apply tagScan_no_lt.
    intros x [<- | Hx]; [discriminate | apply Hbuf; exact Hx].
  - destruct text as [|c rest].
    + cbn [replaceInlineMathFrom]. destruct inMath; [|assumption].
      apply tagScan_Text_app; [assumption|]. apply tagScan_no_lt.
      intros x [<- | Hx]; [discriminate | apply Hbuf; exact Hx].
    + simpl in Hlen. rewrite replaceInlineMathFrom_cons.
      assert (Hrest : forall x, In x rest -> x <> ch "<").
      { intros x Hx. apply Htext. right. exact Hx. }
      assert (Htl : forall x, In x (tl rest) -> x <> ch "<").
      { intros x Hx. apply Hrest. destruct rest; [exact Hx | right; exact Hx]. }
      assert (Hltl : (length (tl rest) <= n)%nat).
      { destruct rest; simpl in *; lia. }
      assert (Hc : c <> ch "<") by (apply Htext; left; reflexivity).
      destruct ((c =? BACKSLASH) && startsWith [DOLLAR] rest).
      { apply IH; try assumption.
        apply tagScan_Text_app; [assumption | reflexivity]. }
      destruct (c =? DOLLAR).
      { destruct inMath.
        - destruct (isEmpty (trim buffer)).
          + apply IH; try assumption; try lia; [intros x []|].
            apply tagScan_Text_app; [assumption|]. apply tagScan_no_lt.
            intros x [<- | Hx]; [discriminate|].
            cbn [app] in Hx. apply in_app_or in Hx. destruct Hx as [Hx | Hx];
              [apply Hbuf; exact Hx | destruct Hx as [<- | []]; discriminate].
          + apply IH; try assumption; try lia; [intros x []|].
            apply tagScan_Text_app; [assumption | apply renderMath_safe].
        - apply IH; try assumption; try lia. intros x []. }
      destruct inMath.
      * apply IH; try assumption; try lia.
        intros x Hx. apply in_app_or in Hx.
        destruct Hx as [Hx | Hx];
          [apply Hbuf; exact Hx | destruct Hx as [<- | []]; exact Hc].
      * apply IH; try assumption; try lia.
        apply tagScan_Text_app; [assumption|]. apply tagScan_no_lt.
        intros x [<- | []]. exact Hc.
Qed.

Lemma parseInline_safe (value : jsstr) :
  exists q, tagScan Text (parseInline katex value) = Some q.
Proof.
  unfold parseInline. cbv zeta. apply (inlineMarkup_safe _ Text).
  unfold replaceInlineMath.
  apply (replaceInlineMathFrom_safe (length (escapeHtml value)));
    [apply Nat.le_refl | intros x; apply escapeHtml_no_lt | intros x [] | reflexivity].
Qed.

Lemma paragraphHtml_safe (text : jsstr) :
  tagScan Text (paragraphHtml katex text) = Some Text.
Proof.
  destruct (parseInline_safe text) as [q Hq]. unfold paragraphHtml.
  apply (resetting_app_safe _ _ _ Text q); [prove_resetting | prove_resetting | exact Hq].
Qed.

Lemma itemHtml_safe (text : jsstr) :
  tagScan Text (itemHtml katex text) = Some Text.
Proof.
  destruct (parseInline_safe text) as [q Hq]. unfold itemHtml.
  apply (resetting_app_safe _ _ _ Text q); [prove_resetting | prove_resetting | exact Hq].
Qed.

Lemma heading_tag_resets (open : jsstr) (level : nat) :
  open = str "<h" \/ open = str "</h" ->
  resetting (open ++ natToString level ++ str ">").
Proof.
  intros Hopen q.
  assert (Hn : tagScan Text (natToString level ++ str ">") = Some Text).
  { apply tagScan_Text_app; [|reflexivity].
    apply tagScan_no_lt. intros x. apply natToString_no_lt. }
  destruct Hopen as [-> | ->]; destruct q; exact Hn.
Qed.

Lemma headingHtml_safe (level : nat) (text : jsstr) :
  tagScan Text (headingHtml katex level text) = Some Text.
Proof.
  destruct (parseInline_safe text) as [q Hq].
  replace (headingHtml katex level text)
    with ((str "<h" ++ natToString level ++ str ">") ++ parseInline katex text
          ++ (str "</h" ++ natToString level ++ str ">"))
    by (unfold headingHtml; rewrite <- !app_assoc; reflexivity).
  apply (resetting_app_safe _ _ _ Text q);
    [apply heading_tag_resets; auto | apply heading_tag_resets; auto | exact Hq].
Qed.

Lemma codeBlockHtml_safe (language : jsstr) (buffer : list jsstr) :
  listTagFree language = true ->
  tagScan Text (codeBlockHtml language buffer) = Some Text.
Proof.
  intros Hlang. unfold listTagFree in Hlang.
  destruct (tagScan Text language) as [q|] eqn:E; [|discriminate].
  assert (Hbody : tagScan Text (str ">" ++ escapeHtml (join nl buffer)
                               ++ str "</code></pre>") = Some Text).
  { apply (resetting_app_safe _ _ _ Text Text);
      [prove_resetting | prove_resetting |].
    apply tagScan_no_lt. intros x. apply escapeHtml_no_lt. }
  unfold codeBlockHtml. cbv zeta. destruct (isEmpty language).
  - exact Hbody.
  - replace (str "<pre><code"
             ++ (str " class=" ++ quot ++ str "language-" ++ language ++ quot)
             ++ str ">" ++ escapeHtml (join nl buffer) ++ str "</code></pre>")
      with ((str "<pre><code" ++ str " class=" ++ quot ++ str "language-")
            ++ language
            ++ (quot ++ str ">" ++ escapeHtml (join nl buffer)
                ++ str "</code></pre>"))
      by (rewrite <- !app_assoc; reflexivity).
    rewrite tagScan_app.
    replace (tagScan Text (str "<pre><code" ++ str " class=" ++ quot ++ str "language-"))
      with (Some Text) by reflexivity.
    rewrite tagScan_app, E.
    destruct q; exact Hbody.
Qed.

End SafeFragments.

(** ** The scanner closes the lists it opens *)


Lemma countFragments_app (tag : jsstr) (a b : list jsstr) :
  countFragments tag (a ++ b)
  = (countFragments tag a + countFragments tag b)%nat.
Proof.
  induction a as [|x a IH]; [reflexivity|].
  cbn [app countFragments]. rewrite IH. lia.
Qed.

Lemma countFragments_snoc (tag x : jsstr) (a : list jsstr) :
  countFragments tag (a ++ [x])
  = (countFragments tag a + (if jsstr_eqb x tag then 1 else 0))%nat.
Proof. rewrite countFragments_app. cbn [countFragments]. lia. Qed.

Section ListInvariant.

Variable katex : jsstr -> bool -> completion jsstr.

(** [F]: what is known of the fragments that are not list tags; [G]: what
    is known of the language of the open code block. *)
Variables F G : jsstr -> Prop.

Hypothesis math_other :
  forall e d, isListTag (returned (renderMath katex e d)) = false
              /\ F (returned (renderMath katex e d)).
Hypothesis code_other : forall language buffer, G language -> F (codeBlockHtml language buffer).
Hypothesis heading_other : forall level text, F (headingHtml katex level text).
Hypothesis paragraph_other : forall text, F (paragraphHtml katex text).
Hypothesis item_other : forall text, F (itemHtml katex text).
Hypothesis rule_other : F (str "<hr />").
Hypothesis quote_other : F (str "<blockquote>") /\ F (str "</blockquote>").
Hypothesis no_language : G [].


Lemma isListTag_false (x : jsstr) :
  isListTag x = false ->
  jsstr_eqb x UL = false /\ jsstr_eqb x UL_END = false
  /\ jsstr_eqb x OL = false /\ jsstr_eqb x OL_END = false.
Proof.
  unfold isListTag. intros H.
  do 3 (apply orb_false_iff in H; destruct H as [H ?]). auto.
Qed.

Lemma balanced_push (x : jsstr) (s : state) :
  isListTag x = false -> F x -> listsBalanced F G s -> listsBalanced F G (push x s).
Proof.
  intros Hx HF [H1 [H2 [H3 H4]]].
  destruct (isListTag_false x Hx) as [E1 [E2 [E3 E4]]].
  unfold listsBalanced. cbn [output push inBullet inOrdered codeLanguage].
  rewrite !countFragments_snoc, E1, E2, E3, E4, !Nat.add_0_r.
  repeat split; try assumption.
  apply Forall_app. split; [assumption|]. constructor; [|constructor].
  right. exact HF.
Qed.

Lemma balanced_setInBlockquote (b : bool) (s : state) :
  listsBalanced F G s -> listsBalanced F G (setInBlockquote b s).
Proof. intros H. exact H. Qed.

Lemma balanced_setMath (b : bool) (buffer : list jsstr) (s : state) :
  listsBalanced F G s -> listsBalanced F G (setMath b buffer s).
Proof. intros H. exact H. Qed.

Lemma balanced_setCode (b : bool) (language : jsstr) (buffer : list jsstr) (s : state) :
  G language -> listsBalanced F G s -> listsBalanced F G (setCode b language buffer s).
Proof. intros HG [H1 [H2 [H3 _]]]. repeat split; assumption. Qed.

Lemma balanced_open_ul (s : state) :
  listsBalanced F G s -> inBullet s = false ->
  listsBalanced F G (setInBullet true (push UL s)).
Proof.
  intros [H1 [H2 [H3 H4]]] Hb. unfold listsBalanced.
  cbn [output push setInBullet inBullet inOrdered codeLanguage].
  rewrite !countFragments_snoc. rewrite Hb in H1.
  replace (jsstr_eqb UL UL) with true by reflexivity.
  replace (jsstr_eqb UL UL_END) with false by reflexivity.
  replace (jsstr_eqb UL OL) with false by reflexivity.
  replace (jsstr_eqb UL OL_END) with false by reflexivity.
  cbn [openCount] in *. repeat split; try assumption; try lia.
  apply Forall_app. split; [assumption|]. constructor; [|constructor].
  left. reflexivity.
Qed.

Lemma balanced_open_ol (s : state) :
  listsBalanced F G s -> inOrdered s = false ->
  listsBalanced F G (setInOrdered true (push OL s)).
Proof.
  intros [H1 [H2 [H3 H4]]] Hb. unfold listsBalanced.
  cbn [output push setInOrdered inBullet inOrdered codeLanguage].
  rewrite !countFragments_snoc. rewrite Hb in H2.
  replace (jsstr_eqb OL UL) with false by reflexivity.
  replace (jsstr_eqb OL UL_END) with false by reflexivity.
  replace (jsstr_eqb OL OL) with true by reflexivity.
  replace (jsstr_eqb OL OL_END) with false by reflexivity.
  cbn [openCount] in *. repeat split; try assumption; try lia.
  apply Forall_app. split; [assumption|]. constructor; [|constructor].
  left. reflexivity.
Qed.

Lemma balanced_close_ul (s : state) :
  listsBalanced F G s -> inBullet s = true ->
  listsBalanced F G (setInBullet false (push UL_END s)).
Proof.
  intros [H1 [H2 [H3 H4]]] Hb. unfold listsBalanced.
  cbn [output push setInBullet inBullet inOrdered codeLanguage].
  rewrite !countFragments_snoc. rewrite Hb in H1.
  replace (jsstr_eqb UL_END UL) with false by reflexivity.
  replace (jsstr_eqb UL_END UL_END) with true by reflexivity.
  replace (jsstr_eqb UL_END OL) with false by reflexivity.
  replace (jsstr_eqb UL_END OL_END) with false by reflexivity.
  cbn [openCount] in *. repeat split; try assumption; try lia.
  apply Forall_app. split; [assumption|]. constructor; [|constructor].
  left. reflexivity.
Qed.

Lemma balanced_close_ol (s : state) :
  listsBalanced F G s -> inOrdered s = true ->
  listsBalanced F G (setInOrdered false (push OL_END s)).
Proof.
  intros [H1 [H2 [H3 H4]]] Hb. unfold listsBalanced.
  cbn [output push setInOrdered inBullet inOrdered codeLanguage].
  rewrite !countFragments_snoc. rewrite Hb in H2.
  replace (jsstr_eqb OL_END UL) with false by reflexivity.
  replace (jsstr_eqb OL_END UL_END) with false by reflexivity.
  replace (jsstr_eqb OL_END OL) with false by reflexivity.
  replace (jsstr_eqb OL_END OL_END) with true by reflexivity.
  cbn [openCount] in *. repeat split; try assumption; try lia.
  apply Forall_app. split; [assumption|]. constructor; [|constructor].
  left. reflexivity.
Qed.

Lemma balanced_closeLists (s : state) :
  listsBalanced F G s -> listsBalanced F G (closeLists s).
Proof.
  intros H. unfold closeLists.
  destruct (inBullet s) eqn:Eb.
  - pose proof (balanced_close_ul s H Eb) as H'.
    cbn [inOrdered setInBullet push].
    destruct (inOrdered s) eqn:Eo; [|exact H'].
    apply (balanced_close_ol _ H'). exact Eo.
  - destruct (inOrdered s) eqn:Eo; [|exact H].
    apply (balanced_close_ol _ H Eo).
Qed.

Lemma closeLists_flags (s : state) :
  inBullet (closeLists s) = false /\ inOrdered (closeLists s) = false.
Proof.
  unfold closeLists. destruct (inBullet s) eqn:Eb;
    cbn [inOrdered setInBullet push]; destruct (inOrdered s) eqn:Eo;
    cbn [inBullet inOrdered setInBullet setInOrdered push]; auto.
Qed.

Lemma balanced_closeBlockquote (s : state) :
  listsBalanced F G s -> listsBalanced F G (closeBlockquote s).
Proof.
  intros H. unfold closeBlockquote. destruct (inBlockquote s); [|exact H].
  apply balanced_setInBlockquote. apply balanced_push;
    [reflexivity | apply quote_other | exact H].
Qed.

Lemma closeBlockquote_flags (s : state) :
  inBullet (closeBlockquote s) = inBullet s
  /\ inOrdered (closeBlockquote s) = inOrdered s.
Proof. unfold closeBlockquote. destruct (inBlockquote s); auto. Qed.

Lemma balanced_flushCodeBlock (s : state) :
  listsBalanced F G s -> listsBalanced F G (flushCodeBlock s).
Proof.
  intros H. unfold flushCodeBlock. destruct (negb (inCode s)); [exact H|].
  apply balanced_setCode; [exact no_language|].
  apply balanced_push; [reflexivity | | exact H].
  apply code_other. apply H.
Qed.

Lemma balanced_flushMathBlock (s : state) :
  listsBalanced F G s -> listsBalanced F G (flushMathBlock katex s).
Proof.
  intros H. unfold flushMathBlock. destruct (negb (inMathBlock s)); [exact H|].
  cbv zeta. apply balanced_setMath.
  destruct (isEmpty (trim (join nl (mathBuffer s)))); [exact H|].
  apply balanced_push; [apply math_other | apply math_other | exact H].
Qed.

Lemma closed_after_closing (s : state) :
  inBullet (closeBlockquote (closeLists s)) = false
  /\ inOrdered (closeBlockquote (closeLists s)) = false.
Proof.
  destruct (closeBlockquote_flags (closeLists s)) as [-> ->].
  apply closeLists_flags.
Qed.

Lemma balanced_processLine (s : state) (line : jsstr) :
  (isFenceLine line = true -> G (trim (sliceFrom 3 (trim line)))) ->
  listsBalanced F G s -> listsBalanced F G (processLine katex s line).
Proof.
  intros Hfence H.
  pose proof (balanced_closeLists s H) as HL.
  pose proof (balanced_closeBlockquote _ HL) as HQ.
  pose proof (balanced_flushCodeBlock _ HQ) as HC.
  pose proof (balanced_flushMathBlock _ HQ) as HM.
  pose proof (closed_after_closing s) as [Hb Ho].
  unfold processLine. cbv zeta. fold (isFenceLine line).
  destruct (isFenceLine line) eqn:Efence.
  { destruct (inCode s).
    - apply balanced_flushCodeBlock. exact H.
    - apply balanced_setCode; [apply Hfence; reflexivity | exact HM]. }
  destruct (inCode s).
  { apply balanced_setCode; [apply H | exact H]. }
  destruct (startsWith DD (trim line)).
  { destruct (inMathBlock (flushCodeBlock (closeBlockquote (closeLists s)))).
    - match goal with
      | |- listsBalanced F G (if _ then flushMathBlock katex ?s2 else ?s2) =>
          assert (H2 : listsBalanced F G s2)
      end.
      { destruct (isEmpty _); [exact HC | apply balanced_setMath; exact HC]. }
      destruct (_ || _); [apply balanced_flushMathBlock|]; exact H2.
    - destruct (jsstr_eqb (trim line) DD); [apply balanced_setMath; exact HC|].
      destruct (endsWith DD (trim line)).
      + destruct (isEmpty _); [exact HC|].
        apply balanced_push; [apply math_other | apply math_other | exact HC].
      + apply balanced_setMath. exact HC. }
  destruct (inMathBlock s).
  { destruct (endsWith DD (trim line)).
    - apply balanced_flushMathBlock.
      destruct (isEmpty _); [exact H | apply balanced_setMath; exact H].
    - apply balanced_setMath. exact H. }
  destruct (isEmpty (trim line)).
  { apply balanced_flushMathBlock. exact HC. }
  destruct (matchStart reHeading (trim line)) as [[headingMatch rest]|].
  { apply balanced_push; [reflexivity | apply heading_other | exact HQ]. }
  destruct (testRule (trim line)).
  { apply balanced_push; [reflexivity | apply rule_other | exact HQ]. }
  destruct (testStart reQuote (trim line)).
  { apply balanced_push; [reflexivity | apply paragraph_other |].
    destruct (negb (inBlockquote (closeLists s))); [|exact HL].
    apply balanced_setInBlockquote.
    apply balanced_push; [reflexivity | apply quote_other | exact HL]. }
  destruct (testStart reOrdered (trim line)).
  { apply balanced_push; [reflexivity | apply item_other |].
    destruct (negb (inOrdered s)); [|exact H].
    apply (balanced_open_ol _ HQ Ho). }
  destruct (testStart reBullet (trim line)).
  { apply balanced_push; [reflexivity | apply item_other |].
    destruct (negb (inBullet s)); [|exact H].
    apply (balanced_open_ul _ HQ Hb). }
  apply balanced_push; [reflexivity | apply paragraph_other | exact HQ].
Qed.

Lemma balanced_scan (lines : list jsstr) :
  forall s,
    Forall (fun line => isFenceLine line = true ->
                        G (trim (sliceFrom 3 (trim line)))) lines ->
    listsBalanced F G s ->
    listsBalanced F G (fold_left (processLine katex) lines s).
Proof.
  induction lines as [|line lines IH]; intros s Hlines H; [exact H|].
  inversion Hlines as [|? ? Hline Hrest]; subst. cbn [fold_left].
  apply IH; [exact Hrest|]. apply balanced_processLine; assumption.
Qed.

Lemma balanced_finish (s : state) :
  listsBalanced F G s ->
  listsBalanced F G (finish katex s)
  /\ inBullet (finish katex s) = false /\ inOrdered (finish katex s) = false.
Proof.
  intros H. unfold finish. split.
  - apply balanced_closeBlockquote, balanced_closeLists,
      balanced_flushMathBlock, balanced_flushCodeBlock. exact H.
  - apply closed_after_closing.
Qed.

Lemma balanced_initial : listsBalanced F G initialState.
Proof. repeat split; [constructor | exact no_language]. Qed.

(** The fragments of a whole document. *)
Lemma balanced_document (lines : list jsstr) :
  Forall (fun line => isFenceLine line = true ->
                      G (trim (sliceFrom 3 (trim line)))) lines ->
  countFragments UL (output (finish katex (scanLines katex lines)))
  = countFragments UL_END (output (finish katex (scanLines katex lines)))
  /\ countFragments OL (output (finish katex (scanLines katex lines)))
     = countFragments OL_END (output (finish katex (scanLines katex lines)))
  /\ Forall (fragmentOk F) (output (finish katex (scanLines katex lines))).
Proof.
  intros Hlines.
  destruct (balanced_finish (scanLines katex lines)) as [[H1 [H2 [H3 _]]] [Hb Ho]].
  { apply balanced_scan; [exact Hlines | apply balanced_initial]. }
  rewrite Hb in H1. rewrite Ho in H2. cbn [openCount] in *.
  rewrite Nat.add_0_r in H1, H2. auto.
Qed.

End ListInvariant.

(** ** Occurrences of a tag in the joined output *)

Lemma startsWith_app_inv (p s : jsstr) :
  startsWith p s = true -> exists r, s = p ++ r.
Proof.
  revert s. induction p as [|a p IH]; intros s H; [exists s; reflexivity|].
  destruct s as [|b s]; [discriminate|]. cbn [startsWith] in H.
  apply andb_true_iff in H. destruct H as [Hab H].
  apply N.eqb_eq in Hab. subst b. destruct (IH s H) as [r ->].
  exists r. reflexivity.
Qed.

Lemma jsstr_eqb_eq (a b : jsstr) : jsstr_eqb a b = true -> a = b.
Proof.
  revert b. induction a as [|x a IH]; intros [|y b] H; try discriminate;
    [reflexivity|].
  cbn [jsstr_eqb] in H. apply andb_true_iff in H. destruct H as [Hxy H].
  apply N.eqb_eq in Hxy. subst y. f_equal. apply IH. exact H.
Qed.

Lemma startsWith_before_newline (tag : jsstr) :
  ~ In LF tag ->
  forall a b, startsWith tag (a ++ LF :: b) = startsWith tag a.
Proof.
  induction tag as [|t tag IH]; intros Hno a b; [destruct a; reflexivity|].
  destruct a as [|x a]; cbn [app startsWith].
  - replace (t =? LF) with false; [reflexivity|].
    symmetry. apply N.eqb_neq. intros E. apply Hno. left. exact E.
  - rewrite IH; [reflexivity|]. intros Hin. apply Hno. right. exact Hin.
Qed.

Lemma occurrences_across_newline (tag a b : jsstr) :
  ~ In LF tag ->
  occurrences tag (a ++ nl ++ b)
  = (occurrences tag a + occurrences tag b)%nat.
Proof.
  intros Hno. change (nl ++ b) with (LF :: b).
  induction a as [|x a IH].
  - pose proof (startsWith_before_newline tag Hno [] b) as E.
    cbn [app] in *. cbn [occurrences]. rewrite E. lia.
  - pose proof (startsWith_before_newline tag Hno (x :: a) b) as E.
    cbn [app] in *. cbn [occurrences]. rewrite E, IH. lia.
Qed.


Lemma occurrences_join (tag : jsstr) (fragments : list jsstr) :
  ~ In LF tag -> tag <> [] ->
  occurrences tag (join nl fragments) = totalOccurrences tag fragments.
Proof.
  intros Hno Hne. induction fragments as [|x rest IH].
  - destruct tag; [contradiction | reflexivity].
  - destruct rest as [|y rest].
    + cbn [join totalOccurrences]. lia.
    + change (join nl (x :: y :: rest)) with (x ++ nl ++ join nl (y :: rest)).
      rewrite occurrences_across_newline by assumption.
      rewrite IH. reflexivity.
Qed.


Lemma tagScan_list_tag (tag r : jsstr) (q : tagState) :
  isListTagText tag -> tagScan q (tag ++ r) = None.
Proof.
  intros [-> | [-> | [-> | ->]]]; rewrite tagScan_app; destruct q; reflexivity.
Qed.

(** Text that survives the scan holds no list tag. *)
Lemma occurrences_safe (tag s : jsstr) :
  isListTagText tag ->
  forall q q', tagScan q s = Some q' -> occurrences tag s = 0%nat.
Proof.
  intros Htag. induction s as [|c s IH]; intros q q' H.
  - destruct Htag as [-> | [-> | [-> | ->]]]; reflexivity.
  - cbn [occurrences].
    destruct (startsWith tag (c :: s)) eqn:E.
    + apply startsWith_app_inv in E. destruct E as [r E].
      rewrite E, (tagScan_list_tag tag r q Htag) in H. discriminate.
    + apply tagScan_cons_inv in H. destruct H as [q1 [_ H]].
      rewrite (IH _ _ H). reflexivity.
Qed.

Lemma isListTag_text (x : jsstr) : isListTag x = true -> isListTagText x.
Proof.
  unfold isListTag, isListTagText. intros H.
  apply orb_true_iff in H. destruct H as [H | H]; [|auto using jsstr_eqb_eq].
  apply orb_true_iff in H. destruct H as [H | H]; [|auto using jsstr_eqb_eq].
  apply orb_true_iff in H. destruct H as [H | H]; auto using jsstr_eqb_eq.
Qed.

Lemma occurrences_fragment (tag x : jsstr) :
  isListTagText tag ->
  isListTag x = true \/ (exists q, tagScan Text x = Some q) ->
  occurrences tag x = if jsstr_eqb x tag then 1%nat else 0%nat.
Proof.
  intros Htag [Hx | [q Hq]].
  - apply isListTag_text in Hx.
    destruct Htag as [-> | [-> | [-> | ->]]];
      destruct Hx as [-> | [-> | [-> | ->]]]; reflexivity.
  - rewrite (occurrences_safe tag x Htag _ _ Hq).
    destruct (jsstr_eqb x tag) eqn:E; [|reflexivity].
    apply jsstr_eqb_eq in E. subst x.
    rewrite <- (app_nil_r tag) in Hq.
    rewrite (tagScan_list_tag tag [] Text Htag) in Hq. discriminate.
Qed.

Lemma totalOccurrences_count (tag : jsstr) (fragments : list jsstr) :
  isListTagText tag ->
  Forall (fun x => isListTag x = true \/ (exists q, tagScan Text x = Some q))
    fragments ->
  totalOccurrences tag fragments = countFragments tag fragments.
Proof.
  intros Htag H. induction H as [|x rest Hx _ IH]; [reflexivity|].
  cbn [totalOccurrences countFragments].
  rewrite (occurrences_fragment tag x Htag Hx), IH. reflexivity.
Qed.

(** ** List tags of a document *)

Lemma isListTag_renderMath (katex : jsstr -> bool -> completion jsstr) :
  (forall e d html, katex e d = Normal html -> isListTag html = false) ->
  forall e d, isListTag (returned (renderMath katex e d)) = false.
Proof.
  intros Hk e d. unfold renderMath.
  destruct (isEmpty (trim e)); [reflexivity|].
  destruct (katex (trim e) d) as [html|error] eqn:E; [|reflexivity].
  apply (Hk _ _ _ E).
Qed.

Lemma fragments_balanced (katex : jsstr -> bool -> completion jsstr) (raw : jsstr) :
  (forall e d html, katex e d = Normal html -> isListTag html = false) ->
  countFragments UL (documentFragments katex raw)
  = countFragments UL_END (documentFragments katex raw)
  /\ countFragments OL (documentFragments katex raw)
     = countFragments OL_END (documentFragments katex raw).
Proof.
  intros Hk.
  destruct (balanced_document katex (fun _ => True) (fun _ => True))
    with (lines := documentLines raw) as [H1 [H2 _]]; auto.
  - intros e d. split; [apply isListTag_renderMath; exact Hk | exact I].
  - apply Forall_forall. intros. exact I.
Qed.

Lemma safe_not_list_tag (x : jsstr) (q : tagState) :
  tagScan Text x = Some q -> isListTag x = false.
Proof.
  intros H. destruct (isListTag x) eqn:E; [|reflexivity].
  apply isListTag_text in E. rewrite <- (app_nil_r x) in H.
  rewrite (tagScan_list_tag x [] Text E) in H. discriminate.
Qed.

Lemma occurrences_balanced (katex : jsstr -> bool -> completion jsstr) (raw : jsstr) :
  (forall e d html, katex e d = Normal html -> listTagFreeClosed html = true) ->
  Forall (fun line => fenceInfoOk line = true) (documentLines raw) ->
  occurrences UL (convertMarkdown katex raw)
  = occurrences UL_END (convertMarkdown katex raw)
  /\ occurrences OL (convertMarkdown katex raw)
     = occurrences OL_END (convertMarkdown katex raw).
Proof.
  intros Hk Hlines.
  destruct (balanced_document katex
              (fun x => exists q, tagScan Text x = Some q)
              (fun l => listTagFree l = true))
    with (lines := documentLines raw) as [H1 [H2 H3]].
  - intros e d. pose proof (renderMath_safe katex Hk e d) as H.
    split; [eapply safe_not_list_tag; exact H | eexists; exact H].
  - intros language buffer Hl. eexists.
    apply codeBlockHtml_safe. exact Hl.
  - intros level text. eexists. apply headingHtml_safe. exact Hk.
  - intros text. eexists. apply paragraphHtml_safe. exact Hk.
  - intros text. eexists. apply itemHtml_safe. exact Hk.
  - exists Text. reflexivity.
  - split; exists Text; reflexivity.
  - reflexivity.
  - eapply Forall_impl; [|exact Hlines]. intros line Hok Hfence.
    unfold fenceInfoOk in Hok. rewrite Hfence in Hok. exact Hok.
  - change (convertMarkdown katex raw) with (join nl (documentFragments katex raw)).
    fold (documentFragments katex raw) in H1, H2, H3.
    rewrite !occurrences_join by (try discriminate; simpl; intuition discriminate).
    rewrite !(totalOccurrences_count _ _) by (unfold isListTagText; auto).
    auto.
Qed.

(** C3 as stated fails: the info string of a fence is written into the
    [class] attribute as it is, so it can put a [<ul>] into the output
    that nothing closes. *)
Lemma fence_info_string_adds_an_unclosed_list_tag :
  convertMarkdown (fun _ _ => Throw [])
    (str "```" ++ quot ++ str "><ul>" ++ nl ++ str "```")
  = str "<pre><code class=" ++ quot ++ str "language-" ++ quot ++ str "><ul>"
    ++ quot ++ str "></code></pre>"
  /\ occurrences UL
       (convertMarkdown (fun _ _ => Throw [])
          (str "```" ++ quot ++ str "><ul>" ++ nl ++ str "```")) = 1%nat
  /\ occurrences UL_END
       (convertMarkdown (fun _ _ => Throw [])
          (str "```" ++ quot ++ str "><ul>" ++ nl ++ str "```")) = 0%nat.
Proof. split; [|split]; vm_compute; reflexivity. Qed.


(** * Further properties of the renderer *)

(** ** escapeHtml *)

Lemma escapeUnit_spec (c : codeunit) :
  (isHtmlSpecial c = false /\ escapeUnit c = [c])
  \/ (c = ch "&" /\ escapeUnit c = str "&amp;")
  \/ (c = ch "<" /\ escapeUnit c = str "&lt;")
  \/ (c = ch ">" /\ escapeUnit c = str "&gt;")
  \/ (c = 34 /\ escapeUnit c = str "&quot;")
  \/ (c = ch "'" /\ escapeUnit c = str "&#39;").
Proof.
  unfold escapeUnit, isHtmlSpecial.
  destruct (N.eqb_spec c (ch "&")) as [-> | _]; [right; left; split; reflexivity|].
  destruct (N.eqb_spec c (ch "<")) as [-> | _];
    [right; right; left; split; reflexivity|].
  destruct (N.eqb_spec c (ch ">")) as [-> | _];
    [right; right; right; left; split; reflexivity|].
  destruct (N.eqb_spec c 34) as [-> | _];
    [right; right; right; right; left; split; reflexivity|].
  destruct (N.eqb_spec c (ch "'")) as [-> | _];
    [right; right; right; right; right; split; reflexivity|].
  left. split; reflexivity.
Qed.

Ltac escape_spec c :=
  let H := fresh "Hplain" in
  let E := fresh "Eunit" in
  destruct (escapeUnit_spec c)
    as [[H E] | [[-> E] | [[-> E] | [[-> E] | [[-> E] | [-> E]]]]]];
  rewrite E in *; clear E.

Lemma escapeUnit_no_markup (c x : codeunit) :
  In x (escapeUnit c) ->
  x <> ch "<" /\ x <> ch ">" /\ x <> 34 /\ x <> ch "'".
Proof.
  intros Hin. escape_spec c.
  - destruct Hin as [<- | []]. unfold isHtmlSpecial in Hplain.
    do 4 (apply orb_false_iff in Hplain; destruct Hplain as [Hplain ?]).
    repeat split; apply N.eqb_neq; assumption.
  - simpl in Hin.
    repeat (destruct Hin as [<- | Hin]; [repeat split; discriminate|]).
    contradiction.
  - simpl in Hin.
    repeat (destruct Hin as [<- | Hin]; [repeat split; discriminate|]).
    contradiction.
  - simpl in Hin.
    repeat (destruct Hin as [<- | Hin]; [repeat split; discriminate|]).
    contradiction.
  - simpl in Hin.
    repeat (destruct Hin as [<- | Hin]; [repeat split; discriminate|]).
    contradiction.
  - simpl in Hin.
    repeat (destruct Hin as [<- | Hin]; [repeat split; discriminate|]).
    contradiction.
Qed.

Lemma escapeUnit_app_inj (c d : codeunit) (r r' : jsstr) :
  escapeUnit c ++ r = escapeUnit d ++ r' -> c = d /\ r = r'.
Proof.
  intros H. escape_spec c; escape_spec d;
    try (injection H as ? ?; subst; split; reflexivity);
    try (cbn in H; injection H; intros; subst; split; reflexivity);
    try (cbn in H; injection H; intros; subst; discriminate);
    try discriminate.
Qed.

Lemma escapeHtml_inj (a : jsstr) :
  forall b, escapeHtml a = escapeHtml b -> a = b.
Proof.
  induction a as [|c a IH]; intros b H.
  - symmetry. apply escapeHtml_nil_inv. symmetry. exact H.
  - destruct b as [|d b].
    + apply escapeHtml_nil_inv in H. discriminate.
    + rewrite !escapeHtml_cons in H. apply escapeUnit_app_inj in H.
      destruct H as [-> H]. f_equal. apply IH. exact H.
Qed.

(** X1: the five replacements of [escapeHtml] act as one pass over the code
    units: each of [&], [<], [>], the double quote and ['] becomes its
    entity, every other code unit stays, and what an earlier replacement
    wrote is not escaped again; so escaping a concatenation is escaping
    its parts. *)
Theorem escapeHtml_is_one_pass (value other : jsstr) :
  escapeHtml value
  = flat_map (fun c =>
                if c =? ch "&" then str "&amp;"
                else if c =? ch "<" then str "&lt;"
                else if c =? ch ">" then str "&gt;"
                else if c =? 34 then str "&quot;"
                else if c =? ch "'" then str "&#39;"
                else [c]) value
  /\ escapeHtml (value ++ other) = escapeHtml value ++ escapeHtml other.
Proof.
  split.
  - apply escapeHtml_flat_map.
  - apply escapeHtml_app.
Qed.

(** X2: the output of [escapeHtml] holds no [<], no [>], no double quote
    and no [']. *)
Theorem escapeHtml_output_has_no_markup (value : jsstr) (x : codeunit) :
  In x (escapeHtml value) ->
  x <> ch "<" /\ x <> ch ">" /\ x <> 34 /\ x <> ch "'".
Proof.
  induction value as [|c value IH]; [intros []|].
  rewrite escapeHtml_cons. intros H. apply in_app_or in H.
  destruct H as [H | H]; [eapply escapeUnit_no_markup; exact H | apply IH; exact H].
Qed.

Lemma escapeHtml_output_has_no_markup_witness :
  ch "t" <> ch "<" /\ ch "t" <> ch ">" /\ ch "t" <> 34 /\ ch "t" <> ch "'".
Proof.
  apply (escapeHtml_output_has_no_markup (str "<a href='x'>") (ch "t")).
  vm_compute. tauto.
Defined.

(** X3: [escapeHtml] loses nothing: two texts with the same escaped form
    are the same text. *)
Theorem escapeHtml_is_injective (a b : jsstr) :
  escapeHtml a = escapeHtml b -> a = b.
Proof. apply escapeHtml_inj. Qed.

Lemma escapeHtml_is_injective_witness : str "a<b" = str "a<b".
Proof.
  apply (escapeHtml_is_injective (str "a<b") (str "a<b")). reflexivity.
Defined.

(** ** Dollars that are not math *)

Lemma trimEnd_nil_whitespace (s : jsstr) :
  trimEnd s = [] -> forall x, In x s -> isWhiteSpace x = true.
Proof.
  induction s as [|c s IH]; intros H x Hin; [contradiction|].
  cbn [trimEnd] in H. destruct (trimEnd s) as [|d t]; [|discriminate].
  destruct (isWhiteSpace c) eqn:W; [|discriminate].
  destruct Hin as [<- | Hin]; [exact W | apply IH; [reflexivity | exact Hin]].
Qed.

Lemma trim_nil_whitespace (s : jsstr) :
  trim s = [] -> forall x, In x s -> isWhiteSpace x = true.
Proof.
  unfold trim. induction s as [|c s IH]; intros H x Hin; [contradiction|].
  cbn [trimStart] in H. destruct (isWhiteSpace c) eqn:W.
  - destruct Hin as [<- | Hin]; [exact W | apply IH; assumption].
  - apply (trimEnd_nil_whitespace (c :: s) H x Hin).
Qed.


Section LiteralDollars.

Variable katex : jsstr -> bool -> completion jsstr.




End LiteralDollars.




(** ** What the math renderer is asked *)

Section RendererAgreement.

Variables katex1 katex2 : jsstr -> bool -> completion jsstr.

Hypothesis agree :
  forall expression displayMode,
    expression <> [] -> trim expression = expression ->
    katex1 expression displayMode = katex2 expression displayMode.

Lemma renderMath_agree (expression : jsstr) (displayMode : bool) :
  renderMath katex1 expression displayMode
  = renderMath katex2 expression displayMode.
Proof.
  unfold renderMath. destruct (trim expression) as [|c t] eqn:E; [reflexivity|].
  cbn [isEmpty]. rewrite agree; [reflexivity | discriminate |].
  rewrite <- E. apply trim_idempotent.
Qed.

Lemma replaceInlineMathFrom_agree (n : nat) :
  forall text result buffer inMath,
    (length text <= n)%nat ->
    replaceInlineMathFrom katex1 text result buffer inMath
    = replaceInlineMathFrom katex2 text result buffer inMath.
Proof.
  induction n as [|n IH]; intros text result buffer inMath Hlen.
  - destruct text; [reflexivity | simpl in Hlen; lia].
  - destruct text as [|c rest]; [reflexivity|].
    simpl in Hlen. rewrite !replaceInlineMathFrom_cons.
    assert (Htl : (length (tl rest) <= n)%nat).
    { destruct rest; simpl in *; lia. }
    assert (Hrest : (length rest <= n)%nat) by lia.
    rewrite renderMath_agree.
    rewrite (IH (tl rest)) by assumption.
    rewrite !(IH rest) by assumption.
    reflexivity.
Qed.

Lemma parseInline_agree (value : jsstr) :
  parseInline katex1 value = parseInline katex2 value.
Proof.
  unfold parseInline, replaceInlineMath. cbv zeta.
  rewrite (replaceInlineMathFrom_agree (length (escapeHtml value)))
    by apply Nat.le_refl.
  reflexivity.
Qed.

Lemma flushMathBlock_agree (s : state) :
  flushMathBlock katex1 s = flushMathBlock katex2 s.
Proof. unfold flushMathBlock. rewrite renderMath_agree. reflexivity. Qed.

Lemma processLine_agree (s : state) (line : jsstr) :
  processLine katex1 s line = processLine katex2 s line.
Proof.
  unfold processLine, headingHtml, paragraphHtml, itemHtml. cbv zeta.
  rewrite !flushMathBlock_agree.
  rewrite renderMath_agree.
  rewrite !parseInline_agree.
  destruct (matchStart reHeading (trim line)) as [[headingMatch rest]|];
    [rewrite parseInline_agree|]; reflexivity.
Qed.

Lemma scan_agree (lines : list jsstr) :
  forall s,
    fold_left (processLine katex1) lines s
    = fold_left (processLine katex2) lines s.
Proof.
  induction lines as [|line lines IH]; intros s; [reflexivity|].
  cbn [fold_left]. rewrite processLine_agree. apply IH.
Qed.

Lemma convertLines_agree (lines : list jsstr) :
  convertLines katex1 lines = convertLines katex2 lines.
Proof.
  unfold convertLines, scanLines, finish.
  rewrite flushMathBlock_agree, scan_agree. reflexivity.
Qed.

End RendererAgreement.

(** X5: the math renderer is only ever asked for expressions that are not
    empty and carry no white space at either end: two renderers that agree
    on such expressions give the same rendering of every fragment and of
    every document. *)
Theorem renderer_sees_only_trimmed_expressions
  (katex1 katex2 : jsstr -> bool -> completion jsstr) :
  (forall expression displayMode,
      expression <> [] -> trim expression = expression ->
      katex1 expression displayMode = katex2 expression displayMode) ->
  (forall expression displayMode,
      renderMath katex1 expression displayMode
      = renderMath katex2 expression displayMode)
  /\ (forall value, parseInline katex1 value = parseInline katex2 value)
  /\ (forall raw, convertMarkdown katex1 raw = convertMarkdown katex2 raw).
Proof.
  intros H. split; [|split].
  - apply renderMath_agree. exact H.
  - apply parseInline_agree. exact H.
  - intros raw. unfold convertMarkdown. apply convertLines_agree. exact H.
Qed.

Lemma renderer_sees_only_trimmed_expressions_witness :
  convertMarkdown (fun e _ => Normal e) (str "a $ x $ b")
  = convertMarkdown
      (fun e _ => if isEmpty e then Throw [] else Normal (trim e))
      (str "a $ x $ b").
Proof.
  refine (proj2 (proj2 (renderer_sees_only_trimmed_expressions
                          (fun e _ => Normal e)
                          (fun e _ => if isEmpty e then Throw [] else Normal (trim e))
                          _))
            (str "a $ x $ b")).
  intros e d Hne Htrim. destruct e as [|c t]; [contradiction|].
  cbn [isEmpty]. rewrite Htrim. reflexivity.
Defined.

(** ** Line endings *)

Lemma pmatch_reNewline (prev : option codeunit) (s : jsstr) :
  pmatch reNewline prev s
  = match s with
    | c :: s' =>
        if CR =? c
        then Some ([], match s' with
                       | d :: s'' => if LF =? d then s'' else s'
                       | [] => []
                       end)
        else None
    | [] => None
    end.
Proof.
  destruct s as [|c s']; [reflexivity|].
  unfold reNewline, lit. cbn [pmatch]. destruct (CR =? c); [|reflexivity].
  unfold greedyMax. destruct s' as [|d s'']; [reflexivity|].
  cbn [spanLen]. destruct (LF =? d); reflexivity.
Qed.

Lemma normalizeNewlines_cons (c : codeunit) (s' : jsstr) :
  normalizeNewlines (c :: s')
  = if CR =? c then
      LF :: match s' with
            | d :: s'' => if LF =? d then normalizeNewlines s''
                          else normalizeNewlines s'
            | [] => []
            end
    else c :: normalizeNewlines s'.
Proof. reflexivity. Qed.

Lemma replaceAllFrom_newlines (n : nat) :
  forall s prev,
    (length s <= n)%nat ->
    replaceAllFrom reNewline [TLit nl] prev 0 s = normalizeNewlines s.
Proof.
  induction n as [|n IH]; intros s prev Hlen.
  - destruct s; [reflexivity | simpl in Hlen; lia].
  - destruct s as [|c s']; [reflexivity|].
    simpl in Hlen. rewrite replaceAllFrom_cons, pmatch_reNewline.
    rewrite normalizeNewlines_cons.
    destruct (CR =? c).
    + destruct s' as [|d s''].
      * reflexivity.
      * destruct (LF =? d).
        -- replace (length (c :: d :: s'') - length s'')%nat with 2%nat
             by (cbn [length]; lia).
           cbn [subst flat_map app nl replaceAllFrom]. unfold nl, LF. f_equal.
           apply IH. simpl in Hlen. lia.
        -- replace (length (c :: d :: s'') - length (d :: s''))%nat with 1%nat
             by (cbn [length]; lia).
           cbn [subst flat_map app nl]. unfold nl, LF. f_equal.
           apply IH. lia.
    + f_equal. apply IH. lia.
Qed.

Lemma replaceAll_newlines (raw : jsstr) :
  replaceAll reNewline [TLit nl] raw = normalizeNewlines raw.
Proof. apply (replaceAllFrom_newlines (length raw)). apply Nat.le_refl. Qed.

Lemma normalizeNewlines_no_CR (n : nat) :
  forall s, (length s <= n)%nat -> forall x, In x (normalizeNewlines s) -> x <> CR.
Proof.
  induction n as [|n IH]; intros s Hlen x Hin.
  - destruct s; [contradiction | simpl in Hlen; lia].
  - destruct s as [|c s']; [contradiction|].
    simpl in Hlen. rewrite normalizeNewlines_cons in Hin.
    destruct (N.eqb_spec CR c) as [E | E].
    + destruct Hin as [<- | Hin]; [discriminate|].
      destruct s' as [|d s'']; [contradiction|].
      destruct (LF =? d); (eapply IH; [|exact Hin]); simpl in *; lia.
    + destruct Hin as [<- | Hin]; [congruence|].
      eapply IH; [|exact Hin]. lia.
Qed.

Lemma normalizeNewlines_app (a b : jsstr) :
  (forall x, In x a -> x <> CR) ->
  normalizeNewlines (a ++ b) = a ++ normalizeNewlines b.
Proof.
  induction a as [|c a IH]; intros H; [reflexivity|].
  cbn [app]. rewrite normalizeNewlines_cons.
  replace (CR =? c) with false
    by (symmetry; apply N.eqb_neq; intros E; apply (H c); [left|]; congruence).
  f_equal. apply IH. intros x Hx. apply H. right. exact Hx.
Qed.

Lemma join_head_not_LF (sep : jsstr) (lines : list jsstr) :
  Forall noLineBreak lines -> (forall x, In x sep -> x <> LF) ->
  match join sep lines with
  | d :: _ => (LF =? d) = false
  | [] => True
  end.
Proof.
  intros Hlines Hsep.
  assert (Hall : forall x, In x (join sep lines) -> x <> LF).
  { induction Hlines as [|l rest Hl _ IH]; [intros x []|].
    intros x Hx. destruct rest as [|y rest].
    - apply (Hl x Hx).
    - change (join sep (l :: y :: rest)) with (l ++ sep ++ join sep (y :: rest)) in Hx.
      apply in_app_or in Hx. destruct Hx as [Hx | Hx]; [apply (Hl x Hx)|].
      apply in_app_or in Hx. destruct Hx as [Hx | Hx]; [apply Hsep; exact Hx|].
      apply IH. exact Hx. }
  destruct (join sep lines) as [|d t]; [exact I|].
  apply N.eqb_neq. intros E. apply (Hall d); [left; reflexivity | congruence].
Qed.

Lemma normalizeNewlines_join_crlf (lines : list jsstr) :
  Forall noLineBreak lines ->
  normalizeNewlines (join (cr ++ nl) lines) = join nl lines.
Proof.
  intros H. induction H as [|l rest Hl Hrest IH]; [reflexivity|].
  destruct rest as [|y rest].
  - cbn [join]. rewrite <- (app_nil_r l) at 1.
    rewrite normalizeNewlines_app by (intros x Hx; apply (Hl x Hx)).
    cbn [normalizeNewlines]. apply app_nil_r.
  - change (join (cr ++ nl) (l :: y :: rest))
      with (l ++ CR :: LF :: join (cr ++ nl) (y :: rest)).
    change (join nl (l :: y :: rest)) with (l ++ LF :: join nl (y :: rest)).
    rewrite normalizeNewlines_app by (intros x Hx; apply (Hl x Hx)).
    rewrite normalizeNewlines_cons. rewrite !N.eqb_refl. rewrite IH.
    reflexivity.
Qed.

Lemma normalizeNewlines_join_cr (lines : list jsstr) :
  Forall noLineBreak lines ->
  normalizeNewlines (join cr lines) = join nl lines.
Proof.
  intros H. induction H as [|l rest Hl Hrest IH]; [reflexivity|].
  destruct rest as [|y rest].
  - cbn [join]. rewrite <- (app_nil_r l) at 1.
    rewrite normalizeNewlines_app by (intros x Hx; apply (Hl x Hx)).
    cbn [normalizeNewlines]. apply app_nil_r.
  - change (join cr (l :: y :: rest)) with (l ++ CR :: join cr (y :: rest)).
    change (join nl (l :: y :: rest)) with (l ++ LF :: join nl (y :: rest)).
    rewrite normalizeNewlines_app by (intros x Hx; apply (Hl x Hx)).
    rewrite normalizeNewlines_cons. rewrite N.eqb_refl.
    pose proof (join_head_not_LF cr (y :: rest) Hrest) as Hhead.
    destruct (join cr (y :: rest)) as [|d t] eqn:E.
    + rewrite <- IH. reflexivity.
    + rewrite Hhead by (intros x [<- | []]; discriminate).
      rewrite IH. reflexivity.
Qed.

Lemma normalizeNewlines_join_lf (lines : list jsstr) :
  Forall noLineBreak lines ->
  normalizeNewlines (join nl lines) = join nl lines.
Proof.
  intros H. induction H as [|l rest Hl Hrest IH]; [reflexivity|].
  destruct rest as [|y rest].
  - cbn [join]. rewrite <- (app_nil_r l) at 1.
    rewrite normalizeNewlines_app by (intros x Hx; apply (Hl x Hx)).
    cbn [normalizeNewlines]. apply app_nil_r.
  - change (join nl (l :: y :: rest)) with (l ++ LF :: join nl (y :: rest)).
    rewrite normalizeNewlines_app by (intros x Hx; apply (Hl x Hx)).
    rewrite normalizeNewlines_cons.
    replace (CR =? LF) with false by reflexivity.
    rewrite IH. reflexivity.
Qed.

Lemma splitLines_app (a b : jsstr) :
  (forall x, In x a -> x <> LF) ->
  splitLines (a ++ LF :: b) = a :: splitLines b.
Proof.
  induction a as [|c a IH]; intros H.
  - cbn [app splitLines]. rewrite N.eqb_refl. reflexivity.
  - cbn [app splitLines].
    replace (c =? LF) with false
      by (symmetry; apply N.eqb_neq; apply H; left; reflexivity).
    rewrite IH by (intros x Hx; apply H; right; exact Hx). reflexivity.
Qed.

Lemma splitLines_join (l : jsstr) (rest : list jsstr) :
  Forall noLineBreak (l :: rest) ->
  splitLines (join nl (l :: rest)) = l :: rest.
Proof.
  revert l. induction rest as [|y rest IH]; intros l H.
  - cbn [join]. apply splitLines_one. intros x Hx.
    inversion H as [|? ? Hl _]; subst. apply (Hl x Hx).
  - inversion H as [|? ? Hl Hrest]; subst.
    change (join nl (l :: y :: rest)) with (l ++ LF :: join nl (y :: rest)).
    rewrite splitLines_app by (intros x Hx; apply (Hl x Hx)).
    rewrite IH by assumption. reflexivity.
Qed.

Lemma convertMarkdown_of_normalized (katex : jsstr -> bool -> completion jsstr)
  (raw : jsstr) (lines : list jsstr) :
  Forall noLineBreak lines ->
  normalizeNewlines raw = join nl lines ->
  convertMarkdown katex raw = convertLines katex lines.
Proof.
  intros Hlines Hraw. unfold convertMarkdown. cbv zeta.
  rewrite replaceAll_newlines, Hraw.
  destruct lines as [|l rest]; [reflexivity|].
  rewrite splitLines_join by assumption. reflexivity.
Qed.

(** X6: the three line-ending styles are one: after the first step no
    carriage return is left, and a document whose lines are separated by
    CR LF, by CR alone or by LF renders as the scan of those lines. *)
Theorem line_ending_style_does_not_matter
  (katex : jsstr -> bool -> completion jsstr) :
  (forall raw x, In x (replaceAll reNewline [TLit nl] raw) -> x <> CR)
  /\ (forall lines,
         (forall line, In line lines ->
                       forall x, In x line -> x <> CR /\ x <> LF) ->
         convertMarkdown katex (join (cr ++ nl) lines) = convertLines katex lines
         /\ convertMarkdown katex (join cr lines) = convertLines katex lines
         /\ convertMarkdown katex (join nl lines) = convertLines katex lines).
Proof.
  split.
  - intros raw x. rewrite replaceAll_newlines.
    apply (normalizeNewlines_no_CR (length raw)). apply Nat.le_refl.
  - intros lines H.
    assert (Hlines : Forall noLineBreak lines) by (apply Forall_forall; exact H).
    repeat split; apply convertMarkdown_of_normalized; try assumption.
    + apply normalizeNewlines_join_crlf. exact Hlines.
    + apply normalizeNewlines_join_cr. exact Hlines.
    + apply normalizeNewlines_join_lf. exact Hlines.
Qed.

Ltac no_break_in_literals :=
  let line := fresh "line" in
  let Hl := fresh "Hl" in
  let x := fresh "x" in
  let Hx := fresh "Hx" in
  intros line Hl; simpl in Hl;
  repeat (destruct Hl as [<- | Hl];
          [intros x Hx; simpl in Hx;
           repeat (destruct Hx as [<- | Hx]; [split; discriminate|]);
           contradiction|]);
  contradiction.

Lemma line_ending_style_does_not_matter_witness :
  convertMarkdown (fun _ _ => Throw [])
    (str "# t" ++ cr ++ nl ++ cr ++ nl ++ str "- a")
  = convertLines (fun _ _ => Throw []) [str "# t"; []; str "- a"]
  /\ ch "b" <> CR.
Proof.
  split.
  - apply (proj1 (proj2 (line_ending_style_does_not_matter (fun _ _ => Throw []))
                    [str "# t"; []; str "- a"] ltac:(no_break_in_literals))).
  - apply (proj1 (line_ending_style_does_not_matter (fun _ _ => Throw []))
             (str "a" ++ cr ++ str "b") (ch "b")).
    vm_compute. tauto.
Defined.

(** ** One block at a time *)

Ltac split_conditions :=
  repeat match goal with
         | |- context [if ?c then _ else _] =>
             lazymatch c with
             | context [if _ then _ else _] => fail
             | context [match _ with _ => _ end] => fail
             | _ => destruct c
             end
         | |- context [match ?c with Some _ => _ | None => _ end] =>
             lazymatch c with
             | context [if _ then _ else _] => fail
             | _ => destruct c as [[? ?]|]
             end
         end.

Ltac consistent_leaf :=
  cbv [scannerConsistent openBlocks openCount
       inBullet inOrdered inBlockquote inCode inMathBlock
       codeLanguage codeBuffer mathBuffer Nat.add];
  repeat split; try lia; try reflexivity; try discriminate.

Lemma scannerConsistent_processLine
  (katex : jsstr -> bool -> completion jsstr) (s : state) (line : jsstr) :
  scannerConsistent s -> scannerConsistent (processLine katex s line).
Proof.
  intros [Hopen [Hcode Hmath]].
  destruct s as [out b o q c m lang cbuf mbuf].
  cbv [openBlocks openCount inBullet inOrdered inBlockquote inCode inMathBlock
       codeLanguage codeBuffer mathBuffer] in Hopen, Hcode, Hmath.
  destruct b, o, q, c, m; cbn in Hopen; try lia;
    try (destruct (Hcode eq_refl) as [-> ->]);
    try (rewrite (Hmath eq_refl));
    clear Hopen Hcode Hmath;
    cbv [processLine flushCodeBlock flushMathBlock closeLists closeBlockquote
         push setCode setMath setInBullet setInOrdered setInBlockquote
         inBullet inOrdered inBlockquote inCode inMathBlock output
         codeLanguage codeBuffer mathBuffer negb];
    split_conditions; consistent_leaf.
Qed.

Lemma scannerConsistent_scan (katex : jsstr -> bool -> completion jsstr)
  (lines : list jsstr) :
  forall s, scannerConsistent s ->
            scannerConsistent (fold_left (processLine katex) lines s).
Proof.
  induction lines as [|line lines IH]; intros s H; [exact H|].
  cbn [fold_left]. apply IH. apply scannerConsistent_processLine. exact H.
Qed.

Lemma finish_closes_everything (katex : jsstr -> bool -> completion jsstr)
  (s : state) :
  scannerConsistent s ->
  openBlocks (finish katex s) = 0%nat
  /\ codeLanguage (finish katex s) = []
  /\ codeBuffer (finish katex s) = []
  /\ mathBuffer (finish katex s) = [].
Proof.
  intros [Hopen [Hcode Hmath]].
  destruct s as [out b o q c m lang cbuf mbuf].
  cbv [openBlocks openCount inBullet inOrdered inBlockquote inCode inMathBlock
       codeLanguage codeBuffer mathBuffer] in Hopen, Hcode, Hmath.
  destruct b, o, q, c, m; cbn in Hopen; try lia;
    try (destruct (Hcode eq_refl) as [-> ->]);
    try (rewrite (Hmath eq_refl));
    clear Hopen Hcode Hmath;
    cbv [finish flushCodeBlock flushMathBlock closeLists closeBlockquote
         push setCode setMath setInBullet setInOrdered setInBlockquote
         inBullet inOrdered inBlockquote inCode inMathBlock output
         codeLanguage codeBuffer mathBuffer negb];
    split_conditions;
    cbv [openBlocks openCount inBullet inOrdered inBlockquote inCode
         inMathBlock codeLanguage codeBuffer mathBuffer Nat.add];
    repeat split.
Qed.

(** X7: the scanner has one block open at a time.  In the state the scan
    of any sequence of lines reaches, at most one of bullet list, ordered
    list, blockquote, code block and math block is open, the code language
    and buffer are empty outside a code block and the math buffer is empty
    outside a math block; after the closing calls nothing is open. *)
Theorem scanner_has_one_block_open_at_a_time
  (katex : jsstr -> bool -> completion jsstr) (lines : list jsstr) :
  scannerConsistent (scanLines katex lines)
  /\ openBlocks (finish katex (scanLines katex lines)) = 0%nat
  /\ codeBuffer (finish katex (scanLines katex lines)) = []
  /\ mathBuffer (finish katex (scanLines katex lines)) = [].
Proof.
  assert (Hinit : scannerConsistent initialState).
  { cbv [scannerConsistent openBlocks openCount initialState
         inBullet inOrdered inBlockquote inCode inMathBlock
         codeLanguage codeBuffer mathBuffer Nat.add].
    repeat split. lia. }
  split.
  - apply scannerConsistent_scan. exact Hinit.
  - destruct (finish_closes_everything katex (scanLines katex lines))
      as [H1 [_ [H3 H4]]].
    + apply scannerConsistent_scan. exact Hinit.
    + auto.
Qed.

(** ** Runs of lines of one kind *)

Lemma output_pushAll (fragments : list jsstr) :
  forall s, output (pushAll fragments s) = output s ++ fragments.
Proof.
  induction fragments as [|x rest IH]; intros s.
  - cbn. rewrite app_nil_r. reflexivity.
  - unfold pushAll in *. cbn [fold_left]. rewrite IH.
    cbn [output push]. rewrite <- app_assoc. reflexivity.
Qed.

Lemma flags_pushAll (fragments : list jsstr) :
  forall s,
    inBullet (pushAll fragments s) = inBullet s
    /\ inOrdered (pushAll fragments s) = inOrdered s
    /\ inBlockquote (pushAll fragments s) = inBlockquote s
    /\ inCode (pushAll fragments s) = inCode s
    /\ inMathBlock (pushAll fragments s) = inMathBlock s.
Proof.
  induction fragments as [|x rest IH]; intros s; [repeat split|].
  unfold pushAll in *. cbn [fold_left].
  destruct (IH (push x s)) as [H1 [H2 [H3 [H4 H5]]]].
  rewrite H1, H2, H3, H4, H5. repeat split.
Qed.

(** A run of lines that each push one fragment and keep [P]. *)
Lemma scan_run (katex : jsstr -> bool -> completion jsstr)
  (P : state -> Prop) (fragment : jsstr -> jsstr) (lines : list jsstr) :
  (forall s line, In line lines -> P s ->
                  processLine katex s line = push (fragment line) s
                  /\ P (push (fragment line) s)) ->
  forall s, P s ->
            fold_left (processLine katex) lines s
            = pushAll (map fragment lines) s.
Proof.
  induction lines as [|line lines IH]; intros Hstep s Hs; [reflexivity|].
  cbn [fold_left map]. unfold pushAll. cbn [fold_left].
  destruct (Hstep s line (or_introl eq_refl) Hs) as [-> Hs'].
  apply IH; [|exact Hs'].
  intros s0 l Hl. apply Hstep. right. exact Hl.
Qed.


Lemma isPlainLine_first (line : jsstr) :
  isPlainLine line = true ->
  exists c t,
    trim line = c :: t
    /\ c <> BACKTICK /\ c <> DOLLAR /\ c <> ch "-" /\ c <> ch "_"
    /\ c <> ch "*" /\ c <> ch ">" /\ c <> ch "+" /\ c <> ch "#"
    /\ isDigit c = false.
Proof.
  intros Hplain. pose proof (isPlainLine_units line Hplain) as Hunits.
  unfold isPlainLine in Hplain. apply andb_true_iff in Hplain.
  destruct Hplain as [_ Hfirst].
  destruct (trim line) as [|c t] eqn:Htrim; [discriminate|].
  apply negb_true_iff in Hfirst. unfold startsBlock in Hfirst.
  do 3 (apply orb_false_iff in Hfirst; destruct Hfirst as [Hfirst ?]).
  assert (Hc : isInlineSpecial c = false).
  { apply (Hunits c). apply In_trim. rewrite Htrim. left. reflexivity. }
  unfold isInlineSpecial, isHtmlSpecial in Hc.
  do 10 (apply orb_false_iff in Hc; destruct Hc as [Hc ?]).
  exists c, t. repeat split; try assumption; apply N.eqb_neq; assumption.
Qed.


Lemma nothingOpen_push (x : jsstr) (s : state) : nothingOpen s -> nothingOpen (push x s).
Proof. intros H. exact H. Qed.






(** ** Block lines after the fence, math and heading tests *)

Lemma processLine_block (katex : jsstr -> bool -> completion jsstr)
  (s : state) (line : jsstr) (c : codeunit) (t : jsstr) :
  inCode s = false -> inMathBlock s = false ->
  trim line = c :: t ->
  c <> BACKTICK -> c <> DOLLAR -> c <> ch "#" ->
  processLine katex s line
  = if testRule (c :: t) then
      push (str "<hr />") (closeBlockquote (closeLists s))
    else if testStart reQuote (c :: t) then
      push (paragraphHtml katex (stripStart reQuote (c :: t)))
        (if negb (inBlockquote (closeLists s))
         then setInBlockquote true (push (str "<blockquote>") (closeLists s))
         else closeLists s)
    else if testStart reOrdered (c :: t) then
      push (itemHtml katex (stripStart reOrdered (c :: t)))
        (if negb (inOrdered s)
         then setInOrdered true (push (str "<ol>") (closeBlockquote (closeLists s)))
         else s)
    else if testStart reBullet (c :: t) then
      push (itemHtml katex (stripStart reBullet (c :: t)))
        (if negb (inBullet s)
         then setInBullet true (push (str "<ul>") (closeBlockquote (closeLists s)))
         else s)
    else push (paragraphHtml katex (c :: t)) (closeBlockquote (closeLists s)).
Proof.
  intros Hcode Hmath Htrim Hb Hd Hh.
  unfold processLine. cbv zeta. rewrite Htrim.
  assert (F1 : startsWith FENCE (c :: t) = false).
  { unfold FENCE. cbn [startsWith].
    replace (BACKTICK =? c) with false; [reflexivity|].
    symmetry. apply N.eqb_neq. congruence. }
  assert (F2 : startsWith DD (c :: t) = false).
  { unfold DD. cbn [startsWith].
    replace (DOLLAR =? c) with false; [reflexivity|].
    symmetry. apply N.eqb_neq. congruence. }
  assert (F3 : matchStart reHeading (c :: t) = None).
  { unfold matchStart, reHeading. apply pmatch_Rep_fails; [|lia].
    apply N.eqb_neq. congruence. }
  rewrite F1, Hcode, F2, Hmath. cbn [isEmpty]. rewrite F3. reflexivity.
Qed.

Lemma testRule_other (c : codeunit) (t : jsstr) :
  c <> ch "-" -> c <> ch "_" -> c <> ch "*" -> testRule (c :: t) = false.
Proof.
  intros H1 H2 H3. unfold testRule, testStart, matchStart, reRuleOf.
  rewrite !pmatch_Rep_fails; try reflexivity; try lia;
    apply N.eqb_neq; congruence.
Qed.

(** *** Horizontal rules *)

Lemma forallb_repeat (f : codeunit -> bool) (c : codeunit) (n : nat) :
  f c = true -> forallb f (repeat c n) = true.
Proof.
  intros H. induction n as [|n IH]; [reflexivity|].
  cbn [repeat forallb]. rewrite H, IH. reflexivity.
Qed.

Lemma testStart_reRuleOf (c : codeunit) (n : nat) :
  (3 <= n)%nat -> testStart (reRuleOf c) (repeat c n) = true.
Proof.
  intros Hn. unfold testStart, matchStart, reRuleOf.
  rewrite <- (app_nil_r (repeat c n)).
  rewrite (pmatch_Rep_greedy _ _ _ true [Eos] None (repeat c n) [] [] []);
    try reflexivity.
  - apply forallb_repeat. apply N.eqb_refl.
  - rewrite repeat_length. exact Hn.
Qed.

Lemma testRule_repeat (c : codeunit) (n : nat) :
  c = ch "-" \/ c = ch "_" \/ c = ch "*" -> (3 <= n)%nat ->
  testRule (repeat c n) = true.
Proof.
  intros Hc Hn. unfold testRule.
  destruct Hc as [-> | [-> | ->]]; rewrite testStart_reRuleOf by exact Hn;
    rewrite ?orb_true_r; reflexivity.
Qed.

(** X9: a line that, trimmed, is three or more of one of the characters
    - _ * and nothing else is a horizontal rule, whatever list or quote is
    open (they are closed first); in particular three stars are a rule and
    not emphasis or a list item.  With a space between the characters the
    line is not a rule. *)
Theorem three_or_more_markers_make_a_rule
  (katex : jsstr -> bool -> completion jsstr)
  (s : state) (line : jsstr) (c : codeunit) (n : nat) :
  inCode s = false -> inMathBlock s = false ->
  c = ch "-" \/ c = ch "_" \/ c = ch "*" ->
  (3 <= n)%nat ->
  trim line = repeat c n ->
  processLine katex s line
  = push (str "<hr />") (closeBlockquote (closeLists s))
  /\ convertLines katex [line] = str "<hr />"
  /\ forall rest, testRule (c :: ch " " :: rest) = false.
Proof.
  intros Hcode Hmath Hc Hn Htrim.
  assert (Hstep : forall s0, inCode s0 = false -> inMathBlock s0 = false ->
                             processLine katex s0 line
                             = push (str "<hr />") (closeBlockquote (closeLists s0))).
  { intros s0 H1 H2.
    destruct n as [|m]; [lia|].
    rewrite (processLine_block katex s0 line c (repeat c m));
      try assumption;
      try (destruct Hc as [-> | [-> | ->]]; discriminate).
    change (c :: repeat c m) with (repeat c (S m)).
    rewrite testRule_repeat by assumption. reflexivity. }
  split; [apply Hstep; assumption|]. split.
  - unfold convertLines, scanLines. cbn [fold_left].
    rewrite Hstep by reflexivity. reflexivity.
  - intros rest. unfold testRule, testStart, matchStart, reRuleOf.
    assert (Hshort : forall d, pmatch [Rep (N.eqb d) 3 None true; Eos] None
                                 (c :: ch " " :: rest) = None).
    { intros d. rewrite pmatch_Rep_unfold. apply backtrack_none.
      intros j Hj. unfold greedyMax in Hj. cbn [spanLen] in Hj.
      destruct (d =? c) eqn:E1.
      - destruct (d =? ch " ") eqn:E2.
        + apply N.eqb_eq in E1, E2. subst d.
          destruct Hc as [-> | [-> | ->]]; discriminate.
        + lia.
      - lia. }
    rewrite !Hshort. reflexivity.
Qed.

Lemma three_or_more_markers_make_a_rule_witness :
  convertLines (fun _ _ => Throw []) [str "  ***** "] = str "<hr />".
Proof.
  apply (proj1 (proj2 (three_or_more_markers_make_a_rule (fun _ _ => Throw [])
                         initialState (str "  ***** ") (ch "*") 5
                         eq_refl eq_refl (or_intror (or_intror eq_refl))
                         ltac:(lia) eq_refl))).
Defined.

(** *** Lists *)

Lemma testStart_reBullet_inv (t : jsstr) :
  testStart reBullet t = true ->
  exists m w rest,
    t = m :: w :: rest
    /\ (m = ch "-" \/ m = ch "*" \/ m = ch "+")
    /\ isWhiteSpace w = true.
Proof.
  unfold testStart, matchStart, reBullet. intros H.
  destruct t as [|m t]; [discriminate|].
  cbn [pmatch] in H.
  destruct ((m =? ch "-") || (m =? ch "*") || (m =? ch "+")) eqn:Hm;
    [|discriminate].
  destruct t as [|w rest]; [cbn in H; discriminate|].
  destruct (isWhiteSpace w) eqn:Hw.
  - exists m, w, rest. split; [reflexivity|]. split; [|exact Hw].
    apply orb_true_iff in Hm. destruct Hm as [Hm | Hm].
    + apply orb_true_iff in Hm. destruct Hm as [Hm | Hm];
        apply N.eqb_eq in Hm; auto.
    + apply N.eqb_eq in Hm. auto.
  - unfold greedyMax in H. cbn [spanLen] in H. rewrite Hw in H.
    cbn in H. discriminate.
Qed.

Lemma testStart_reOrdered_inv (t : jsstr) :
  testStart reOrdered t = true ->
  exists d rest, t = d :: rest /\ isDigit d = true.
Proof.
  unfold testStart, matchStart, reOrdered. intros H.
  destruct t as [|d rest]; [discriminate|].
  destruct (isDigit d) eqn:Hd.
  - exists d, rest. split; [reflexivity | exact Hd].
  - rewrite pmatch_Rep_fails in H; [discriminate | exact Hd | lia].
Qed.

Lemma testStart_reQuote_inv (t : jsstr) :
  testStart reQuote t = true -> exists rest, t = ch ">" :: rest.
Proof.
  unfold testStart, matchStart, reQuote, lit. intros H.
  destruct t as [|c rest]; [discriminate|].
  cbn [pmatch] in H.
  destruct (ch ">" =? c) eqn:Hc; [|discriminate].
  apply N.eqb_eq in Hc. subst c. exists rest. reflexivity.
Qed.

Lemma isDigit_cases (d : codeunit) :
  isDigit d = true ->
  d <> BACKTICK /\ d <> DOLLAR /\ d <> ch "#" /\ d <> ch "-" /\ d <> ch "_"
  /\ d <> ch "*" /\ d <> ch ">".
Proof.
  intros H. repeat split; intros ->; discriminate.
Qed.

Lemma processLine_ordered (katex : jsstr -> bool -> completion jsstr)
  (s : state) (line : jsstr) :
  inCode s = false -> inMathBlock s = false ->
  testStart reOrdered (trim line) = true ->
  processLine katex s line
  = push (itemHtml katex (stripStart reOrdered (trim line)))
      (if inOrdered s then s
       else setInOrdered true (push (str "<ol>") (closeBlockquote (closeLists s)))).
Proof.
  intros Hcode Hmath Htest.
  destruct (testStart_reOrdered_inv _ Htest) as [d [rest [Htrim Hd]]].
  destruct (isDigit_cases d Hd) as [H1 [H2 [H3 [H4 [H5 [H6 H7]]]]]].
  rewrite (processLine_block katex s line d rest) by assumption.
  rewrite testRule_other by assumption.
  assert (Hq : testStart reQuote (d :: rest) = false).
  { unfold testStart, matchStart, reQuote, lit.
    rewrite pmatch_One_fails; [reflexivity|]. apply N.eqb_neq. congruence. }
  rewrite Hq. rewrite <- Htrim, Htest.
  destruct (inOrdered s); reflexivity.
Qed.

Lemma processLine_bullet (katex : jsstr -> bool -> completion jsstr)
  (s : state) (line : jsstr) :
  inCode s = false -> inMathBlock s = false ->
  testStart reBullet (trim line) = true ->
  processLine katex s line
  = push (itemHtml katex (stripStart reBullet (trim line)))
      (if inBullet s then s
       else setInBullet true (push (str "<ul>") (closeBlockquote (closeLists s)))).
Proof.
  intros Hcode Hmath Htest.
  destruct (testStart_reBullet_inv _ Htest) as [m [w [rest [Htrim [Hm Hw]]]]].
  assert (Hrule : testRule (m :: w :: rest) = false).
  { unfold testRule, testStart, matchStart, reRuleOf.
    assert (Hshort : forall d, pmatch [Rep (N.eqb d) 3 None true; Eos] None
                                 (m :: w :: rest) = None).
    { intros d. rewrite pmatch_Rep_unfold. apply backtrack_none.
      intros j Hj. unfold greedyMax in Hj. cbn [spanLen] in Hj.
      destruct (d =? m) eqn:E1; [|lia].
      destruct (d =? w) eqn:E2; [|lia].
      apply N.eqb_eq in E1, E2. subst d. subst w.
      destruct Hm as [-> | [-> | ->]]; discriminate. }
    rewrite !Hshort. reflexivity. }
  rewrite (processLine_block katex s line m (w :: rest));
    try assumption; try (destruct Hm as [-> | [-> | ->]]; discriminate).
  rewrite Hrule.
  assert (Hq : testStart reQuote (m :: w :: rest) = false).
  { unfold testStart, matchStart, reQuote, lit.
    rewrite pmatch_One_fails; [reflexivity|].
    destruct Hm as [-> | [-> | ->]]; reflexivity. }
  assert (Ho : testStart reOrdered (m :: w :: rest) = false).
  { unfold testStart, matchStart, reOrdered.
    rewrite pmatch_Rep_fails; [reflexivity | | lia].
    destruct Hm as [-> | [-> | ->]]; reflexivity. }
  rewrite Hq, Ho. rewrite <- Htrim, Htest.
  destruct (inBullet s); reflexivity.
Qed.

Lemma pmatch_One_steps (f : codeunit -> bool) (p : pattern)
  (prev : option codeunit) (c : codeunit) (s : jsstr) :
  f c = true -> pmatch (One f :: p) prev (c :: s) = pmatch p (Some c) s.
Proof. intros H. cbn [pmatch]. rewrite H. reflexivity. Qed.

Lemma stripStart_reBullet (m : codeunit) (ws : jsstr) (c : codeunit) (text : jsstr) :
  m = ch "-" \/ m = ch "*" \/ m = ch "+" ->
  ws <> [] -> forallb isWhiteSpace ws = true -> isWhiteSpace c = false ->
  stripStart reBullet (m :: ws ++ c :: text) = c :: text.
Proof.
  intros Hm Hne Hws Hc. unfold stripStart, matchStart, reBullet.
  rewrite pmatch_One_steps
    by (destruct Hm as [-> | [-> | ->]]; reflexivity).
  rewrite (pmatch_Rep_greedy _ _ _ false [] _ ws (c :: text) [] (c :: text));
    try reflexivity; try assumption.
  - cbn [spanLen]. rewrite Hc. reflexivity.
  - destruct ws; [congruence | cbn [length]; lia].
Qed.

Lemma stripStart_reOrdered (ds ws : jsstr) (c : codeunit) (text : jsstr) :
  ds <> [] -> forallb isDigit ds = true ->
  ws <> [] -> forallb isWhiteSpace ws = true -> isWhiteSpace c = false ->
  stripStart reOrdered (ds ++ ch "." :: ws ++ c :: text) = c :: text.
Proof.
  intros Hd1 Hd2 Hw1 Hw2 Hc. unfold stripStart, matchStart, reOrdered.
  rewrite (pmatch_Rep_greedy _ _ _ false _ None ds
             (ch "." :: ws ++ c :: text) [] (c :: text));
    try reflexivity; try assumption.
  - destruct ds; [congruence | cbn [length]; lia].
  - unfold lit. rewrite pmatch_One_steps by apply N.eqb_refl.
    rewrite (pmatch_Rep_greedy _ _ _ false [] _ ws (c :: text) [] (c :: text));
      try reflexivity; try assumption.
    + cbn [spanLen]. rewrite Hc. reflexivity.
    + destruct ws; [congruence | cbn [length]; lia].
Qed.

(** The flags of a scanner inside a block of one kind. *)
Lemma finish_in_list (katex : jsstr -> bool -> completion jsstr) (s : state) :
  inCode s = false -> inMathBlock s = false ->
  output (finish katex s)
  = output s ++ (if inBullet s then [UL_END] else [])
    ++ (if inOrdered s then [OL_END] else [])
    ++ (if inBlockquote s then [str "</blockquote>"] else []).
Proof.
  intros Hc Hm. unfold finish.
  rewrite flushCodeBlock_closed by assumption.
  unfold flushMathBlock. rewrite Hm. cbn [negb].
  destruct s as [o b r q c m l cb mb]. cbn in Hc, Hm. subst.
  destruct b, r, q; cbn; rewrite <- ?app_assoc, ?app_nil_r; reflexivity.
Qed.

(** X10: a document of bullet items is one unordered list: the opening
    tag, one item per line in order, the closing tag.  An item's text is
    what follows the marker and its spaces. *)
Theorem bullet_lines_make_one_list
  (katex : jsstr -> bool -> completion jsstr) (line : jsstr) (lines : list jsstr) :
  Forall (fun l => testStart reBullet (trim l) = true) (line :: lines) ->
  convertLines katex (line :: lines)
  = join nl ([str "<ul>"]
             ++ map (fun l => str "<li>"
                              ++ parseInline katex (stripStart reBullet (trim l))
                              ++ str "</li>") (line :: lines)
             ++ [str "</ul>"])
  /\ forall m ws c text,
       m = ch "-" \/ m = ch "*" \/ m = ch "+" ->
       ws <> [] -> forallb isWhiteSpace ws = true -> isWhiteSpace c = false ->
       stripStart reBullet (m :: ws ++ c :: text) = c :: text.
Proof.
  intros Hall. split; [|apply stripStart_reBullet].
  inversion Hall as [|? ? Hline Hrest]; subst.
  unfold convertLines, scanLines. cbn [fold_left].
  rewrite processLine_bullet by (try reflexivity; exact Hline).
  change (inBullet initialState) with false. cbv iota.
  rewrite (scan_run katex
             (fun s => inBullet s = true /\ inOrdered s = false
                       /\ inBlockquote s = false /\ inCode s = false
                       /\ inMathBlock s = false)
             (fun l => itemHtml katex (stripStart reBullet (trim l)))).
  - destruct (flags_pushAll
                (map (fun l => itemHtml katex (stripStart reBullet (trim l))) lines)
                (push (itemHtml katex (stripStart reBullet (trim line)))
                   (setInBullet true
                      (push (str "<ul>")
                         (closeBlockquote (closeLists initialState))))))
      as [H1 [H2 [H3 [H4 H5]]]].
    rewrite finish_in_list by (first [rewrite H4 | rewrite H5]; reflexivity).
    rewrite H1, H2, H3, output_pushAll. reflexivity.
  - intros s l Hin [Hb [Ho [Hq [Hc Hm]]]].
    rewrite Forall_forall in Hrest.
    rewrite processLine_bullet by (try assumption; apply Hrest; exact Hin).
    rewrite Hb. repeat split; assumption.
  - repeat split.
Qed.

Lemma bullet_lines_make_one_list_witness :
  convertLines (fun _ _ => Throw []) [str "- one"; str "  * two"; str "+   three"]
  = join nl [str "<ul>"; str "<li>one</li>"; str "<li>two</li>";
             str "<li>three</li>"; str "</ul>"].
Proof.
  apply (proj1 (bullet_lines_make_one_list (fun _ _ => Throw [])
                  (str "- one") [str "  * two"; str "+   three"]
                  ltac:(repeat constructor))).
Defined.

(** X11: a document of numbered items is one ordered list, one item per
    line in order; the number written before the period is discarded. *)
Theorem numbered_lines_make_one_list
  (katex : jsstr -> bool -> completion jsstr) (line : jsstr) (lines : list jsstr) :
  Forall (fun l => testStart reOrdered (trim l) = true) (line :: lines) ->
  convertLines katex (line :: lines)
  = join nl ([str "<ol>"]
             ++ map (fun l => str "<li>"
                              ++ parseInline katex (stripStart reOrdered (trim l))
                              ++ str "</li>") (line :: lines)
             ++ [str "</ol>"])
  /\ forall ds ws c text,
       ds <> [] -> forallb isDigit ds = true ->
       ws <> [] -> forallb isWhiteSpace ws = true -> isWhiteSpace c = false ->
       stripStart reOrdered (ds ++ ch "." :: ws ++ c :: text) = c :: text.
Proof.
  intros Hall. split; [|apply stripStart_reOrdered].
  inversion Hall as [|? ? Hline Hrest]; subst.
  unfold convertLines, scanLines. cbn [fold_left].
  rewrite processLine_ordered by (try reflexivity; exact Hline).
  change (inOrdered initialState) with false. cbv iota.
  rewrite (scan_run katex
             (fun s => inBullet s = false /\ inOrdered s = true
                       /\ inBlockquote s = false /\ inCode s = false
                       /\ inMathBlock s = false)
             (fun l => itemHtml katex (stripStart reOrdered (trim l)))).
  - destruct (flags_pushAll
                (map (fun l => itemHtml katex (stripStart reOrdered (trim l))) lines)
                (push (itemHtml katex (stripStart reOrdered (trim line)))
                   (setInOrdered true
                      (push (str "<ol>")
                         (closeBlockquote (closeLists initialState))))))
      as [H1 [H2 [H3 [H4 H5]]]].
    rewrite finish_in_list by (first [rewrite H4 | rewrite H5]; reflexivity).
    rewrite H1, H2, H3, output_pushAll. reflexivity.
  - intros s l Hin [Hb [Ho [Hq [Hc Hm]]]].
    rewrite Forall_forall in Hrest.
    rewrite processLine_ordered by (try assumption; apply Hrest; exact Hin).
    rewrite Ho. repeat split; assumption.
  - repeat split.
Qed.

Lemma numbered_lines_make_one_list_witness :
  convertLines (fun _ _ => Throw []) [str "7. one"; str "7. two"; str "03.  three"]
  = join nl [str "<ol>"; str "<li>one</li>"; str "<li>two</li>";
             str "<li>three</li>"; str "</ol>"].
Proof.
  apply (proj1 (numbered_lines_make_one_list (fun _ _ => Throw [])
                  (str "7. one") [str "7. two"; str "03.  three"]
                  ltac:(repeat constructor))).
Defined.

(** *** Blockquotes *)

Lemma matchStart_reQuote (rest : jsstr) :
  matchStart reQuote (ch ">" :: rest)
  = Some ([], match rest with
              | w :: r => if isWhiteSpace w then r else rest
              | [] => []
              end).
Proof.
  unfold matchStart, reQuote, lit.
  rewrite pmatch_One_steps by reflexivity.
  rewrite pmatch_Rep_unfold. unfold greedyMax.
  destruct rest as [|w r]; [reflexivity|].
  cbn [spanLen]. destruct (isWhiteSpace w); reflexivity.
Qed.

Lemma processLine_quote (katex : jsstr -> bool -> completion jsstr)
  (s : state) (line : jsstr) :
  inCode s = false -> inMathBlock s = false ->
  testStart reQuote (trim line) = true ->
  processLine katex s line
  = push (paragraphHtml katex (stripStart reQuote (trim line)))
      (if inBlockquote s then closeLists s
       else setInBlockquote true (push (str "<blockquote>") (closeLists s))).
Proof.
  intros Hcode Hmath Htest.
  destruct (testStart_reQuote_inv _ Htest) as [rest Htrim].
  rewrite (processLine_block katex s line (ch ">") rest);
    try assumption; try discriminate.
  rewrite testRule_other by discriminate.
  rewrite <- Htrim, Htest.
  replace (inBlockquote (closeLists s)) with (inBlockquote s).
  - destruct (inBlockquote s); reflexivity.
  - destruct s as [o b r q c m l cb mb]. destruct b, r; reflexivity.
Qed.

(** X12: a document of quote lines is one blockquote with one paragraph
    per line; the marker and at most one space after it are removed, so a
    bare marker gives an empty paragraph. *)
Theorem quote_lines_make_one_blockquote
  (katex : jsstr -> bool -> completion jsstr) (line : jsstr) (lines : list jsstr) :
  Forall (fun l => testStart reQuote (trim l) = true) (line :: lines) ->
  convertLines katex (line :: lines)
  = join nl ([str "<blockquote>"]
             ++ map (fun l => str "<p>"
                              ++ parseInline katex (stripStart reQuote (trim l))
                              ++ str "</p>") (line :: lines)
             ++ [str "</blockquote>"])
  /\ (forall w rest, isWhiteSpace w = true ->
                     stripStart reQuote (ch ">" :: w :: rest) = rest)
  /\ (forall c rest, isWhiteSpace c = false ->
                     stripStart reQuote (ch ">" :: c :: rest) = c :: rest)
  /\ convertLines katex [str ">"]
     = join nl [str "<blockquote>"; str "<p></p>"; str "</blockquote>"].
Proof.
  intros Hall.
  assert (Hdoc : forall l ls,
             Forall (fun l => testStart reQuote (trim l) = true) (l :: ls) ->
             convertLines katex (l :: ls)
             = join nl ([str "<blockquote>"]
                        ++ map (fun l => paragraphHtml katex
                                           (stripStart reQuote (trim l))) (l :: ls)
                        ++ [str "</blockquote>"])).
  { intros l ls H. inversion H as [|? ? Hline Hrest]; subst.
    unfold convertLines, scanLines. cbn [fold_left].
    rewrite processLine_quote by (try reflexivity; exact Hline).
    change (inBlockquote initialState) with false. cbv iota.
    rewrite (scan_run katex
               (fun s => inBullet s = false /\ inOrdered s = false
                         /\ inBlockquote s = true /\ inCode s = false
                         /\ inMathBlock s = false)
               (fun l => paragraphHtml katex (stripStart reQuote (trim l)))).
    - destruct (flags_pushAll
                  (map (fun l => paragraphHtml katex (stripStart reQuote (trim l))) ls)
                  (push (paragraphHtml katex (stripStart reQuote (trim l)))
                     (setInBlockquote true
                        (push (str "<blockquote>") (closeLists initialState)))))
        as [H1 [H2 [H3 [H4 H5]]]].
      rewrite finish_in_list by (first [rewrite H4 | rewrite H5]; reflexivity).
      rewrite H1, H2, H3, output_pushAll. reflexivity.
    - intros s l0 Hin [Hb [Ho [Hq [Hc Hm]]]].
      rewrite Forall_forall in Hrest.
      rewrite processLine_quote by (try assumption; apply Hrest; exact Hin).
      rewrite Hq. rewrite closeLists_closed by assumption.
      repeat split; assumption.
    - repeat split. }
  split; [apply Hdoc; exact Hall|].
  split; [|split].
  - intros w rest Hw. unfold stripStart. rewrite matchStart_reQuote, Hw.
    reflexivity.
  - intros c rest Hc. unfold stripStart. rewrite matchStart_reQuote, Hc.
    reflexivity.
  - rewrite Hdoc by (repeat constructor).
    cbn [map]. change (trim (str ">")) with (ch ">" :: []).
    unfold stripStart. rewrite matchStart_reQuote.
    unfold paragraphHtml, parseInline. reflexivity.
Qed.

Lemma quote_lines_make_one_blockquote_witness :
  convertLines (fun _ _ => Throw []) [str "> one"; str ">two"]
  = join nl [str "<blockquote>"; str "<p>one</p>"; str "<p>two</p>";
             str "</blockquote>"].
Proof.
  apply (proj1 (quote_lines_make_one_blockquote (fun _ _ => Throw [])
                  (str "> one") [str ">two"] ltac:(repeat constructor))).
Defined.

(** ** Inline text without markers *)

Lemma escapeUnit_no_marker (c x : codeunit) :
  isMarker c = false -> In x (escapeUnit c) -> isMarker x = false.
Proof.
  intros Hc Hin. escape_spec c.
  - destruct Hin as [<- | []]. exact Hc.
  - simpl in Hin.
    repeat (destruct Hin as [<- | Hin]; [reflexivity|]). contradiction.
  - simpl in Hin.
    repeat (destruct Hin as [<- | Hin]; [reflexivity|]). contradiction.
  - simpl in Hin.
    repeat (destruct Hin as [<- | Hin]; [reflexivity|]). contradiction.
  - simpl in Hin.
    repeat (destruct Hin as [<- | Hin]; [reflexivity|]). contradiction.
  - simpl in Hin.
    repeat (destruct Hin as [<- | Hin]; [reflexivity|]). contradiction.
Qed.

Lemma escapeHtml_no_marker (s : jsstr) :
  (forall x, In x s -> isMarker x = false) ->
  forall x, In x (escapeHtml s) -> isMarker x = false.
Proof.
  induction s as [|c s IH]; intros H x Hin; [contradiction|].
  rewrite escapeHtml_cons in Hin. apply in_app_or in Hin.
  destruct Hin as [Hin | Hin].
  - apply (escapeUnit_no_marker c); [apply H; left; reflexivity | exact Hin].
  - apply IH; [|exact Hin]. intros y Hy. apply H. right. exact Hy.
Qed.

Lemma inlineMarkup_no_marker (s : jsstr) :
  (forall x, In x s -> isMarker x = false) -> inlineMarkup s = s.
Proof.
  intros H.
  assert (Hx : forall x, In x s ->
             (ch "[" =? x) = false /\ (ch "*" =? x) = false
             /\ (ch "_" =? x) = false /\ (ch "~" =? x) = false
             /\ (BACKTICK =? x) = false).
  { intros x Hin. specialize (H x Hin). unfold isMarker in H.
    do 5 (apply orb_false_iff in H; destruct H as [H ?]).
    repeat split; apply eqb_false_sym; assumption. }
  unfold inlineMarkup.
  rewrite (replaceAll_absent_unit (N.eqb (ch "[")) reImage)
    by (try (intros x Hin; apply (Hx x Hin)); simpl; auto).
  rewrite (replaceAll_absent_unit (N.eqb (ch "[")) reLink)
    by (try (intros x Hin; apply (Hx x Hin)); simpl; auto).
  rewrite (replaceAll_absent_unit (N.eqb (ch "*")) reBoldStar)
    by (try (intros x Hin; apply (Hx x Hin)); simpl; auto).
  rewrite (replaceAll_absent_unit (N.eqb (ch "_")) reBoldUnder)
    by (try (intros x Hin; apply (Hx x Hin)); simpl; auto).
  rewrite (replaceAll_absent_unit (N.eqb (ch "*")) reEmStar)
    by (try (intros x Hin; apply (Hx x Hin)); simpl; auto).
  rewrite (replaceAll_absent_unit (N.eqb (ch "_")) reEmUnder)
    by (try (intros x Hin; apply (Hx x Hin)); simpl; auto).
  rewrite (replaceAll_absent_unit (N.eqb (ch "~")) reDel)
    by (try (intros x Hin; apply (Hx x Hin)); simpl; auto).
  rewrite (replaceAll_absent_unit (N.eqb BACKTICK) reCode)
    by (try (intros x Hin; apply (Hx x Hin)); simpl; auto).
  reflexivity.
Qed.

(** X13: text without any of the six marker characters (dollar, opening
    bracket, star, underscore, tilde, backtick) is only escaped by the
    inline pass, so the result has no tag and no quote in it: HTML written
    in the text is shown, not interpreted. *)
Theorem text_without_markers_is_only_escaped
  (katex : jsstr -> bool -> completion jsstr) (text : jsstr) :
  (forall x, In x text -> isMarker x = false) ->
  parseInline katex text = escapeHtml text
  /\ forall x, In x (parseInline katex text) ->
               x <> ch "<" /\ x <> ch ">" /\ x <> 34 /\ x <> ch "'".
Proof.
  intros H.
  assert (E : parseInline katex text = escapeHtml text).
  { unfold parseInline. cbv zeta.
    pose proof (escapeHtml_no_marker text H) as He.
    rewrite replaceInlineMath_no_dollar.
    - apply inlineMarkup_no_marker. exact He.
    - intros x Hin. specialize (He x Hin). unfold isMarker in He.
      do 5 (apply orb_false_iff in He; destruct He as [He ?]).
      apply N.eqb_neq. exact He. }
  split; [exact E|]. rewrite E.
  intros x Hin. rewrite escapeHtml_flat_map in Hin.
  apply in_flat_map in Hin. destruct Hin as [c [_ Hin]].
  apply (escapeUnit_no_markup c x Hin).
Qed.

Lemma text_without_markers_is_only_escaped_witness :
  parseInline (fun _ _ => Throw []) (str "<b onclick='x'>R&D</b>")
  = str "&lt;b onclick=&#39;x&#39;&gt;R&amp;D&lt;/b&gt;".
Proof.
  apply (proj1 (text_without_markers_is_only_escaped (fun _ _ => Throw [])
                  (str "<b onclick='x'>R&D</b>")
                  ltac:(intros x Hin; simpl in Hin;
                        repeat (destruct Hin as [<- | Hin]; [reflexivity|]);
                        contradiction))).
Defined.

(** ** One match inside plain text *)

Lemma lastUnit_cons (prev : option codeunit) (c : codeunit) (m : jsstr) :
  lastUnit prev (c :: m) = lastUnit (Some c) m.
Proof. reflexivity. Qed.

Lemma lastUnit_app (prev : option codeunit) (a b : jsstr) :
  lastUnit prev (a ++ b) = lastUnit (lastUnit prev a) b.
Proof. unfold lastUnit. apply fold_left_app. Qed.

Lemma replaceAllFrom_skip (p : pattern) (t : template) (m r : jsstr) :
  forall prev,
    replaceAllFrom p t prev (length m) (m ++ r)
    = replaceAllFrom p t (lastUnit prev m) 0 r.
Proof.
  induction m as [|c m IH]; intros prev; [reflexivity|].
  cbn [length app replaceAllFrom]. rewrite IH. reflexivity.
Qed.

Lemma replaceAllFrom_at_match (p : pattern) (t : template)
  (prev : option codeunit) (m r : jsstr) (caps : list jsstr) :
  m <> [] -> pmatch p prev (m ++ r) = Some (caps, r) ->
  replaceAllFrom p t prev 0 (m ++ r)
  = subst t caps ++ replaceAllFrom p t (lastUnit prev m) 0 r.
Proof.
  intros Hm Hp. destruct m as [|c m]; [congruence|].
  cbn [app] in *. rewrite replaceAllFrom_cons, Hp.
  replace (length (c :: m ++ r) - length r)%nat with (S (length m))
    by (cbn [length]; rewrite length_app; lia).
  rewrite replaceAllFrom_skip. reflexivity.
Qed.

Lemma replaceAllFrom_prefix (p : pattern) (t : template) (a r : jsstr) :
  (forall x rest prev', In x a -> pmatch p prev' (x :: rest) = None) ->
  forall prev,
    replaceAllFrom p t prev 0 (a ++ r)
    = a ++ replaceAllFrom p t (lastUnit prev a) 0 r.
Proof.
  induction a as [|c a IH]; intros Hno prev; [reflexivity|].
  cbn [app]. rewrite replaceAllFrom_cons.
  rewrite Hno by (left; reflexivity).
  rewrite IH by (intros x rest prev' Hx; apply Hno; right; exact Hx).
  reflexivity.
Qed.

(** One match [m] between a prefix and a suffix that have none. *)
Lemma replaceAll_one_match (p : pattern) (t : template) (a m b : jsstr)
  (caps : list jsstr) :
  (forall x rest prev', In x a -> pmatch p prev' (x :: rest) = None) ->
  m <> [] ->
  pmatch p (lastUnit None a) (m ++ b) = Some (caps, b) ->
  (forall prev' s', (forall x, In x s' -> In x b) -> pmatch p prev' s' = None) ->
  replaceAll p t (a ++ m ++ b) = a ++ subst t caps ++ b.
Proof.
  intros Ha Hm Hp Hb. unfold replaceAll.
  rewrite replaceAllFrom_prefix by exact Ha.
  rewrite (replaceAllFrom_at_match p t _ m b caps) by assumption.
  rewrite replaceAllFrom_no_match by exact Hb. reflexivity.
Qed.

Lemma plain_facts (s : jsstr) (x : codeunit) :
  isPlainText s = true -> In x s ->
  isHtmlSpecial x = false /\ x <> DOLLAR
  /\ (ch "[" =? x) = false /\ (ch "*" =? x) = false
  /\ (ch "_" =? x) = false /\ (ch "~" =? x) = false
  /\ (BACKTICK =? x) = false.
Proof.
  intros Hs Hin. unfold isPlainText in Hs. rewrite forallb_forall in Hs.
  specialize (Hs x Hin). apply negb_true_iff in Hs.
  unfold isInlineSpecial in Hs.
  do 6 (apply orb_false_iff in Hs; destruct Hs as [Hs ?]).
  repeat split; try (apply eqb_false_sym; assumption); try assumption.
  apply N.eqb_neq. assumption.
Qed.

Ltac absent :=
  let x := fresh "x" in
  let Hin := fresh "Hin" in
  intros x Hin;
  repeat (apply in_app_or in Hin; destruct Hin as [Hin | Hin]);
  try solve
    [ match goal with
      | Hp : isPlainText ?s = true |- _ =>
          match type of Hin with
          | In _ s =>
              destruct (plain_facts s x Hp Hin) as (?&?&?&?&?&?&?); assumption
          end
      end ];
  simpl in Hin;
  repeat (destruct Hin as [<- | Hin]; [first [reflexivity | discriminate]|]);
  contradiction.

Lemma forallb_notc (c : codeunit) (t : jsstr) :
  (forall x, In x t -> (c =? x) = false) -> forallb (notc c) t = true.
Proof.
  intros H. apply forallb_forall. intros x Hx. unfold notc.
  rewrite N.eqb_sym, (H x Hx). reflexivity.
Qed.

Lemma subst_wrap (l r t : jsstr) :
  subst [TLit l; TGrp 1; TLit r] [t] = l ++ t ++ r.
Proof. cbn. rewrite app_nil_r. reflexivity. Qed.

Lemma spanLen_notc_self (c : codeunit) (b : jsstr) :
  spanLen (notc c) (c :: b) = 0%nat.
Proof. cbn [spanLen]. unfold notc. rewrite N.eqb_refl. reflexivity. Qed.

Lemma length_nonempty (t : jsstr) : t <> [] -> (1 <= length t)%nat.
Proof. destruct t; [congruence | cbn [length]; lia]. Qed.

(** A text between two single delimiters. *)
Lemma pmatch_delim1 (c : codeunit) (prev : option codeunit) (t b : jsstr) :
  t <> [] -> (forall x, In x t -> (c =? x) = false) ->
  pmatch [lit c; Rep (notc c) 1 None true; lit c] prev (([c] ++ t ++ [c]) ++ b)
  = Some ([t], b).
Proof.
  intros Hne Ht.
  replace (([c] ++ t ++ [c]) ++ b) with (c :: t ++ c :: b)
    by (cbn [app]; rewrite <- app_assoc; reflexivity).
  unfold lit. rewrite pmatch_One_steps by apply N.eqb_refl.
  apply (pmatch_Rep_greedy _ _ _ true _ _ t (c :: b) [] b).
  - apply forallb_notc. exact Ht.
  - apply spanLen_notc_self.
  - apply length_nonempty. exact Hne.
  - exact I.
  - rewrite pmatch_One_steps by apply N.eqb_refl. reflexivity.
Qed.

(** A text between two doubled delimiters. *)
Lemma pmatch_delim2 (c : codeunit) (prev : option codeunit) (t b : jsstr) :
  t <> [] -> (forall x, In x t -> (c =? x) = false) ->
  pmatch [lit c; lit c; Rep (notc c) 1 None true; lit c; lit c] prev
    (([c; c] ++ t ++ [c; c]) ++ b)
  = Some ([t], b).
Proof.
  intros Hne Ht.
  replace (([c; c] ++ t ++ [c; c]) ++ b) with (c :: c :: t ++ c :: c :: b)
    by (cbn [app]; rewrite <- app_assoc; reflexivity).
  unfold lit. rewrite !pmatch_One_steps by apply N.eqb_refl.
  apply (pmatch_Rep_greedy _ _ _ true _ _ t (c :: c :: b) [] b).
  - apply forallb_notc. exact Ht.
  - apply spanLen_notc_self.
  - apply length_nonempty. exact Hne.
  - exact I.
  - rewrite !pmatch_One_steps by apply N.eqb_refl. reflexivity.
Qed.

Lemma replaceAll_delim1 (c : codeunit) (l r a t b : jsstr) :
  (forall x, In x a -> (c =? x) = false) ->
  (forall x, In x t -> (c =? x) = false) ->
  (forall x, In x b -> (c =? x) = false) ->
  t <> [] ->
  replaceAll [lit c; Rep (notc c) 1 None true; lit c]
    [TLit l; TGrp 1; TLit r] (a ++ ([c] ++ t ++ [c]) ++ b)
  = a ++ (l ++ t ++ r) ++ b.
Proof.
  intros Ha Ht Hb Hne. rewrite <- (subst_wrap l r t).
  apply replaceAll_one_match.
  - intros x rest prev' Hx. apply pmatch_One_fails. apply Ha. exact Hx.
  - discriminate.
  - apply pmatch_delim1; assumption.
  - intros prev' s' Hs'. apply (pmatch_needs_unit (N.eqb c)).
    + left. reflexivity.
    + intros x Hx. apply Hb. apply Hs'. exact Hx.
Qed.

Lemma replaceAll_delim2 (c : codeunit) (l r a t b : jsstr) :
  (forall x, In x a -> (c =? x) = false) ->
  (forall x, In x t -> (c =? x) = false) ->
  (forall x, In x b -> (c =? x) = false) ->
  t <> [] ->
  replaceAll [lit c; lit c; Rep (notc c) 1 None true; lit c; lit c]
    [TLit l; TGrp 1; TLit r] (a ++ ([c; c] ++ t ++ [c; c]) ++ b)
  = a ++ (l ++ t ++ r) ++ b.
Proof.
  intros Ha Ht Hb Hne. rewrite <- (subst_wrap l r t).
  apply replaceAll_one_match.
  - intros x rest prev' Hx. apply pmatch_One_fails. apply Ha. exact Hx.
  - discriminate.
  - apply pmatch_delim2; assumption.
  - intros prev' s' Hs'. apply (pmatch_needs_unit (N.eqb c)).
    + left. reflexivity.
    + intros x Hx. apply Hb. apply Hs'. exact Hx.
Qed.

Lemma lastUnit_In (a : jsstr) :
  forall prev,
    lastUnit prev a = prev \/ exists x, lastUnit prev a = Some x /\ In x a.
Proof.
  induction a as [|c a IH]; intros prev; [left; reflexivity|].
  rewrite lastUnit_cons. destruct (IH (Some c)) as [E | [x [E Hx]]].
  - right. exists c. split; [exact E | left; reflexivity].
  - right. exists x. split; [exact E | right; exact Hx].
Qed.

Lemma replaceAll_emStar (a t b : jsstr) :
  (forall x, In x a -> (ch "*" =? x) = false) ->
  (forall x, In x t -> (ch "*" =? x) = false) ->
  (forall x, In x b -> (ch "*" =? x) = false) ->
  t <> [] ->
  replaceAll reEmStar tEm (a ++ ([ch "*"] ++ t ++ [ch "*"]) ++ b)
  = a ++ (str "<em>" ++ t ++ str "</em>") ++ b.
Proof.
  intros Ha Ht Hb Hne. unfold tEm. rewrite <- (subst_wrap (str "<em>") (str "</em>") t).
  apply replaceAll_one_match.
  - intros x rest prev' Hx. unfold reEmStar, lit. cbn [pmatch].
    rewrite (Ha x Hx). destruct prev' as [d|]; [destruct (d =? ch "*")|];
      reflexivity.
  - discriminate.
  - unfold reEmStar.
    assert (Hprev : match lastUnit None a with
                    | Some d => (d =? ch "*") = false
                    | None => True
                    end).
    { destruct (lastUnit_In a None) as [-> | [x [-> Hx]]]; [exact I|].
      rewrite N.eqb_sym. apply Ha. exact Hx. }
    pose proof (pmatch_delim1 (ch "*") (lastUnit None a) t b Hne Ht) as Hm.
    destruct (lastUnit None a) as [d|].
    + change (pmatch (NotBehind (ch "*") :: ?p) (Some d) ?s)
        with (if d =? ch "*" then None else pmatch p (Some d) s).
      rewrite Hprev. exact Hm.
    + exact Hm.
  - intros prev' s' Hs'. apply (pmatch_needs_unit (N.eqb (ch "*"))).
    + right. left. reflexivity.
    + intros x Hx. apply Hb. apply Hs'. exact Hx.
Qed.

(** Single delimiters are left alone by the pattern of the doubled ones. *)
Lemma replaceAllFrom_lone (c : codeunit) (p : pattern) (t : template)
  (prev : option codeunit) (r : jsstr) :
  match r with y :: _ => (c =? y) = false | [] => True end ->
  replaceAllFrom (lit c :: lit c :: p) t prev 0 (c :: r)
  = c :: replaceAllFrom (lit c :: lit c :: p) t (Some c) 0 r.
Proof.
  intros Hr. rewrite replaceAllFrom_cons.
  unfold lit at 1. rewrite pmatch_One_steps by apply N.eqb_refl.
  destruct r as [|y r]; [reflexivity|].
  unfold lit at 1. rewrite pmatch_One_fails by exact Hr. reflexivity.
Qed.

Lemma replaceAll_lone_delims (c : codeunit) (p : pattern) (tpl : template)
  (a t b : jsstr) :
  (forall x, In x a -> (c =? x) = false) ->
  (forall x, In x t -> (c =? x) = false) ->
  (forall x, In x b -> (c =? x) = false) ->
  t <> [] ->
  replaceAll (lit c :: lit c :: p) tpl (a ++ ([c] ++ t ++ [c]) ++ b)
  = a ++ ([c] ++ t ++ [c]) ++ b.
Proof.
  intros Ha Ht Hb Hne. unfold replaceAll.
  assert (Hfirst : forall s x rest prev',
             (forall y, In y s -> (c =? y) = false) -> In x s ->
             pmatch (lit c :: lit c :: p) prev' (x :: rest) = None).
  { intros s x rest prev' Hs Hx. apply pmatch_One_fails. apply Hs. exact Hx. }
  rewrite replaceAllFrom_prefix
    by (intros x rest prev' Hx; apply (Hfirst a); assumption).
  replace (([c] ++ t ++ [c]) ++ b) with (c :: t ++ c :: b)
    by (cbn [app]; rewrite <- app_assoc; reflexivity).
  rewrite replaceAllFrom_lone.
  - rewrite replaceAllFrom_prefix
      by (intros x rest prev' Hx; apply (Hfirst t); assumption).
    rewrite replaceAllFrom_lone.
    + rewrite replaceAllFrom_no_match; [reflexivity|].
      intros prev' s' Hs'. apply (pmatch_needs_unit (N.eqb c)).
      * left. reflexivity.
      * intros x Hx. apply Hb. apply Hs'. exact Hx.
    + destruct b as [|y b]; [exact I|]. apply Hb. left. reflexivity.
  - destruct t as [|y t]; [congruence|]. apply Ht. left. reflexivity.
Qed.

(** ** Emphasis, strike-through and code spans *)

Ltac skip_pass c re :=
  rewrite (replaceAll_absent_unit (N.eqb c) re)
    by (first [absent | simpl; auto]).

Ltac enter_inline :=
  unfold parseInline; cbv zeta;
  rewrite escapeHtml_plain by absent;
  rewrite replaceInlineMath_no_dollar by absent;
  unfold inlineMarkup.

Section Emphasis.

Variable katex : jsstr -> bool -> completion jsstr.
Variables a t b : jsstr.
Hypothesis plain_a : isPlainText a = true.
Hypothesis plain_t : isPlainText t = true.
Hypothesis plain_b : isPlainText b = true.
Hypothesis text : t <> [].

Lemma parseInline_strong_star :
  parseInline katex (a ++ str "**" ++ t ++ str "**" ++ b)
  = a ++ str "<strong>" ++ t ++ str "</strong>" ++ b.
Proof.
  replace (a ++ str "**" ++ t ++ str "**" ++ b)
    with (a ++ ([ch "*"; ch "*"] ++ t ++ [ch "*"; ch "*"]) ++ b)
    by (rewrite <- !app_assoc; reflexivity).
  enter_inline.
  skip_pass (ch "[") reImage. skip_pass (ch "[") reLink.
  unfold reBoldStar, tStrong.
  rewrite replaceAll_delim2 by first [absent | assumption].
  skip_pass (ch "_") reBoldUnder. skip_pass (ch "*") reEmStar.
  skip_pass (ch "_") reEmUnder. skip_pass (ch "~") reDel.
  skip_pass BACKTICK reCode.
  rewrite <- !app_assoc. reflexivity.
Qed.

Lemma parseInline_strong_under :
  parseInline katex (a ++ str "__" ++ t ++ str "__" ++ b)
  = a ++ str "<strong>" ++ t ++ str "</strong>" ++ b.
Proof.
  replace (a ++ str "__" ++ t ++ str "__" ++ b)
    with (a ++ ([ch "_"; ch "_"] ++ t ++ [ch "_"; ch "_"]) ++ b)
    by (rewrite <- !app_assoc; reflexivity).
  enter_inline.
  skip_pass (ch "[") reImage. skip_pass (ch "[") reLink.
  skip_pass (ch "*") reBoldStar.
  unfold reBoldUnder, tStrong.
  rewrite replaceAll_delim2 by first [absent | assumption].
  skip_pass (ch "*") reEmStar.
  skip_pass (ch "_") reEmUnder. skip_pass (ch "~") reDel.
  skip_pass BACKTICK reCode.
  rewrite <- !app_assoc. reflexivity.
Qed.

Lemma parseInline_em_star :
  parseInline katex (a ++ str "*" ++ t ++ str "*" ++ b)
  = a ++ str "<em>" ++ t ++ str "</em>" ++ b.
Proof.
  replace (a ++ str "*" ++ t ++ str "*" ++ b)
    with (a ++ ([ch "*"] ++ t ++ [ch "*"]) ++ b)
    by (rewrite <- !app_assoc; reflexivity).
  enter_inline.
  skip_pass (ch "[") reImage. skip_pass (ch "[") reLink.
  unfold reBoldStar.
  rewrite replaceAll_lone_delims by first [absent | assumption].
  skip_pass (ch "_") reBoldUnder.
  rewrite replaceAll_emStar by first [absent | assumption].
  skip_pass (ch "_") reEmUnder. skip_pass (ch "~") reDel.
  skip_pass BACKTICK reCode.
  rewrite <- !app_assoc. reflexivity.
Qed.

Lemma parseInline_em_under :
  parseInline katex (a ++ str "_" ++ t ++ str "_" ++ b)
  = a ++ str "<em>" ++ t ++ str "</em>" ++ b.
Proof.
  replace (a ++ str "_" ++ t ++ str "_" ++ b)
    with (a ++ ([ch "_"] ++ t ++ [ch "_"]) ++ b)
    by (rewrite <- !app_assoc; reflexivity).
  enter_inline.
  skip_pass (ch "[") reImage. skip_pass (ch "[") reLink.
  skip_pass (ch "*") reBoldStar.
  unfold reBoldUnder.
  rewrite replaceAll_lone_delims by first [absent | assumption].
  skip_pass (ch "*") reEmStar.
  unfold reEmUnder, tEm.
  rewrite replaceAll_delim1 by first [absent | assumption].
  skip_pass (ch "~") reDel. skip_pass BACKTICK reCode.
  rewrite <- !app_assoc. reflexivity.
Qed.

Lemma parseInline_del :
  parseInline katex (a ++ str "~~" ++ t ++ str "~~" ++ b)
  = a ++ str "<del>" ++ t ++ str "</del>" ++ b.
Proof.
  replace (a ++ str "~~" ++ t ++ str "~~" ++ b)
    with (a ++ ([ch "~"; ch "~"] ++ t ++ [ch "~"; ch "~"]) ++ b)
    by (rewrite <- !app_assoc; reflexivity).
  enter_inline.
  skip_pass (ch "[") reImage. skip_pass (ch "[") reLink.
  skip_pass (ch "*") reBoldStar. skip_pass (ch "_") reBoldUnder.
  skip_pass (ch "*") reEmStar. skip_pass (ch "_") reEmUnder.
  unfold reDel, tDel.
  rewrite replaceAll_delim2 by first [absent | assumption].
  skip_pass BACKTICK reCode.
  rewrite <- !app_assoc. reflexivity.
Qed.

Lemma parseInline_code :
  parseInline katex (a ++ [BACKTICK] ++ t ++ [BACKTICK] ++ b)
  = a ++ str "<code>" ++ t ++ str "</code>" ++ b.
Proof.
  replace (a ++ [BACKTICK] ++ t ++ [BACKTICK] ++ b)
    with (a ++ ([BACKTICK] ++ t ++ [BACKTICK]) ++ b)
    by (rewrite <- !app_assoc; reflexivity).
  enter_inline.
  skip_pass (ch "[") reImage. skip_pass (ch "[") reLink.
  skip_pass (ch "*") reBoldStar. skip_pass (ch "_") reBoldUnder.
  skip_pass (ch "*") reEmStar. skip_pass (ch "_") reEmUnder.
  skip_pass (ch "~") reDel.
  unfold reCode, tCode.
  rewrite replaceAll_delim1 by first [absent | assumption].
  rewrite <- !app_assoc. reflexivity.
Qed.

End Emphasis.

(** X14: markers around plain text.  Between plain texts, a non-empty
    plain text wrapped in two stars or two underscores becomes strong,
    in one star or one underscore emphasised, in two tildes deleted and
    in backticks code; the text around it is unchanged. *)
Theorem markers_around_plain_text
  (katex : jsstr -> bool -> completion jsstr) (a t b : jsstr) :
  isPlainText a = true -> isPlainText t = true -> isPlainText b = true ->
  t <> [] ->
  parseInline katex (a ++ str "**" ++ t ++ str "**" ++ b)
  = a ++ str "<strong>" ++ t ++ str "</strong>" ++ b
  /\ parseInline katex (a ++ str "__" ++ t ++ str "__" ++ b)
     = a ++ str "<strong>" ++ t ++ str "</strong>" ++ b
  /\ parseInline katex (a ++ str "*" ++ t ++ str "*" ++ b)
     = a ++ str "<em>" ++ t ++ str "</em>" ++ b
  /\ parseInline katex (a ++ str "_" ++ t ++ str "_" ++ b)
     = a ++ str "<em>" ++ t ++ str "</em>" ++ b
  /\ parseInline katex (a ++ str "~~" ++ t ++ str "~~" ++ b)
     = a ++ str "<del>" ++ t ++ str "</del>" ++ b
  /\ parseInline katex (a ++ str "`" ++ t ++ str "`" ++ b)
     = a ++ str "<code>" ++ t ++ str "</code>" ++ b.
Proof.
  intros Ha Ht Hb Hne.
  split; [apply parseInline_strong_star; assumption|].
  split; [apply parseInline_strong_under; assumption|].
  split; [apply parseInline_em_star; assumption|].
  split; [apply parseInline_em_under; assumption|].
  split; [apply parseInline_del; assumption|].
  apply parseInline_code; assumption.
Qed.

Lemma markers_around_plain_text_witness :
  parseInline (fun _ _ => Throw []) (str "a *very* good day")
  = str "a <em>very</em> good day".
Proof.
  apply (proj1 (proj2 (proj2 (markers_around_plain_text (fun _ _ => Throw [])
                                (str "a ") (str "very") (str " good day")
                                eq_refl eq_refl eq_refl
                                ltac:(discriminate))))).
Defined.

(** ** Links and images *)

Lemma replaceAllFrom_prefix_suffixes (p : pattern) (t : template) (a r : jsstr) :
  (forall a1 x a2 prev', a = a1 ++ x :: a2 ->
                         pmatch p prev' (x :: a2 ++ r) = None) ->
  forall prev,
    replaceAllFrom p t prev 0 (a ++ r)
    = a ++ replaceAllFrom p t (lastUnit prev a) 0 r.
Proof.
  induction a as [|c a IH]; intros Hno prev; [reflexivity|].
  cbn [app]. rewrite replaceAllFrom_cons.
  rewrite (Hno [] c a) by reflexivity.
  rewrite IH; [reflexivity|].
  intros a1 x a2 prev' E. apply (Hno (c :: a1)). rewrite E. reflexivity.
Qed.

Lemma replaceAll_single_occurrence (c : codeunit) (p : pattern) (tpl : template)
  (A B : jsstr) :
  In (One (N.eqb c)) p ->
  (forall x, In x A -> (c =? x) = false) ->
  (forall x, In x B -> (c =? x) = false) ->
  replaceAll (lit c :: p) tpl (A ++ [c] ++ B) = A ++ [c] ++ B.
Proof.
  intros Hp HA HB. unfold replaceAll.
  rewrite replaceAllFrom_prefix
    by (intros x rest prev' Hx; apply pmatch_One_fails; apply HA; exact Hx).
  cbn [app]. rewrite replaceAllFrom_cons.
  unfold lit at 1. rewrite pmatch_One_steps by apply N.eqb_refl.
  rewrite (pmatch_needs_unit (N.eqb c) p Hp) by exact HB.
  rewrite replaceAllFrom_no_match; [reflexivity|].
  intros prev' s' Hs'. apply (pmatch_needs_unit (N.eqb c)).
  - left. reflexivity.
  - intros x Hx. apply HB. apply Hs'. exact Hx.
Qed.

Lemma pmatch_reLink (prev : option codeunit) (t u b : jsstr) :
  t <> [] -> u <> [] ->
  forallb (notc (ch "]")) t = true -> forallb (notc (ch ")")) u = true ->
  pmatch reLink prev ((str "[" ++ t ++ str "](" ++ u ++ str ")") ++ b)
  = Some ([t; u], b).
Proof.
  intros Ht Hu Ht' Hu'.
  replace ((str "[" ++ t ++ str "](" ++ u ++ str ")") ++ b)
    with (ch "[" :: t ++ ch "]" :: ch "(" :: u ++ ch ")" :: b)
    by (rewrite <- ?app_assoc; reflexivity).
  unfold reLink, lit. rewrite pmatch_One_steps by reflexivity.
  apply (pmatch_Rep_greedy _ _ _ true _ _ t _ [u] b);
    [exact Ht' | reflexivity | apply length_nonempty; exact Ht | exact I |].
  rewrite !pmatch_One_steps by reflexivity.
  apply (pmatch_Rep_greedy _ _ _ true _ _ u _ [] b);
    [exact Hu' | reflexivity | apply length_nonempty; exact Hu | exact I |].
  rewrite pmatch_One_steps by reflexivity. reflexivity.
Qed.

Lemma pmatch_reImage (prev : option codeunit) (t u b : jsstr) :
  u <> [] ->
  forallb (notc (ch "]")) t = true -> forallb (notc (ch ")")) u = true ->
  pmatch reImage prev ((str "![" ++ t ++ str "](" ++ u ++ str ")") ++ b)
  = Some ([t; u], b).
Proof.
  intros Hu Ht' Hu'.
  replace ((str "![" ++ t ++ str "](" ++ u ++ str ")") ++ b)
    with (ch "!" :: ch "[" :: t ++ ch "]" :: ch "(" :: u ++ ch ")" :: b)
    by (rewrite <- ?app_assoc; reflexivity).
  unfold reImage, lit. rewrite !pmatch_One_steps by reflexivity.
  apply (pmatch_Rep_greedy _ _ _ true _ _ t _ [u] b);
    [exact Ht' | reflexivity | lia | exact I |].
  rewrite !pmatch_One_steps by reflexivity.
  apply (pmatch_Rep_greedy _ _ _ true _ _ u _ [] b);
    [exact Hu' | reflexivity | apply length_nonempty; exact Hu | exact I |].
  rewrite pmatch_One_steps by reflexivity. reflexivity.
Qed.

Lemma replaceAll_one_match_suffixes (p : pattern) (t : template) (a m b : jsstr)
  (caps : list jsstr) :
  (forall a1 x a2 prev', a = a1 ++ x :: a2 ->
                         pmatch p prev' (x :: a2 ++ m ++ b) = None) ->
  m <> [] ->
  pmatch p (lastUnit None a) (m ++ b) = Some (caps, b) ->
  (forall prev' s', (forall x, In x s' -> In x b) -> pmatch p prev' s' = None) ->
  replaceAll p t (a ++ m ++ b) = a ++ subst t caps ++ b.
Proof.
  intros Ha Hm Hp Hb. unfold replaceAll.
  rewrite replaceAllFrom_prefix_suffixes by exact Ha.
  rewrite (replaceAllFrom_at_match p t _ m b caps) by assumption.
  rewrite replaceAllFrom_no_match by exact Hb. reflexivity.
Qed.

(** An opening bracket that no exclamation mark precedes starts no image. *)
Lemma replaceAll_reImage_none (a R : jsstr) :
  (forall x, In x a -> (ch "[" =? x) = false) ->
  (forall x, In x R -> (ch "[" =? x) = false) ->
  last a 0 <> ch "!" ->
  replaceAll reImage tImage (a ++ [ch "["] ++ R) = a ++ [ch "["] ++ R.
Proof.
  intros Ha HR Hlast. unfold replaceAll.
  rewrite replaceAllFrom_prefix_suffixes.
  - cbn [app]. rewrite replaceAllFrom_cons.
    unfold reImage at 1, lit at 1. rewrite pmatch_One_fails by reflexivity.
    rewrite replaceAllFrom_no_match; [reflexivity|].
    intros prev' s' Hs'. apply (pmatch_needs_unit (N.eqb (ch "["))).
    + right. left. reflexivity.
    + intros x Hx. apply HR. apply Hs'. exact Hx.
  - intros a1 x a2 prev' E. unfold reImage, lit.
    destruct (ch "!" =? x) eqn:Ex; [|apply pmatch_One_fails; exact Ex].
    rewrite pmatch_One_steps by exact Ex.
    destruct a2 as [|y a2].
    + exfalso. apply Hlast. rewrite E. apply N.eqb_eq in Ex. subst x.
      apply last_last.
    + cbn [app]. apply pmatch_One_fails. apply Ha. rewrite E.
      apply in_or_app. right. right. left. reflexivity.
Qed.

Section Links.

Variable katex : jsstr -> bool -> completion jsstr.
Variables a t u b : jsstr.
Hypothesis plain_a : isPlainText a = true.
Hypothesis plain_t : isPlainText t = true.
Hypothesis plain_u : isPlainText u = true.
Hypothesis plain_b : isPlainText b = true.
Hypothesis text_closed : forallb (notc (ch "]")) t = true.
Hypothesis url_closed : forallb (notc (ch ")")) u = true.
Hypothesis url : u <> [].

Lemma parseInline_link :
  t <> [] -> last a 0 <> ch "!" ->
  parseInline katex (a ++ str "[" ++ t ++ str "](" ++ u ++ str ")" ++ b)
  = a ++ str "<a href=" ++ quot ++ u ++ quot ++ str " target=" ++ quot
    ++ str "_blank" ++ quot ++ str " rel=" ++ quot ++ str "noreferrer" ++ quot
    ++ str ">" ++ t ++ str "</a>" ++ b.
Proof.
  intros text Hlast.
  enter_inline.
  replace (a ++ str "[" ++ t ++ str "](" ++ u ++ str ")" ++ b)
    with (a ++ [ch "["] ++ (t ++ str "](" ++ u ++ str ")" ++ b))
    by reflexivity.
  rewrite replaceAll_reImage_none by first [absent | assumption].
  replace (a ++ [ch "["] ++ (t ++ str "](" ++ u ++ str ")" ++ b))
    with (a ++ (str "[" ++ t ++ str "](" ++ u ++ str ")") ++ b)
    by (rewrite <- !app_assoc; reflexivity).
  rewrite (replaceAll_one_match reLink tLink a _ b [t; u]).
  - replace (a ++ subst tLink [t; u] ++ b)
      with ((a ++ str "<a href=" ++ quot ++ u ++ quot ++ str " target=" ++ quot)
            ++ [ch "_"]
            ++ (str "blank" ++ quot ++ str " rel=" ++ quot ++ str "noreferrer"
                ++ quot ++ str ">" ++ t ++ str "</a>" ++ b))
      by (cbn [subst flat_map tLink nth Nat.sub];
          rewrite <- !app_assoc; reflexivity).
    skip_pass (ch "*") reBoldStar.
    unfold reBoldUnder.
    rewrite replaceAll_single_occurrence
      by first [absent | simpl; auto].
    skip_pass (ch "*") reEmStar.
    unfold reEmUnder.
    rewrite replaceAll_single_occurrence
      by first [absent | simpl; auto].
    skip_pass (ch "~") reDel. skip_pass BACKTICK reCode.
    rewrite <- !app_assoc. reflexivity.
  - intros x rest prev' Hx. apply pmatch_One_fails.
    revert x Hx. absent.
  - discriminate.
  - apply pmatch_reLink; assumption.
  - intros prev' s' Hs'. apply (pmatch_needs_unit (N.eqb (ch "["))).
    + left. reflexivity.
    + intros x Hx. apply Hs' in Hx. revert x Hx. absent.
Qed.

Lemma parseInline_image :
  parseInline katex (a ++ str "![" ++ t ++ str "](" ++ u ++ str ")" ++ b)
  = a ++ str "<img alt=" ++ quot ++ t ++ quot ++ str " src=" ++ quot ++ u
    ++ quot ++ str " />" ++ b.
Proof.
  enter_inline.
  replace (a ++ str "![" ++ t ++ str "](" ++ u ++ str ")" ++ b)
    with (a ++ (str "![" ++ t ++ str "](" ++ u ++ str ")") ++ b)
    by (rewrite <- !app_assoc; reflexivity).
  rewrite (replaceAll_one_match_suffixes reImage tImage a _ b [t; u]).
  - replace (a ++ subst tImage [t; u] ++ b)
      with (a ++ (str "<img alt=" ++ quot ++ t ++ quot ++ str " src=" ++ quot
                  ++ u ++ quot ++ str " />") ++ b)
      by (cbn [subst flat_map tImage nth Nat.sub];
          rewrite <- !app_assoc; reflexivity).
    skip_pass (ch "[") reLink.
    skip_pass (ch "*") reBoldStar. skip_pass (ch "_") reBoldUnder.
    skip_pass (ch "*") reEmStar. skip_pass (ch "_") reEmUnder.
    skip_pass (ch "~") reDel. skip_pass BACKTICK reCode.
    rewrite <- !app_assoc. reflexivity.
  - intros a1 x a2 prev' E. unfold reImage, lit.
    destruct (ch "!" =? x) eqn:Ex; [|apply pmatch_One_fails; exact Ex].
    rewrite pmatch_One_steps by exact Ex.
    destruct a2 as [|y a2]; [apply pmatch_One_fails; reflexivity|].
    cbn [app]. apply pmatch_One_fails.
    assert (Hall : forall z, In z a -> (ch "[" =? z) = false) by absent.
    apply Hall. rewrite E. apply in_or_app. right. right. left. reflexivity.
  - discriminate.
  - apply pmatch_reImage; assumption.
  - intros prev' s' Hs'. apply (pmatch_needs_unit (N.eqb (ch "["))).
    + right. left. reflexivity.
    + intros x Hx. apply Hs' in Hx. revert x Hx. absent.
Qed.

End Links.

(** X15: links and images in plain text.  With plain text around, a
    bracketed plain text followed by a plain address in parentheses
    becomes an anchor that opens in a new tab, and with an exclamation
    mark in front an image; the text around is unchanged.  Plain text has
    no underscore, so the anchor's attributes are left alone. *)
Theorem links_and_images_in_plain_text
  (katex : jsstr -> bool -> completion jsstr) (a t u b : jsstr) :
  isPlainText a = true -> isPlainText t = true ->
  isPlainText u = true -> isPlainText b = true ->
  forallb (notc (ch "]")) t = true -> forallb (notc (ch ")")) u = true ->
  u <> [] ->
  (t <> [] -> last a 0 <> ch "!" ->
   parseInline katex (a ++ str "[" ++ t ++ str "](" ++ u ++ str ")" ++ b)
   = a ++ str "<a href=" ++ quot ++ u ++ quot ++ str " target=" ++ quot
     ++ str "_blank" ++ quot ++ str " rel=" ++ quot ++ str "noreferrer" ++ quot
     ++ str ">" ++ t ++ str "</a>" ++ b)
  /\ parseInline katex (a ++ str "![" ++ t ++ str "](" ++ u ++ str ")" ++ b)
     = a ++ str "<img alt=" ++ quot ++ t ++ quot ++ str " src=" ++ quot ++ u
       ++ quot ++ str " />" ++ b.
Proof.
  intros Ha Ht Hu Hb Ht' Hu' Hne. split.
  - intros Htext Hlast. apply parseInline_link; assumption.
  - apply parseInline_image; assumption.
Qed.

Lemma links_and_images_in_plain_text_witness :
  parseInline (fun _ _ => Throw []) (str "see [the docs](https://example.org/a) now")
  = str "see <a href=" ++ quot ++ str "https://example.org/a" ++ quot
    ++ str " target=" ++ quot ++ str "_blank" ++ quot ++ str " rel=" ++ quot
    ++ str "noreferrer" ++ quot ++ str ">" ++ str "the docs" ++ str "</a>"
    ++ str " now".
Proof.
  apply (proj1 (links_and_images_in_plain_text (fun _ _ => Throw [])
                  (str "see ") (str "the docs") (str "https://example.org/a")
                  (str " now")
                  eq_refl eq_refl eq_refl eq_refl eq_refl eq_refl
                  ltac:(discriminate))
           ltac:(discriminate) ltac:(discriminate)).
Defined.

(** ** Blank lines at the end *)

Lemma trimStart_whitespace (w : jsstr) :
  (forall x, In x w -> isWhiteSpace x = true) -> trimStart w = [].
Proof.
  induction w as [|c w IH]; intros H; [reflexivity|].
  cbn [trimStart]. rewrite (H c) by (left; reflexivity).
  apply IH. intros x Hx. apply H. right. exact Hx.
Qed.

Lemma trimEnd_whitespace (w : jsstr) :
  (forall x, In x w -> isWhiteSpace x = true) -> trimEnd w = [].
Proof.
  induction w as [|c w IH]; intros H; [reflexivity|].
  cbn [trimEnd]. rewrite IH by (intros x Hx; apply H; right; exact Hx).
  rewrite (H c) by (left; reflexivity). reflexivity.
Qed.

Lemma trim_app_whitespace (s w : jsstr) :
  (forall x, In x w -> isWhiteSpace x = true) -> trim (s ++ w) = trim s.
Proof.
  intros H. unfold trim. induction s as [|c s IH].
  - cbn [app]. rewrite trimStart_whitespace by exact H. reflexivity.
  - cbn [app trimStart]. destruct (isWhiteSpace c); [exact IH|].
    change (c :: s ++ w) with ((c :: s) ++ w).
    rewrite trimEnd_app, trimEnd_whitespace by exact H. reflexivity.
Qed.

Lemma join_snoc (sep : jsstr) (l : list jsstr) (x : jsstr) :
  join sep (l ++ [x]) = match l with [] => x | _ => join sep l ++ sep ++ x end.
Proof.
  induction l as [|y l IH]; [reflexivity|].
  destruct l as [|z l]; [reflexivity|].
  change (join sep ((y :: z :: l) ++ [x]))
    with (y ++ sep ++ join sep ((z :: l) ++ [x])).
  rewrite IH.
  change (join sep (y :: z :: l)) with (y ++ sep ++ join sep (z :: l)).
  rewrite <- !app_assoc. reflexivity.
Qed.

Lemma trim_join_blank (buffer : list jsstr) (blank : jsstr) :
  trim blank = [] -> trim (join nl (buffer ++ [blank])) = trim (join nl buffer).
Proof.
  intros Hblank. pose proof (trim_nil_whitespace blank Hblank) as Hws.
  rewrite join_snoc. destruct buffer as [|y l]; [exact Hblank|].
  apply trim_app_whitespace. intros x Hx. apply in_app_or in Hx.
  destruct Hx as [[<- | []] | Hx]; [reflexivity | apply Hws; exact Hx].
Qed.

Lemma processLine_blank (katex : jsstr -> bool -> completion jsstr)
  (s : state) (blank : jsstr) :
  trim blank = [] -> inCode s = false ->
  processLine katex s blank
  = if inMathBlock s then setMath true (mathBuffer s ++ [blank]) s
    else closeBlockquote (closeLists s).
Proof.
  intros Hblank Hcode. unfold processLine. cbv zeta. rewrite Hblank, Hcode.
  change (startsWith FENCE []) with false.
  change (startsWith DD []) with false.
  change (endsWith DD []) with false. cbv iota.
  destruct s as [o b r q c m l cb mb]. cbn in Hcode. subst c.
  destruct m; [reflexivity|].
  destruct b, r, q; reflexivity.
Qed.

(** X16: a blank line at the end of the document changes nothing, unless
    a code block is still open there (then it is a line of the code). *)
Theorem trailing_blank_line_is_ignored
  (katex : jsstr -> bool -> completion jsstr) (lines : list jsstr) (blank : jsstr) :
  trim blank = [] ->
  inCode (scanLines katex lines) = false ->
  convertLines katex (lines ++ [blank]) = convertLines katex lines.
Proof.
  intros Hblank Hcode. unfold convertLines.
  replace (scanLines katex (lines ++ [blank]))
    with (processLine katex (scanLines katex lines) blank)
    by (unfold scanLines; rewrite fold_left_app; reflexivity).
  rewrite processLine_blank by assumption.
  destruct (scanLines katex lines) as [o b r q c m l cb mb].
  cbn in Hcode. subst c. f_equal.
  destruct m.
  - unfold finish, flushCodeBlock, flushMathBlock. cbn -[trim join renderMath].
    rewrite trim_join_blank by exact Hblank.
    destruct (isEmpty (trim (join nl mb))); reflexivity.
  - destruct b, r, q; reflexivity.
Qed.

Lemma trailing_blank_line_is_ignored_witness :
  convertLines (fun _ _ => Throw []) ([str "- item"] ++ [str "  "])
  = convertLines (fun _ _ => Throw []) [str "- item"].
Proof.
  apply (trailing_blank_line_is_ignored (fun _ _ => Throw [])
           [str "- item"] (str "  ") eq_refl eq_refl).
Defined.

(** ** Display math on one line *)

Lemma closing_keeps_flags (s : state) :
  inCode (closeBlockquote (closeLists s)) = inCode s
  /\ inMathBlock (closeBlockquote (closeLists s)) = inMathBlock s.
Proof. destruct s as [o b r q c m l cb mb]. destruct b, r, q; split; reflexivity. Qed.

Lemma endsWith_DD (x : jsstr) : endsWith DD (x ++ DD) = true.
Proof. unfold endsWith. rewrite rev_app_distr. reflexivity. Qed.

Lemma sliceBetween_DD (e : jsstr) : sliceBetween 2 2 (DD ++ e ++ DD) = e.
Proof.
  unfold sliceBetween.
  replace (length (DD ++ e ++ DD) - 2 - 2)%nat with (length e)
    by (rewrite !length_app; cbn [length DD]; lia).
  change (skipn 2 (DD ++ e ++ DD)) with (e ++ DD).
  apply firstn_length_app.
Qed.

Lemma processLine_one_line_math (katex : jsstr -> bool -> completion jsstr)
  (s : state) (line e : jsstr) :
  inCode s = false -> inMathBlock s = false ->
  trim line = DD ++ e ++ DD ->
  processLine katex s line
  = if isEmpty (trim e) then closeBlockquote (closeLists s)
    else push (returned (renderMath katex (trim e) true))
           (closeBlockquote (closeLists s)).
Proof.
  intros Hcode Hmath Htrim.
  destruct (closing_keeps_flags s) as [Fc Fm]. rewrite Hcode in Fc.
  rewrite Hmath in Fm.
  unfold processLine. cbv zeta. rewrite Htrim.
  change (startsWith FENCE (DD ++ e ++ DD)) with false.
  change (startsWith DD (DD ++ e ++ DD)) with true.
  rewrite Hcode. cbv iota.
  rewrite flushCodeBlock_closed by exact Fc. rewrite Fm.
  replace (jsstr_eqb (DD ++ e ++ DD) DD) with false.
  - replace (endsWith DD (DD ++ e ++ DD)) with true
      by (symmetry; rewrite app_assoc; apply endsWith_DD).
    rewrite sliceBetween_DD. reflexivity.
  - symmetry. destruct e as [|c e]; reflexivity.
Qed.

(** X17: display math on one line.  Outside code and math blocks, a line
    that is an expression between two pairs of dollars is rendered in
    display mode at once, with the white space around the expression
    removed and without inline processing; no math block is opened.  When
    nothing but white space is between the pairs the line leaves no
    output. *)
Theorem display_math_on_one_line
  (katex : jsstr -> bool -> completion jsstr) (s : state) (line e : jsstr) :
  inCode s = false -> inMathBlock s = false ->
  trim line = DD ++ e ++ DD ->
  (trim e <> [] ->
   processLine katex s line
   = push (match katex (trim e) true with
           | Normal html => html
           | Throw _ => mathError (trim e)
           end) (closeBlockquote (closeLists s))
   /\ convertLines katex [line]
      = match katex (trim e) true with
        | Normal html => html
        | Throw _ => mathError (trim e)
        end)
  /\ (trim e = [] ->
      processLine katex s line = closeBlockquote (closeLists s)
      /\ convertLines katex [line] = []).
Proof.
  intros Hcode Hmath Htrim.
  assert (Hstep := fun s0 H1 H2 =>
                     processLine_one_line_math katex s0 line e H1 H2 Htrim).
  split.
  - intros Hne.
    assert (Hr : returned (renderMath katex (trim e) true)
                 = match katex (trim e) true with
                   | Normal html => html
                   | Throw _ => mathError (trim e)
                   end).
    { rewrite returned_renderMath; rewrite trim_idempotent;
        [reflexivity | exact Hne]. }
    split.
    + rewrite Hstep by assumption. rewrite <- Hr.
      destruct (trim e); [congruence | reflexivity].
    + unfold convertLines, scanLines. cbn [fold_left].
      rewrite Hstep by reflexivity. rewrite <- Hr.
      destruct (trim e); [congruence | reflexivity].
  - intros He. split.
    + rewrite Hstep by assumption. rewrite He. reflexivity.
    + unfold convertLines, scanLines. cbn [fold_left].
      rewrite Hstep by reflexivity. rewrite He. reflexivity.
Qed.

Lemma display_math_on_one_line_witness :
  convertLines (fun e _ => Normal (str "<m>" ++ e ++ str "</m>")) [str " $$ x<y $$"]
  = str "<m>x<y</m>".
Proof.
  apply (proj2 (proj1 (display_math_on_one_line
                         (fun e _ => Normal (str "<m>" ++ e ++ str "</m>"))
                         initialState (str " $$ x<y $$") (str " x<y ")
                         eq_refl eq_refl eq_refl)
                  ltac:(discriminate))).
Defined.

(** * The editor window's helpers *)

(** ** Paths *)

Lemma replaceAll_backslash (s : jsstr) :
  replaceAll reBackslash [TLit [SLASH]] s
  = map toSlash s.
Proof.
  unfold replaceAll, reBackslash. rewrite replaceAllFrom_single.
  induction s as [|c s IH]; [reflexivity|].
  cbn [flat_map map]. rewrite IH, N.eqb_sym. unfold toSlash.
  destruct (c =? BACKSLASH); reflexivity.
Qed.

Lemma normalizePath_Some (s : jsstr) :
  normalizePath (Some s) = map toSlash s.
Proof.
  unfold normalizePath, truthy. destruct s as [|c s]; [reflexivity|].
  apply replaceAll_backslash.
Qed.

Lemma normalizePath_no_backslash (value : option jsstr) (x : codeunit) :
  In x (normalizePath value) -> x <> BACKSLASH.
Proof.
  destruct value as [s|]; [|contradiction].
  rewrite normalizePath_Some. intros Hin. apply in_map_iff in Hin.
  destruct Hin as [c [<- _]]. unfold toSlash.
  destruct (c =? BACKSLASH) eqn:E; [discriminate|].
  apply N.eqb_neq. exact E.
Qed.

Lemma normalizePath_fixed (s : jsstr) :
  (forall x, In x s -> x <> BACKSLASH) -> normalizePath (Some s) = s.
Proof.
  intros H. rewrite normalizePath_Some.
  induction s as [|c s IH]; [reflexivity|].
  cbn [map]. unfold toSlash at 1. replace (c =? BACKSLASH) with false
    by (symmetry; apply N.eqb_neq; apply H; left; reflexivity).
  f_equal. apply IH. intros x Hx. apply H. right. exact Hx.
Qed.

(** X18: normalizePath turns every backslash into a slash and changes
    nothing else: the result has the length of the path and no backslash,
    normalising twice is normalising once, and a missing path gives the
    empty string. *)
Theorem normalizePath_only_turns_backslashes (value : option jsstr) :
  normalizePath None = []
  /\ (forall s, normalizePath (Some s)
                = map toSlash s)
  /\ (forall s, length (normalizePath (Some s)) = length s)
  /\ (forall x, In x (normalizePath value) -> x <> BACKSLASH)
  /\ normalizePath (Some (normalizePath value)) = normalizePath value.
Proof.
  split; [reflexivity|]. split; [exact normalizePath_Some|].
  split; [intros s; rewrite normalizePath_Some; apply length_map|].
  split; [apply normalizePath_no_backslash|].
  apply normalizePath_fixed. apply normalizePath_no_backslash.
Qed.

Lemma normalizePath_only_turns_backslashes_witness :
  normalizePath (Some (str "a\b")) = str "a/b" /\ ch "/" <> BACKSLASH.
Proof.
  split; [reflexivity|].
  apply (proj1 (proj2 (proj2 (proj2 (normalizePath_only_turns_backslashes
                                       (Some (str "a\b")))))) (ch "/")).
  right. left. reflexivity.
Defined.

Lemma lastIndexOfFrom_absent (c : codeunit) (s : jsstr) :
  (forall x, In x s -> x <> c) ->
  forall i found, lastIndexOfFrom c s i found = found.
Proof.
  induction s as [|x s IH]; intros H i found; [reflexivity|].
  cbn [lastIndexOfFrom].
  replace (x =? c) with false
    by (symmetry; apply N.eqb_neq; apply H; left; reflexivity).
  apply IH. intros y Hy. apply H. right. exact Hy.
Qed.

Lemma lastIndexOfFrom_last (c : codeunit) (a b : jsstr) :
  (forall x, In x b -> x <> c) ->
  forall i found,
    lastIndexOfFrom c (a ++ c :: b) i found = (i + Z.of_nat (length a))%Z.
Proof.
  intros Hb. induction a as [|x a IH]; intros i found.
  - cbn [app lastIndexOfFrom length]. rewrite N.eqb_refl.
    rewrite lastIndexOfFrom_absent by exact Hb. cbn. lia.
  - cbn [app lastIndexOfFrom]. rewrite IH. cbn [length]. lia.
Qed.

Lemma normalizePath_name (name : jsstr) :
  forallb (fun c => negb (isSeparator c)) name = true ->
  map toSlash name = name
  /\ forall x, In x name -> x <> SLASH.
Proof.
  intros H. rewrite forallb_forall in H. split.
  - induction name as [|c name IH]; [reflexivity|].
    cbn [map]. rewrite IH by (intros x Hx; apply H; right; exact Hx).
    specialize (H c (or_introl eq_refl)). apply negb_true_iff in H.
    unfold isSeparator in H. apply orb_false_iff in H. destruct H as [_ H].
    unfold toSlash at 1. rewrite H. reflexivity.
  - intros x Hx. specialize (H x Hx). apply negb_true_iff in H.
    unfold isSeparator in H. apply orb_false_iff in H. destruct H as [H _].
    apply N.eqb_neq. exact H.
Qed.

(** X19: dirname.  For a path that ends in a separator (slash or
    backslash) and a file name, after a non-empty directory part, the
    result is the directory part with its backslashes turned into slashes.
    A path with no separator, and a file directly under the root, are
    returned as they are, and a missing path gives the empty string. *)
Theorem dirname_drops_the_file_name (dir name : jsstr) (sep : codeunit) :
  isSeparator sep = true ->
  forallb (fun c => negb (isSeparator c)) name = true ->
  (dir <> [] ->
   dirname (Some (dir ++ [sep] ++ name)) = normalizePath (Some dir))
  /\ dirname (Some name) = name
  /\ dirname (Some ([sep] ++ name)) = [SLASH] ++ name
  /\ dirname None = [].
Proof.
  intros Hsep Hname.
  destruct (normalizePath_name name Hname) as [Hmap Hslash].
  assert (Esep : toSlash sep = SLASH).
  { unfold isSeparator in Hsep. unfold toSlash. destruct (sep =? BACKSLASH); [reflexivity|].
    rewrite orb_false_r in Hsep. apply N.eqb_eq. exact Hsep. }
  split; [|split; [|split]].
  - intros Hdir. unfold dirname. cbv zeta.
    rewrite !normalizePath_Some, !map_app. cbn [map]. rewrite Hmap, Esep.
    cbn [app]. unfold lastIndexOf. rewrite lastIndexOfFrom_last by exact Hslash.
    rewrite length_map.
    destruct dir as [|d dir]; [congruence|].
    replace (0 + Z.of_nat (length (d :: dir)) <=? 0)%Z with false
      by (symmetry; apply Z.leb_gt; cbn [length]; lia).
    rewrite Z.add_0_l, Nat2Z.id.
    rewrite <- (length_map toSlash (d :: dir)).
    apply firstn_length_app.
  - unfold dirname. cbv zeta. rewrite normalizePath_Some, Hmap.
    unfold lastIndexOf. rewrite lastIndexOfFrom_absent by exact Hslash.
    destruct name; reflexivity.
  - unfold dirname. cbv zeta. rewrite normalizePath_Some.
    cbn [app map]. rewrite Hmap, Esep.
    unfold lastIndexOf.
    rewrite (lastIndexOfFrom_last SLASH [] name) by exact Hslash.
    reflexivity.
  - reflexivity.
Qed.

Lemma dirname_drops_the_file_name_witness :
  dirname (Some (str "C:\notes\today" ++ [BACKSLASH] ++ str "plan.md"))
  = str "C:/notes/today".
Proof.
  apply (proj1 (dirname_drops_the_file_name (str "C:\notes\today")
                  (str "plan.md") BACKSLASH eq_refl eq_refl)).
  discriminate.
Defined.

(** X20: document keys.  The key of a document is never empty; a missing
    or empty path has the key of the untitled document, and so has a file
    whose path is that key itself; two non-empty paths have the same key
    exactly when they agree once their backslashes are turned into
    slashes. *)
Theorem getDocumentKey_identifies_paths (filePath : option jsstr) :
  getDocumentKey filePath <> []
  /\ getDocumentKey None = UNTITLED_DOCUMENT_KEY
  /\ getDocumentKey (Some []) = UNTITLED_DOCUMENT_KEY
  /\ getDocumentKey (Some UNTITLED_DOCUMENT_KEY) = getDocumentKey None
  /\ (forall a b,
        map toSlash a = map toSlash b ->
        getDocumentKey (Some a) = getDocumentKey (Some b))
  /\ (forall a b,
        a <> [] -> b <> [] ->
        getDocumentKey (Some a) = getDocumentKey (Some b) ->
        map toSlash a = map toSlash b).
Proof.
  split; [|split; [|split; [|split; [|split]]]]; try reflexivity.
  - unfold getDocumentKey. cbv zeta.
    destruct (normalizePath filePath); discriminate.
  - intros a b E. unfold getDocumentKey. cbv zeta.
    rewrite !normalizePath_Some, E. reflexivity.
  - intros a b Ha Hb E. unfold getDocumentKey in E. cbv zeta in E.
    rewrite !normalizePath_Some in E.
    destruct a as [|x a]; [congruence|]. destruct b as [|y b]; [congruence|].
    exact E.
Qed.

Lemma getDocumentKey_identifies_paths_witness :
  getDocumentKey (Some (str "C:\notes\a.md")) = getDocumentKey (Some (str "C:/notes/a.md")).
Proof.
  apply (proj1 (proj2 (proj2 (proj2 (proj2 (getDocumentKey_identifies_paths None)))))
           (str "C:\notes\a.md") (str "C:/notes/a.md") eq_refl).
Defined.

(** ** Tag labels *)

(** X21: a tag label always starts with a hash sign, a tag that has one
    keeps it (none is added), and labelling a label changes nothing. *)
Theorem formatTagLabel_adds_one_hash (tag : jsstr) :
  startsWith (str "#") (formatTagLabel tag) = true
  /\ formatTagLabel (str "#" ++ tag) = str "#" ++ tag
  /\ formatTagLabel (formatTagLabel tag) = formatTagLabel tag
  /\ (startsWith (str "#") tag = false ->
      formatTagLabel tag = formatTagLabel (str "#" ++ tag)).
Proof.
  unfold formatTagLabel.
  change (startsWith (str "#") (str "#" ++ tag)) with true. cbn [negb].
  destruct (startsWith (str "#") tag) eqn:E; cbn [negb].
  - rewrite E. repeat split. discriminate.
  - change (startsWith (str "#") (str "#" ++ tag)) with true.
    repeat split.
Qed.

Lemma formatTagLabel_adds_one_hash_witness :
  formatTagLabel (str "todo") = formatTagLabel (str "#" ++ str "todo").
Proof.
  apply (proj2 (proj2 (proj2 (formatTagLabel_adds_one_hash (str "todo"))))).
  reflexivity.
Defined.

(** ** Word count *)

Lemma pmatch_reSpaces (prev : option codeunit) (s : jsstr) :
  pmatch reSpaces prev s
  = match spanLen isWhiteSpace s with
    | O => None
    | S n => Some ([], skipn (S n) s)
    end.
Proof.
  unfold reSpaces. rewrite pmatch_Rep_unfold. unfold greedyMax.
  destruct (spanLen isWhiteSpace s) as [|n]; [reflexivity|].
  apply backtrack_first; [lia | reflexivity].
Qed.

Lemma spanLen_le (f : codeunit -> bool) (s : jsstr) :
  (spanLen f s <= length s)%nat.
Proof.
  induction s as [|c s IH]; [apply le_n|].
  cbn [spanLen length]. destruct (f c); lia.
Qed.

Lemma spaceRuns_skip (s : jsstr) :
  spaceRuns true s = spaceRuns false (skipn (spanLen isWhiteSpace s) s).
Proof.
  induction s as [|c s IH]; [reflexivity|].
  cbn [spaceRuns spanLen]. destruct (isWhiteSpace c) eqn:W.
  - cbn [skipn]. exact IH.
  - cbn [skipn spaceRuns]. rewrite W. reflexivity.
Qed.

Lemma length_splitFrom (s : jsstr) :
  forall prev skip piece,
    length (splitFrom reSpaces prev skip piece s)
    = S (spaceRuns false (skipn skip s)).
Proof.
  induction s as [|c s IH]; intros prev skip piece.
  - destruct skip; reflexivity.
  - destruct skip as [|k].
    + cbn [splitFrom skipn]. rewrite pmatch_reSpaces.
      cbn [spanLen spaceRuns]. destruct (isWhiteSpace c) eqn:W.
      * rewrite length_skipn.
        replace (length (c :: s) - (length (c :: s) - S (spanLen isWhiteSpace s)))%nat
          with (S (spanLen isWhiteSpace s))
          by (pose proof (spanLen_le isWhiteSpace s); cbn [length]; lia).
        cbn [app length]. rewrite IH, spaceRuns_skip. reflexivity.
      * rewrite IH. reflexivity.
    + cbn [splitFrom skipn]. apply IH.
Qed.

Lemma wordStarts_whitespace (s : jsstr) :
  (forall x, In x s -> isWhiteSpace x = true) ->
  forall b, wordStarts b s = 0%nat.
Proof.
  induction s as [|c s IH]; intros H b; [reflexivity|].
  cbn [wordStarts]. rewrite (H c) by (left; reflexivity).
  apply IH. intros x Hx. apply H. right. exact Hx.
Qed.

Lemma wordStarts_trimStart (s : jsstr) :
  wordStarts false (trimStart s) = wordStarts false s.
Proof.
  induction s as [|c s IH]; [reflexivity|].
  cbn [trimStart]. destruct (isWhiteSpace c) eqn:W; [|reflexivity].
  cbn [wordStarts]. rewrite W. exact IH.
Qed.

Lemma wordStarts_trimEnd (s : jsstr) :
  forall b, wordStarts b (trimEnd s) = wordStarts b s.
Proof.
  induction s as [|c s IH]; intros b; [reflexivity|].
  cbn [trimEnd]. destruct (trimEnd s) as [|d t] eqn:E.
  - pose proof (trimEnd_nil_whitespace s E) as Hws.
    cbn [wordStarts]. destruct (isWhiteSpace c) eqn:W.
    + rewrite (wordStarts_whitespace s Hws). reflexivity.
    + cbn [wordStarts]. rewrite W.
      rewrite (wordStarts_whitespace s Hws). reflexivity.
  - remember (d :: t) as r eqn:Er. cbn [wordStarts].
    destruct (isWhiteSpace c); rewrite IH; reflexivity.
Qed.

Lemma trimEnd_tail (c : codeunit) (s : jsstr) :
  trimEnd (c :: s) = c :: s -> s = [] \/ (s <> [] /\ trimEnd s = s).
Proof.
  cbn [trimEnd]. destruct (trimEnd s) as [|d t] eqn:E.
  - destruct (isWhiteSpace c); [discriminate|].
    intros H. injection H as H. left. symmetry. exact H.
  - intros H. injection H as H. right. rewrite <- H. split; [discriminate|].
    reflexivity.
Qed.

Lemma trimEnd_head_unit (c : codeunit) : trimEnd [c] = [c] -> isWhiteSpace c = false.
Proof. cbn [trimEnd]. destruct (isWhiteSpace c); [discriminate | reflexivity]. Qed.

(** For a text that does not end in white space: one more word than runs
    of white space, counted from inside a word or a run. *)
Lemma wordStarts_spaceRuns (s : jsstr) :
  s <> [] -> trimEnd s = s ->
  wordStarts true s = spaceRuns false s
  /\ wordStarts false s = S (spaceRuns true s).
Proof.
  induction s as [|c s IH]; intros Hne Hfix; [congruence|].
  destruct (trimEnd_tail c s Hfix) as [-> | [Hs Hs']].
  - apply trimEnd_head_unit in Hfix. cbn [wordStarts spaceRuns].
    rewrite Hfix. split; reflexivity.
  - destruct (IH Hs Hs') as [A B]. cbn [wordStarts spaceRuns].
    destruct (isWhiteSpace c).
    + rewrite B. split; reflexivity.
    + rewrite A. split; reflexivity.
Qed.

Lemma computeStats_words_wordStarts (value : jsstr) :
  computeStats_words value = wordStarts false value.
Proof.
  unfold computeStats_words.
  rewrite <- (wordStarts_trimStart value).
  rewrite <- (wordStarts_trimEnd (trimStart value)).
  fold (trim value).
  pose proof (trimEnd_idempotent (trimStart value)) as Hfix. fold (trim value) in Hfix.
  destruct (trimStart_head value) as [E | [c [t [E W]]]].
  - unfold trim. rewrite E. reflexivity.
  - destruct (trimEnd_head c t W) as [u Hu].
    assert (Et : trim value = c :: u) by (unfold trim; rewrite E; exact Hu).
    rewrite Et in *. cbn [isEmpty splitRe].
    rewrite length_splitFrom. cbn [skipn].
    destruct (wordStarts_spaceRuns (c :: u)) as [_ B];
      [discriminate | exact Hfix |].
    rewrite B. cbn [spaceRuns]. rewrite W. reflexivity.
Qed.

Lemma wordStarts_le (s : jsstr) : forall b, (wordStarts b s <= length s)%nat.
Proof.
  induction s as [|c s IH]; intros b; [apply le_n|].
  cbn [wordStarts length]. destruct (isWhiteSpace c).
  - specialize (IH false). lia.
  - specialize (IH true). destruct b; lia.
Qed.

Lemma wordStarts_solid (s : jsstr) :
  (forall x, In x s -> isWhiteSpace x = false) -> wordStarts true s = 0%nat.
Proof.
  induction s as [|c s IH]; intros H; [reflexivity|].
  cbn [wordStarts]. rewrite (H c) by (left; reflexivity).
  apply IH. intros x Hx. apply H. right. exact Hx.
Qed.

(** X22: the word count of the status bar is the number of places where a
    run of non-space characters starts.  It is at most the number of
    characters, it is zero for a text of white space only, and a text
    with no white space in it counts as one word whatever its length. *)
Theorem word_count_counts_runs_between_spaces (value : jsstr) :
  computeStats_words value = wordStarts false value
  /\ (computeStats_words value <= computeStats_characters value)%nat
  /\ (trim value = [] -> computeStats_words value = 0%nat)
  /\ (value <> [] -> (forall x, In x value -> isWhiteSpace x = false) ->
      computeStats_words value = 1%nat).
Proof.
  split; [apply computeStats_words_wordStarts|].
  split; [|split].
  - rewrite computeStats_words_wordStarts. apply wordStarts_le.
  - intros E. unfold computeStats_words. rewrite E. reflexivity.
  - intros Hne Hsolid. rewrite computeStats_words_wordStarts.
    destruct value as [|c s]; [congruence|].
    cbn [wordStarts]. rewrite (Hsolid c) by (left; reflexivity).
    rewrite wordStarts_solid by (intros x Hx; apply Hsolid; right; exact Hx).
    reflexivity.
Qed.

Lemma word_count_counts_runs_between_spaces_witness :
  computeStats_words (str "markdown") = 1%nat.
Proof.
  apply (proj2 (proj2 (proj2 (word_count_counts_runs_between_spaces
                                (str "markdown"))))).
  - discriminate.
  - intros x Hin. simpl in Hin.
    repeat (destruct Hin as [<- | Hin]; [reflexivity|]). contradiction.
Defined.

Example computeStats_words_example :
  computeStats_words (str "  two  words ") = 2%nat
  /\ splitRe reSpaces (str "a b  c") = [str "a"; str "b"; str "c"].
Proof. split; reflexivity. Qed.

(** * Blocks inside any document *)

(** ** Fenced code *)

Lemma processLine_opening_fence_any (katex : jsstr -> bool -> completion jsstr)
  (s : state) (line : jsstr) :
  inCode s = false -> isFenceLine line = true ->
  processLine katex s line
  = setCode true (trim (sliceFrom 3 (trim line))) (codeBuffer s)
      (flushMathBlock katex (closeBlockquote (closeLists s))).
Proof.
  intros Hcode Hfence. unfold processLine, isFenceLine in *. cbv zeta.
  rewrite Hfence, Hcode. f_equal.
  destruct s as [o b r q c m l cb mb].
  unfold flushMathBlock.
  destruct b, r, q, m; cbn -[trim join renderMath];
    try destruct (isEmpty (trim (join nl mb))); reflexivity.
Qed.

Lemma closing_for_code_keeps_flags (katex : jsstr -> bool -> completion jsstr)
  (s : state) :
  inCode (flushMathBlock katex (closeBlockquote (closeLists s))) = inCode s
  /\ inMathBlock (flushMathBlock katex (closeBlockquote (closeLists s))) = false
  /\ inBullet (flushMathBlock katex (closeBlockquote (closeLists s))) = false
  /\ inOrdered (flushMathBlock katex (closeBlockquote (closeLists s))) = false
  /\ inBlockquote (flushMathBlock katex (closeBlockquote (closeLists s))) = false.
Proof.
  destruct s as [o b r q c m l cb mb]. unfold flushMathBlock.
  destruct b, r, q, m; cbn -[trim join renderMath];
    try destruct (isEmpty (trim (join nl mb))); repeat split.
Qed.

Lemma scan_fenced_block (katex : jsstr -> bool -> completion jsstr)
  (before : list jsstr) (opening closing : jsstr) (body : list jsstr) :
  inCode (scanLines katex before) = false ->
  isFenceLine opening = true -> isFenceLine closing = true ->
  Forall (fun l => isFenceLine l = false) body ->
  scanLines katex (before ++ opening :: body)
  = setCode true (trim (sliceFrom 3 (trim opening))) body
      (flushMathBlock katex (closeBlockquote (closeLists (scanLines katex before))))
  /\ scanLines katex (before ++ opening :: body ++ [closing])
     = setCode false [] []
         (push (codeBlockHtml (trim (sliceFrom 3 (trim opening))) body)
            (flushMathBlock katex
               (closeBlockquote (closeLists (scanLines katex before))))).
Proof.
  intros Hcode Hopen Hclose Hbody.
  assert (Hbuf : codeBuffer (scanLines katex before) = []).
  { assert (Hc : scannerConsistent (scanLines katex before)).
    { apply scannerConsistent_scan.
      cbv [scannerConsistent openBlocks openCount initialState
           inBullet inOrdered inBlockquote inCode inMathBlock
           codeLanguage codeBuffer mathBuffer Nat.add].
      repeat split. lia. }
    destruct Hc as [_ [Hc _]]. apply (Hc Hcode). }
  assert (E : scanLines katex (before ++ opening :: body)
              = setCode true (trim (sliceFrom 3 (trim opening))) body
                  (flushMathBlock katex
                     (closeBlockquote (closeLists (scanLines katex before))))).
  { unfold scanLines. rewrite fold_left_app. cbn [fold_left].
    fold (scanLines katex before).
    rewrite processLine_opening_fence_any by assumption.
    rewrite scan_code_lines by (auto; reflexivity).
    rewrite Hbuf. reflexivity. }
  split; [exact E|].
  replace (before ++ opening :: body ++ [closing])
    with ((before ++ opening :: body) ++ [closing])
    by (rewrite <- app_assoc; reflexivity).
  unfold scanLines. rewrite fold_left_snoc.
  fold (scanLines katex (before ++ opening :: body)). rewrite E.
  rewrite processLine_closing_fence by (auto; reflexivity).
  reflexivity.
Qed.

(** C2: while a fenced code block is open, a line that is not a fence is
    appended to the code buffer as it is, whatever it looks like, and changes
    nothing else; a document that is one fenced block renders as the joined
    lines, HTML-escaped and not inline-transformed; the fence around
    [**not bold**] renders the text literally inside [<code>], with no
    [<strong>].  The same holds in every state and at every place of a
    document: the closing fence and the end of the input write
    [<pre><code>] around the escaped buffer joined by newlines, whatever
    was written before; an opening fence closes what is open and starts
    the block; and a fenced block after any lines that leave no code block
    open adds exactly that fragment to what those lines gave. *)
Theorem fenced_code_is_kept_verbatim (katex : jsstr -> bool -> completion jsstr) :
  (forall s line,
      inCode s = true -> isFenceLine line = false ->
      processLine katex s line
      = setCode true (codeLanguage s) (codeBuffer s ++ [line]) s)
  /\ (forall opening body closing,
         isFenceLine opening = true -> isFenceLine closing = true ->
         Forall (fun l => isFenceLine l = false) body ->
         convertLines katex (opening :: body ++ [closing])
         = str "<pre><code"
           ++ (if isEmpty (trim (sliceFrom 3 (trim opening))) then []
               else str " class=" ++ quot ++ str "language-"
                    ++ trim (sliceFrom 3 (trim opening)) ++ quot)
           ++ str ">" ++ escapeHtml (join nl body) ++ str "</code></pre>")
  /\ convertMarkdown katex (str "```" ++ nl ++ str "**not bold**" ++ nl ++ str "```")
     = str "<pre><code>**not bold**</code></pre>"
  /\ includes (str "<strong>")
       (convertMarkdown katex
          (str "```" ++ nl ++ str "**not bold**" ++ nl ++ str "```")) = false
  /\ (forall s line,
         inCode s = true -> isFenceLine line = true ->
         processLine katex s line
         = setCode false [] []
             (push (str "<pre><code"
                    ++ (if isEmpty (codeLanguage s) then []
                        else str " class=" ++ quot ++ str "language-"
                             ++ codeLanguage s ++ quot)
                    ++ str ">" ++ escapeHtml (join nl (codeBuffer s))
                    ++ str "</code></pre>") s))
  /\ (forall s,
         inCode s = true ->
         flushCodeBlock s
         = setCode false [] []
             (push (str "<pre><code"
                    ++ (if isEmpty (codeLanguage s) then []
                        else str " class=" ++ quot ++ str "language-"
                             ++ codeLanguage s ++ quot)
                    ++ str ">" ++ escapeHtml (join nl (codeBuffer s))
                    ++ str "</code></pre>") s))
  /\ (forall s line,
         inCode s = false -> isFenceLine line = true ->
         processLine katex s line
         = setCode true (trim (sliceFrom 3 (trim line))) (codeBuffer s)
             (flushMathBlock katex (closeBlockquote (closeLists s))))
  /\ (forall before opening body closing,
         inCode (scanLines katex before) = false ->
         isFenceLine opening = true -> isFenceLine closing = true ->
         Forall (fun l => isFenceLine l = false) body ->
         scanLines katex (before ++ opening :: body ++ [closing])
         = setCode false [] []
             (push (str "<pre><code"
                    ++ (if isEmpty (trim (sliceFrom 3 (trim opening))) then []
                        else str " class=" ++ quot ++ str "language-"
                             ++ trim (sliceFrom 3 (trim opening)) ++ quot)
                    ++ str ">" ++ escapeHtml (join nl body)
                    ++ str "</code></pre>")
                (flushMathBlock katex
                   (closeBlockquote (closeLists (scanLines katex before)))))
         /\ convertLines katex (before ++ opening :: body)
            = join nl
                (output (flushMathBlock katex
                           (closeBlockquote (closeLists (scanLines katex before))))
                 ++ [str "<pre><code"
                     ++ (if isEmpty (trim (sliceFrom 3 (trim opening))) then []
                         else str " class=" ++ quot ++ str "language-"
                              ++ trim (sliceFrom 3 (trim opening)) ++ quot)
                     ++ str ">" ++ escapeHtml (join nl body)
                     ++ str "</code></pre>"])).
Proof.
  split; [|split; [|split; [|split; [|split; [|split; [|split]]]]]].
  - intros s line. apply processLine_in_code.
  - intros opening body closing Ho Hc Hb.
    rewrite convertLines_closed_code_block by assumption. reflexivity.
  - vm_compute. reflexivity.
  - vm_compute. reflexivity.
  - intros s line Hin Hfence.
    rewrite processLine_closing_fence by assumption. reflexivity.
  - intros s Hin. unfold flushCodeBlock. rewrite Hin. reflexivity.
  - intros s line. apply processLine_opening_fence_any.
  - intros before opening body closing Hcode Ho Hc Hb.
    destruct (scan_fenced_block katex before opening closing body Hcode Ho Hc Hb)
      as [E1 E2].
    split; [exact E2|].
    unfold convertLines. rewrite E1.
    destruct (closing_for_code_keeps_flags katex (scanLines katex before))
      as [F1 [F2 [F3 [F4 F5]]]].
    rewrite output_finish.
    cbn [inCode inMathBlock inBullet inOrdered inBlockquote output setCode
         codeLanguage codeBuffer].
    rewrite F2, F3, F4, F5. rewrite !app_nil_r. reflexivity.
Qed.

Lemma fenced_code_is_kept_verbatim_witness :
  processLine (fun _ _ => Throw []) (setCode true (str "js") [str "a"] initialState)
    (str "# not a heading")
  = setCode true (str "js") [str "a"; str "# not a heading"] initialState
  /\ convertLines (fun _ _ => Throw [])
       [str "```js"; str "- <b>"; str "$$"; str "```"]
     = str "<pre><code class=" ++ quot ++ str "language-js" ++ quot ++ str ">"
       ++ str "- &lt;b&gt;" ++ nl ++ str "$$" ++ str "</code></pre>"
  /\ output (scanLines (fun _ _ => Throw [])
               ([str "intro"; str "- item"]
                ++ str "```" :: [str "**not bold** <b>"] ++ [str "```"]))
     = [str "<p>intro</p>"; str "<ul>"; str "<li>item</li>"; str "</ul>";
        str "<pre><code>**not bold** &lt;b&gt;</code></pre>"].
Proof.
  split; [|split].
  - apply (proj1 (fenced_code_is_kept_verbatim (fun _ _ => Throw []))
             (setCode true (str "js") [str "a"] initialState)
             (str "# not a heading")); reflexivity.
  - apply (proj1 (proj2 (fenced_code_is_kept_verbatim (fun _ _ => Throw [])))
             (str "```js") [str "- <b>"; str "$$"] (str "```"));
      [reflexivity | reflexivity | repeat constructor].
  - assert (Hbody : Forall (fun l => isFenceLine l = false) [str "**not bold** <b>"])
      by (repeat constructor).
    rewrite (proj1 (proj2 (proj2 (proj2 (proj2 (proj2 (proj2 (proj2
               (fenced_code_is_kept_verbatim (fun _ _ => Throw []))))))))
               [str "intro"; str "- item"] (str "```")
               [str "**not bold** <b>"] (str "```")
               eq_refl eq_refl eq_refl Hbody)).
    reflexivity.
Defined.

(** ** Math blocks *)









Section MathBlocks.

Variable katex : jsstr -> bool -> completion jsstr.








End MathBlocks.



(** ** Lists are closed before the next block *)

Lemma output_closeLists (s : state) :
  output (closeLists s)
  = output s ++ (if inBullet s then [UL_END] else [])
    ++ (if inOrdered s then [OL_END] else [])
  /\ inBullet (closeLists s) = false /\ inOrdered (closeLists s) = false.
Proof.
  destruct s as [o b r q c m l cb mb].
  destruct b, r; cbn; rewrite <- ?app_assoc, ?app_nil_r; repeat split.
Qed.

Lemma after_closeLists (s : state) :
  listsClosedAfter (output (closeLists s)) (closeLists s).
Proof.
  destruct (output_closeLists s) as [_ [Hb Ho]].
  split; [exists []; rewrite app_nil_r; reflexivity | split; assumption].
Qed.

Lemma after_push (before : list jsstr) (x : jsstr) (s : state) :
  listsClosedAfter before s -> listsClosedAfter before (push x s).
Proof.
  intros [[rest E] [Hb Ho]]. split; [|split; assumption].
  exists (rest ++ [x]). cbn [output push]. rewrite E, app_assoc. reflexivity.
Qed.

Lemma after_closeBlockquote (before : list jsstr) (s : state) :
  listsClosedAfter before s -> listsClosedAfter before (closeBlockquote s).
Proof.
  intros H. unfold closeBlockquote. destruct (inBlockquote s); [|exact H].
  apply (after_push before (str "</blockquote>") s) in H.
  destruct H as [E [Hb Ho]]. split; [exact E | split; assumption].
Qed.

Lemma after_flushCodeBlock (before : list jsstr) (s : state) :
  listsClosedAfter before s -> listsClosedAfter before (flushCodeBlock s).
Proof.
  intros H. unfold flushCodeBlock. destruct (negb (inCode s)); [exact H|].
  apply (after_push before (codeBlockHtml (codeLanguage s) (codeBuffer s)) s) in H.
  destruct H as [E [Hb Ho]]. split; [exact E | split; assumption].
Qed.

Lemma after_setMath (before : list jsstr) (b : bool) (buffer : list jsstr)
  (s : state) :
  listsClosedAfter before s -> listsClosedAfter before (setMath b buffer s).
Proof. intros H. exact H. Qed.

Lemma after_setCode (before : list jsstr) (b : bool) (language : jsstr)
  (buffer : list jsstr) (s : state) :
  listsClosedAfter before s -> listsClosedAfter before (setCode b language buffer s).
Proof. intros H. exact H. Qed.

Lemma after_setInBlockquote (before : list jsstr) (b : bool) (s : state) :
  listsClosedAfter before s -> listsClosedAfter before (setInBlockquote b s).
Proof. intros H. exact H. Qed.

Lemma after_flushMathBlock (katex : jsstr -> bool -> completion jsstr)
  (before : list jsstr) (s : state) :
  listsClosedAfter before s -> listsClosedAfter before (flushMathBlock katex s).
Proof.
  intros H. unfold flushMathBlock. destruct (negb (inMathBlock s)); [exact H|].
  cbv zeta. apply after_setMath.
  destruct (isEmpty (trim (join nl (mathBuffer s)))); [exact H|].
  apply after_push. exact H.
Qed.

Ltac lists_closed_after :=
  repeat first
    [ apply after_closeLists
    | apply after_push
    | apply after_closeBlockquote
    | apply after_flushCodeBlock
    | apply after_flushMathBlock
    | apply after_setMath
    | apply after_setCode
    | apply after_setInBlockquote ].

(** A line that is not a list item closes the open list first. *)
Lemma processLine_closes_lists (katex : jsstr -> bool -> completion jsstr)
  (s : state) (line : jsstr) :
  inCode s = false -> inMathBlock s = false ->
  testStart reOrdered (trim line) = false ->
  testStart reBullet (trim line) = false ->
  listsClosedAfter (output (closeLists s)) (processLine katex s line).
Proof.
  intros Hcode Hmath Hord Hbul.
  unfold processLine. cbv zeta. rewrite Hcode, Hmath, Hord, Hbul.
  destruct (startsWith FENCE (trim line)); [lists_closed_after|].
  destruct (startsWith DD (trim line)).
  - repeat match goal with
           | |- context [if ?b then _ else _] => destruct b
           end; lists_closed_after.
  - destruct (isEmpty (trim line)); [lists_closed_after|].
    destruct (matchStart reHeading (trim line)) as [[hm r]|];
      [lists_closed_after|].
    destruct (testRule (trim line)); [lists_closed_after|].
    destruct (testStart reQuote (trim line)); [|lists_closed_after].
    destruct (negb (inBlockquote (closeLists s))); lists_closed_after.
Qed.

Lemma lists_closed_in_blocks (katex : jsstr -> bool -> completion jsstr)
  (lines : list jsstr) :
  inCode (scanLines katex lines) = true \/ inMathBlock (scanLines katex lines) = true ->
  inBullet (scanLines katex lines) = false
  /\ inOrdered (scanLines katex lines) = false.
Proof.
  assert (Hc : scannerConsistent (scanLines katex lines)).
  { apply scannerConsistent_scan.
    cbv [scannerConsistent openBlocks openCount initialState
         inBullet inOrdered inBlockquote inCode inMathBlock
         codeLanguage codeBuffer mathBuffer Nat.add].
    repeat split. lia. }
  destruct Hc as [Hopen _]. unfold openBlocks in Hopen.
  destruct (scanLines katex lines) as [o b r q c m l cb mb].
  cbn [inBullet inOrdered inBlockquote inCode inMathBlock] in *.
  intros [-> | ->]; destruct b, r; cbn in Hopen; try lia; split; reflexivity.
Qed.

(** C3, as the code has it: the scanner closes every list it opens.  Among
    the fragments that are joined into the output there are as many [<ul>]
    as [</ul>] and as many [<ol>] as [</ol>], when the math renderer never
    returns a bare list tag; and when what the renderer returns and the
    info strings of the fence lines hold no start of a list tag (code
    language and math HTML are written to the output as they are), the
    output string holds as many [<ul>] as [</ul>] and as many [<ol>] as
    [</ol>].  The list of [- a / - b] is closed before the paragraph of
    [c].  Every opened list is closed before the next block that is not
    a list and at the end of the input: outside code and math blocks a
    line that is not a list item first writes the closing tag of the open
    list, before anything else, and leaves no list open; a list item of
    the other kind closes the open list before it opens its own; no list
    is open inside a code or math block; and the closing calls after the
    last line write the closing tags and leave no list open. *)
Theorem scanner_closes_the_lists_it_opens
  (katex : jsstr -> bool -> completion jsstr) :
  (forall raw, convertMarkdown katex raw = join nl (documentFragments katex raw))
  /\ ((forall e d html, katex e d = Normal html -> isListTag html = false) ->
      forall raw,
        countFragments UL (documentFragments katex raw)
        = countFragments UL_END (documentFragments katex raw)
        /\ countFragments OL (documentFragments katex raw)
           = countFragments OL_END (documentFragments katex raw))
  /\ ((forall e d html,
          katex e d = Normal html -> listTagFreeClosed html = true) ->
      forall raw,
        Forall (fun line => fenceInfoOk line = true) (documentLines raw) ->
        occurrences UL (convertMarkdown katex raw)
        = occurrences UL_END (convertMarkdown katex raw)
        /\ occurrences OL (convertMarkdown katex raw)
           = occurrences OL_END (convertMarkdown katex raw))
  /\ convertMarkdown katex
       (str "- a" ++ nl ++ str "- b" ++ nl ++ nl ++ str "c")
     = str "<ul>" ++ nl ++ str "<li>a</li>" ++ nl ++ str "<li>b</li>" ++ nl
       ++ str "</ul>" ++ nl ++ str "<p>c</p>"
  /\ (forall s,
         output (closeLists s)
         = output s ++ (if inBullet s then [str "</ul>"] else [])
           ++ (if inOrdered s then [str "</ol>"] else [])
         /\ inBullet (closeLists s) = false /\ inOrdered (closeLists s) = false)
  /\ (forall s line,
         inCode s = false -> inMathBlock s = false ->
         testStart reOrdered (trim line) = false ->
         testStart reBullet (trim line) = false ->
         (exists rest,
             output (processLine katex s line)
             = (output s ++ (if inBullet s then [str "</ul>"] else [])
                ++ (if inOrdered s then [str "</ol>"] else [])) ++ rest)
         /\ inBullet (processLine katex s line) = false
         /\ inOrdered (processLine katex s line) = false)
  /\ (forall s line,
         inCode s = false -> inMathBlock s = false ->
         testStart reOrdered (trim line) = true ->
         processLine katex s line
         = push (itemHtml katex (stripStart reOrdered (trim line)))
             (if inOrdered s then s
              else setInOrdered true
                     (push (str "<ol>") (closeBlockquote (closeLists s)))))
  /\ (forall s line,
         inCode s = false -> inMathBlock s = false ->
         testStart reBullet (trim line) = true ->
         processLine katex s line
         = push (itemHtml katex (stripStart reBullet (trim line)))
             (if inBullet s then s
              else setInBullet true
                     (push (str "<ul>") (closeBlockquote (closeLists s)))))
  /\ (forall lines,
         inCode (scanLines katex lines) = true
         \/ inMathBlock (scanLines katex lines) = true ->
         inBullet (scanLines katex lines) = false
         /\ inOrdered (scanLines katex lines) = false)
  /\ (forall s,
         output (finish katex s)
         = output s
           ++ (if inCode s
               then [codeBlockHtml (codeLanguage s) (codeBuffer s)] else [])
           ++ (if inMathBlock s
               then if isEmpty (trim (join nl (mathBuffer s))) then []
                    else [returned (renderMath katex
                                      (trim (join nl (mathBuffer s))) true)]
               else [])
           ++ (if inBullet s then [str "</ul>"] else [])
           ++ (if inOrdered s then [str "</ol>"] else [])
           ++ (if inBlockquote s then [str "</blockquote>"] else [])
         /\ inBullet (finish katex s) = false
         /\ inOrdered (finish katex s) = false).
Proof.
  split; [|split; [|split; [|split; [|split; [|split; [|split; [|split; [|split]]]]]]]].
  - intros raw. reflexivity.
  - intros Hk raw. apply fragments_balanced. exact Hk.
  - intros Hk raw Hlines. apply occurrences_balanced; assumption.
  - vm_compute. reflexivity.
  - apply output_closeLists.
  - intros s line Hcode Hmath Hord Hbul.
    destruct (processLine_closes_lists katex s line Hcode Hmath Hord Hbul)
      as [[rest E] [Hb Ho]].
    split; [|split; assumption].
    exists rest. rewrite E. rewrite (proj1 (output_closeLists s)). reflexivity.
  - intros s line. apply processLine_ordered.
  - intros s line. apply processLine_bullet.
  - apply lists_closed_in_blocks.
  - intros s. split; [apply output_finish|].
    unfold finish. apply closed_after_closing.
Qed.

Lemma scanner_closes_the_lists_it_opens_witness :
  countFragments UL
    (documentFragments (fun _ _ => Normal (str "<span>m</span>"))
       (str "- a" ++ nl ++ str "```" ++ quot ++ str "><ul>"))
  = countFragments UL_END
      (documentFragments (fun _ _ => Normal (str "<span>m</span>"))
         (str "- a" ++ nl ++ str "```" ++ quot ++ str "><ul>"))
  /\ occurrences UL
       (convertMarkdown (fun _ _ => Normal (str "<span>m</span>"))
          (str "- a $x$" ++ nl ++ str "1. b" ++ nl ++ str "```js" ++ nl
           ++ str "<ul>" ++ nl ++ str "```" ++ nl ++ str "+ c"))
     = occurrences UL_END
         (convertMarkdown (fun _ _ => Normal (str "<span>m</span>"))
            (str "- a $x$" ++ nl ++ str "1. b" ++ nl ++ str "```js" ++ nl
             ++ str "<ul>" ++ nl ++ str "```" ++ nl ++ str "+ c"))
  /\ inBullet (processLine (fun _ _ => Normal (str "<span>m</span>"))
                 (scanLines (fun _ _ => Normal (str "<span>m</span>"))
                    [str "- a"; str "- b"])
                 (str "# c")) = false.
Proof.
  split; [|split].
  - refine (proj1 (proj1 (proj2 (scanner_closes_the_lists_it_opens
                                   (fun _ _ => Normal (str "<span>m</span>")))) _
                     (str "- a" ++ nl ++ str "```" ++ quot ++ str "><ul>"))).
    intros e d html H. injection H as <-. reflexivity.
  - refine (proj1 (proj1 (proj2 (proj2 (scanner_closes_the_lists_it_opens
                                          (fun _ _ => Normal (str "<span>m</span>")))))
                     _
                     (str "- a $x$" ++ nl ++ str "1. b" ++ nl ++ str "```js" ++ nl
                      ++ str "<ul>" ++ nl ++ str "```" ++ nl ++ str "+ c")
                     _)).
    + intros e d html H. injection H as <-. reflexivity.
    + apply Forall_forall. apply forallb_forall. vm_compute. reflexivity.
  - apply (proj1 (proj2 (proj1 (proj2 (proj2 (proj2 (proj2 (proj2
             (scanner_closes_the_lists_it_opens
                (fun _ _ => Normal (str "<span>m</span>"))))))))
             (scanLines (fun _ _ => Normal (str "<span>m</span>"))
                [str "- a"; str "- b"])
             (str "# c") eq_refl eq_refl eq_refl eq_refl))).
Defined.

(** ** Paragraphs *)

Lemma isParagraphLine_units (line : jsstr) :
  forallb (fun c => negb (isMarker c) && negb (c =? LF) && negb (c =? CR)) line
  = true ->
  forall x, In x line -> isMarker x = false /\ x <> LF /\ x <> CR.
Proof.
  intros H x Hx. rewrite forallb_forall in H. specialize (H x Hx).
  apply andb_true_iff in H. destruct H as [H H3].
  apply andb_true_iff in H. destruct H as [H1 H2].
  apply negb_true_iff in H1, H2, H3.
  repeat split; [exact H1 | |]; apply N.eqb_neq; assumption.
Qed.

Lemma parseInline_no_marker (katex : jsstr -> bool -> completion jsstr)
  (text : jsstr) :
  (forall x, In x text -> isMarker x = false) ->
  parseInline katex text = escapeHtml text.
Proof.
  intros H. unfold parseInline. cbv zeta.
  pose proof (escapeHtml_no_marker text H) as He.
  rewrite replaceInlineMath_no_dollar.
  - apply inlineMarkup_no_marker. exact He.
  - intros x Hin. specialize (He x Hin). unfold isMarker in He.
    do 5 (apply orb_false_iff in He; destruct He as [He ?]).
    apply N.eqb_neq. exact He.
Qed.

Lemma processLine_paragraph_line (katex : jsstr -> bool -> completion jsstr)
  (s : state) (line : jsstr) :
  isParagraphLine line = true ->
  inCode s = false -> inMathBlock s = false ->
  processLine katex s line
  = push (str "<p>" ++ escapeHtml (trim line) ++ str "</p>")
      (closeBlockquote (closeLists s)).
Proof.
  intros Hline Hcode Hmath. unfold isParagraphLine in Hline.
  do 6 (apply andb_true_iff in Hline; destruct Hline as [Hline ?]).
  pose proof (isParagraphLine_units line Hline) as Hunits.
  destruct (trim line) as [|c t] eqn:Htrim; [discriminate|].
  assert (Hc : isMarker c = false).
  { apply (Hunits c). apply In_trim. rewrite Htrim. left. reflexivity. }
  unfold isMarker in Hc.
  do 5 (apply orb_false_iff in Hc; destruct Hc as [Hc ?]).
  assert (F1 : startsWith FENCE (c :: t) = false).
  { unfold FENCE. cbn [startsWith].
    replace (BACKTICK =? c) with false; [reflexivity|].
    symmetry. apply eqb_false_sym. assumption. }
  assert (F2 : startsWith DD (c :: t) = false).
  { unfold DD. cbn [startsWith].
    replace (DOLLAR =? c) with false; [reflexivity|].
    symmetry. apply eqb_false_sym. assumption. }
  unfold processLine. cbv zeta. rewrite Htrim.
  rewrite F1, Hcode, F2, Hmath. cbn [isEmpty].
  destruct (matchStart reHeading (c :: t)); [discriminate|].
  repeat match goal with
         | H : negb ?b = true |- _ => apply negb_true_iff in H; rewrite ?H
         end.
  unfold paragraphHtml. rewrite parseInline_no_marker; [reflexivity|].
  intros x Hx. apply (Hunits x). apply In_trim. rewrite Htrim. exact Hx.
Qed.

Lemma isPlainLine_isParagraphLine (line : jsstr) :
  isPlainLine line = true -> isParagraphLine line = true.
Proof.
  intros Hplain. pose proof (isPlainLine_units line Hplain) as Hunits.
  destruct (isPlainLine_first line Hplain)
    as [c [t [Htrim [H1 [H2 [H3 [H4 [H5 [H6 [H7 [H8 H9]]]]]]]]]]].
  unfold isParagraphLine. rewrite Htrim.
  assert (E1 : forallb (fun c => negb (isMarker c) && negb (c =? LF)
                                 && negb (c =? CR)) line = true).
  { apply forallb_forall. intros x Hx.
    destruct (Hunits x Hx) as [Hs [Hl Hr]].
    unfold isInlineSpecial in Hs.
    do 6 (apply orb_false_iff in Hs; destruct Hs as [Hs ?]).
    unfold isMarker.
    repeat match goal with H : (_ =? _) = false |- _ => rewrite H; clear H end.
    apply N.eqb_neq in Hl, Hr. rewrite Hl, Hr. reflexivity. }
  assert (E2 : matchStart reHeading (c :: t) = None).
  { unfold matchStart, reHeading. apply pmatch_Rep_fails; [|lia].
    apply N.eqb_neq. congruence. }
  assert (E3 : testStart reQuote (c :: t) = false).
  { unfold testStart, matchStart, reQuote, lit.
    rewrite pmatch_One_fails; [reflexivity|]. apply N.eqb_neq. congruence. }
  assert (E4 : testStart reOrdered (c :: t) = false).
  { unfold testStart, matchStart, reOrdered.
    rewrite pmatch_Rep_fails; [reflexivity | assumption | lia]. }
  assert (E5 : testStart reBullet (c :: t) = false).
  { unfold testStart, matchStart, reBullet.
    rewrite pmatch_One_fails; [reflexivity|].
    rewrite !orb_false_iff. repeat split; apply N.eqb_neq; assumption. }
  rewrite E1, E2, E3, E4, E5, testRule_other by assumption. reflexivity.
Qed.

(** C8, as the code has it: a single line of plain text renders as its
    trimmed text, HTML-escaped, inside [<p>] and [</p>], and nothing
    follows the closing tag: fragments are joined by newlines, not ended
    by them.  The lines are those without a marker of the inline pass on
    which the scanner's block tests fail, whatever their first character;
    without the five characters that [escapeHtml] replaces the paragraph
    holds the trimmed line itself.  In every state outside code and math blocks the line closes
    the open lists and quote and adds that paragraph. *)
Theorem plain_line_renders_as_paragraph
  (katex : jsstr -> bool -> completion jsstr) (line : jsstr) :
  isParagraphLine line = true ->
  convertMarkdown katex line = str "<p>" ++ escapeHtml (trim line) ++ str "</p>"
  /\ (forallb (fun c => negb (isHtmlSpecial c)) line = true ->
      convertMarkdown katex line = str "<p>" ++ trim line ++ str "</p>")
  /\ (forall s,
         inCode s = false -> inMathBlock s = false ->
         processLine katex s line
         = push (str "<p>" ++ escapeHtml (trim line) ++ str "</p>")
             (closeBlockquote (closeLists s))).
Proof.
  intros Hline.
  assert (E : convertMarkdown katex line
              = str "<p>" ++ escapeHtml (trim line) ++ str "</p>").
  { assert (Hunits : forall x, In x line -> isMarker x = false /\ x <> LF /\ x <> CR).
    { apply isParagraphLine_units. unfold isParagraphLine in Hline.
      do 6 (apply andb_true_iff in Hline; destruct Hline as [Hline ?]).
      exact Hline. }
    unfold convertMarkdown. cbv zeta.
    rewrite (replaceAll_absent_unit (N.eqb CR) reNewline);
      [| left; reflexivity
       | intros x Hin; apply eqb_false_sym, N.eqb_neq; apply (Hunits x Hin)].
    rewrite splitLines_one by (intros x Hin; apply (Hunits x Hin)).
    apply convertLines_single.
    apply processLine_paragraph_line; [exact Hline | reflexivity | reflexivity]. }
  split; [exact E|]. split.
  - intros Hplain. rewrite E. rewrite escapeHtml_plain; [reflexivity|].
    intros x Hx. rewrite forallb_forall in Hplain.
    apply negb_true_iff. apply Hplain. apply In_trim. exact Hx.
  - intros s. apply processLine_paragraph_line. exact Hline.
Qed.

Lemma plain_line_renders_as_paragraph_witness :
  convertMarkdown (fun _ _ => Throw []) (str "  2024 was a good year ")
  = str "<p>2024 was a good year</p>"
  /\ convertMarkdown (fun _ _ => Throw []) (str "-5 degrees & <falling>")
     = str "<p>-5 degrees &amp; &lt;falling&gt;</p>".
Proof.
  split.
  - apply (proj1 (proj2 (plain_line_renders_as_paragraph (fun _ _ => Throw [])
                           (str "  2024 was a good year ") eq_refl))).
    reflexivity.
  - apply (proj1 (plain_line_renders_as_paragraph (fun _ _ => Throw [])
                    (str "-5 degrees & <falling>") eq_refl)).
Defined.
